(** * mistlib: the option schema, argument parser, service bootstrap
    (lib/config.cpp) and the delta-vector codec (lib/json.h)

  A shallow embedding of the two source files and the properties the
  specification states about them.  Part I holds the model, Part II the
  theorems. *)

From Stdlib Require Import ZArith List Lia Bool String Ascii.
From Stdlib Require Import Strings.Byte DecimalString.
From Equations Require Import Equations.
Import ListNotations.
Local Open Scope Z_scope.
#[local] Set Warnings "-register-all".

(* ===================================================================== *)
(** * Part I: the model                                                   *)
(* ===================================================================== *)

(** ** Machine integers and characters

  [int] and [unsigned int] are 32 bits wide, [long long] 64 bits.  Whether
  plain [char] is signed is fixed by the C++ implementation (signed on
  x86, unsigned on Linux/ARM); the model takes it as a parameter
  [char_signed] wherever a [char] is widened to [int]. *)
Module Cxx.

(** Conversion to [unsigned int]: reduction modulo 2^32. *)
Definition to_uint (z : Z) : Z := z mod 4294967296.

(** Conversion to [int], two's complement. *)
Definition to_int (z : Z) : Z := (z + 2147483648) mod 4294967296 - 2147483648.

(** The bit pattern of a [char], as a number 0..255. *)
Definition char_bits (b : byte) : Z := Z.of_N (Byte.to_N b).

(** [(char)z]: the low eight bits of [z]. *)
Definition to_char (z : Z) : byte :=
  match Byte.of_N (Z.to_N (z mod 256)) with
  | Some b => b
  | None => x00
  end.

(** Integral promotion of a [char] read from a [std::string]. *)
Definition char_to_int (char_signed : bool) (b : byte) : Z :=
  let v := char_bits b in
  if char_signed && (128 <=? v) then v - 256 else v.

End Cxx.

(** ** lib/json.h: the document type and the delta-vector codec *)
Module JSON.
Import Cxx.

(** *** [JSON::Value]

    json.h declares the class; its member functions are defined in json.cpp,
    which is not among the sources.  The specification treats the type as an
    external collaborator that "provides object/array/scalar variants,
    named/indexed iteration" and behaves "as a mapping with ordered
    scalar/array leaves".  The constructors below are the [ValueType]
    variants with the private field that carries each one's payload.
    [objVal] is a [std::map]: it is kept as an association list in key
    order, because the order of iteration decides which entry an option or
    a positional token goes to. *)
Inductive Value : Type :=
| EMPTY
| BOOL (intVal : bool)
| INTEGER (intVal : Z)
| STRING (strVal : string)
| ARRAY (arrVal : list Value)
| OBJECT (objVal : list (string * Value)).

(** The named members of a value; only an object has any. *)
Definition members (v : Value) : list (string * Value) :=
  match v with
  | OBJECT o => o
  | _ => []
  end.

(** The elements of a value; only an array has any. *)
Definition elements (v : Value) : list Value :=
  match v with
  | ARRAY a => a
  | _ => []
  end.

Fixpoint find_member (name : string) (o : list (string * Value))
  : option Value :=
  match o with
  | [] => None
  | (k, x) :: r => if String.eqb k name then Some x else find_member name r
  end.

(** Modelled from the spec: [JSON::Value::isMember] (json.cpp is missing),
    whether the mapping has an entry under [name]. *)
Definition isMember (v : Value) (name : string) : bool :=
  match find_member name (members v) with
  | Some _ => true
  | None => false
  end.

(** Modelled from the spec: the [const] [operator[]] on a name (json.cpp is
    missing), the entry of the mapping under [name], an empty value when
    there is none. *)
Definition member (v : Value) (name : string) : Value :=
  match find_member name (members v) with
  | Some x => x
  | None => EMPTY
  end.

Fixpoint insert_member (name : string) (x : Value)
  (o : list (string * Value)) : list (string * Value) :=
  match o with
  | [] => [(name, x)]
  | (k, y) :: r =>
      if String.ltb name k then (name, x) :: (k, y) :: r
      else (k, y) :: insert_member name x r
  end.

Fixpoint update_member (name : string) (f : Value -> Value)
  (o : list (string * Value)) : list (string * Value) :=
  match o with
  | [] => []
  | (k, y) :: r =>
      if String.eqb k name then (k, f y) :: r
      else (k, y) :: update_member name f r
  end.

(** Modelled from the spec: the non-[const] [operator[]] on a name (json.cpp
    is missing) followed by the update [f] of the entry it refers to.  The
    value becomes an object if it is not one, the entry is created empty, in
    key order, if the mapping has none under [name]. *)
Definition at_member (name : string) (f : Value -> Value) (v : Value)
  : Value :=
  match find_member name (members v) with
  | Some _ => OBJECT (update_member name f (members v))
  | None => OBJECT (insert_member name (f EMPTY) (members v))
  end.

(** [v[name] = x]. *)
Definition set_member (name : string) (x : Value) (v : Value) : Value :=
  at_member name (fun _ => x) v.

(** Modelled from the spec: [JSON::Value::append] (json.cpp is missing),
    [rhs] added at the end of the ordered list of values; a value that is
    not an array becomes the one-element array. *)
Definition append (rhs : Value) (v : Value) : Value :=
  match v with
  | ARRAY a => ARRAY (a ++ [rhs])
  | _ => ARRAY [rhs]
  end.

(** Modelled from the spec: [JSON::Value::removeMember] (json.cpp is
    missing), the mapping without its entry under [name]. *)
Definition removeMember (name : string) (v : Value) : Value :=
  match v with
  | OBJECT o => OBJECT (filter (fun kx => negb (String.eqb (fst kx) name)) o)
  | _ => v
  end.

(** Modelled from the spec: [JSON::Value::size] (json.cpp is missing), the
    number of entries of an object or of elements of an array (taken to fit
    the [unsigned int] that json.h declares as the result). *)
Definition size (v : Value) : Z :=
  match v with
  | ARRAY a => Z.of_nat (List.length a)
  | OBJECT o => Z.of_nat (List.length o)
  | _ => 0
  end.

(** Modelled from the spec: [JSON::Value::isArray] (json.cpp is missing). *)
Definition isArray (v : Value) : bool :=
  match v with
  | ARRAY _ => true
  | _ => false
  end.

(** Modelled from the spec: the non-[const] [operator[]] on an index
    (json.cpp is missing): the element at [i] and the array afterwards,
    which is extended with empty values up to index [i] if it was shorter. *)
Definition at_index (i : Z) (v : Value) : Value * Value :=
  let a := elements v in
  let a' := a ++ repeat EMPTY (Z.to_nat (i + 1 - Z.of_nat (List.length a))) in
  (nth (Z.to_nat i) a' EMPTY, ARRAY a').

(** [isspace] and [isdigit] of the C locale. *)
Definition isspace (c : ascii) : bool :=
  let n := N_of_ascii c in
  (N.eqb n 32 || (N.leb 9 n && N.leb n 13))%N.

Definition isdigit (c : ascii) : bool :=
  let n := N_of_ascii c in (N.leb 48 n && N.leb n 57)%N.

Fixpoint skip_spaces (s : string) : string :=
  match s with
  | String c r => if isspace c then skip_spaces r else s
  | EmptyString => s
  end.

Fixpoint read_digits (s : string) (acc : Z) : Z :=
  match s with
  | String c r =>
      if isdigit c then read_digits r (acc * 10 + (Z.of_N (N_of_ascii c) - 48))
      else acc
  | EmptyString => acc
  end.

(** The range of [long long]. *)
Definition LLONG_MAX : Z := 9223372036854775807.
Definition LLONG_MIN : Z := -9223372036854775808.

(** [atoll] of the C library, which glibc defines as [strtoll] in base 10:
    blanks, an optional sign, then the leading decimal digits; a number
    beyond the range of [long long] comes back as [LLONG_MAX] or
    [LLONG_MIN]. *)
Definition atoll (s : string) : Z :=
  Z.max LLONG_MIN
    (Z.min LLONG_MAX
       match skip_spaces s with
       | String "-"%char r => - read_digits r 0
       | String "+"%char r => read_digits r 0
       | r => read_digits r 0
       end).

(** Modelled from the spec: [JSON::Value::asInt] (json.cpp is missing), the
    scalar leaf as a [long long]: an integer as it is, a string through
    [atoll], anything else 0. *)
Definition asInt (v : Value) : Z :=
  match v with
  | INTEGER n => n
  | STRING s => atoll s
  | _ => 0
  end.

(** Modelled from the spec: [JSON::Value::asBool] (json.cpp is missing),
    whether the value holds anything: a non-empty string, a non-zero
    integer, a true boolean, a non-empty object or array. *)
Definition asBool (v : Value) : bool :=
  match v with
  | EMPTY => false
  | BOOL b => b
  | INTEGER n => negb (n =? 0)
  | STRING s => negb (String.eqb s "")
  | ARRAY a => negb (Nat.eqb (List.length a) 0)
  | OBJECT o => negb (Nat.eqb (List.length o) 0)
  end.

(** Modelled from the spec: [JSON::Value::asStringRef] (json.cpp is
    missing), the text of a string leaf, the empty string otherwise. *)
Definition asStringRef (v : Value) : string :=
  match v with
  | STRING s => s
  | _ => ""%string
  end.

Section Text.
(** [JSON::Value::toString], one of the "multiple text/binary
    serializations" of the document type (json.cpp is missing), taken as a
    parameter: the model uses it on arrays and objects only. *)
Variable toString : Value -> string.

(** Modelled from the spec: [JSON::Value::asString] (json.cpp is missing),
    the scalar leaf as text: a string as it is, nothing for the empty
    value, the decimal digits of an integer, the serialization otherwise. *)
Definition asString (v : Value) : string :=
  match v with
  | STRING s => s
  | EMPTY => ""%string
  | INTEGER n => NilZero.string_of_int (Z.to_int n)
  | BOOL b => if b then "true"%string else "false"%string
  | _ => toString v
  end.
End Text.

(** Modelled from the spec: [JSON::Value::forEachMember] on a [const] value
    (json.cpp is missing), "named iteration": [func] is called on the
    entries in key order until it returns [false]; [acc] stands for the
    variables its closure captures by reference. *)
Fixpoint forEachMember_list {S : Type}
  (func : string -> Value -> S -> S * bool)
  (o : list (string * Value)) (acc : S) : S :=
  match o with
  | [] => acc
  | (name, val) :: r =>
      let (acc', continue) := func name val acc in
      if continue then forEachMember_list func r acc' else acc'
  end.

Definition forEachMember {S : Type}
  (func : string -> Value -> S -> S * bool) (v : Value) (acc : S) : S :=
  forEachMember_list func (members v) acc.

(** Modelled from the spec: [JSON::Value::forEachMember] on a mutable value
    (json.cpp is missing): as above, and [func] may change the entry it is
    handed, in place. *)
Fixpoint forEachMember_mut_list (func : string -> Value -> Value * bool)
  (o : list (string * Value)) : list (string * Value) :=
  match o with
  | [] => []
  | (name, val) :: r =>
      let (val', continue) := func name val in
      if continue then (name, val') :: forEachMember_mut_list func r
      else (name, val') :: r
  end.

Definition forEachMember_mut (func : string -> Value -> Value * bool)
  (v : Value) : Value :=
  match v with
  | OBJECT o => OBJECT (forEachMember_mut_list func o)
  | _ => v
  end.

(** Modelled from the spec: [JSON::Value::forEachMember] on a mutable value
    (json.cpp is missing) when [func] can throw: [func] yields [None] where
    it throws, and the exception leaves the loop. *)
Fixpoint forEachMember_try_list
  (func : string -> Value -> option (Value * bool))
  (o : list (string * Value)) : option (list (string * Value)) :=
  match o with
  | [] => Some []
  | (name, val) :: r =>
      match func name val with
      | None => None
      | Some (val', continue) =>
          if continue
          then option_map (cons (name, val')) (forEachMember_try_list func r)
          else Some ((name, val') :: r)
      end
  end.

Definition forEachMember_try
  (func : string -> Value -> option (Value * bool)) (v : Value)
  : option Value :=
  match v with
  | OBJECT o => option_map OBJECT (forEachMember_try_list func o)
  | _ => Some v
  end.

(** *** The delta-vector codec *)

(** The strict decrease of the number of escape chunks still to emit,
    which bounds the [while (tmp >= max)] loops of the encoders. *)
Lemma while_decreases (m tmp : Z) :
  0 < m -> m <= tmp -> (Z.to_nat ((tmp - m) / m) < Z.to_nat (tmp / m))%nat.
Proof.
  intros Hm Hle.
  replace (tmp - m) with (tmp + (-1) * m) by ring.
  rewrite Z.div_add by lia.
  assert (1 <= tmp / m) by (apply Z.div_le_lower_bound; lia).
  lia.
Qed.

(** The body of [encodeVector]'s [for] loop for one element [tmp]
    (a [long long]): escape chunks FF FF while [tmp >= 0xFFFF], then the
    closing chunk [tmp / 256], [tmp % 256] (C++ division truncates). *)
Equations? encodeVector_chunks (tmp : Z) : list byte
  by wf (Z.to_nat (tmp / 65535)) lt :=
  encodeVector_chunks tmp with Z_le_gt_dec 65535 tmp => {
    | left _ := xff :: xff :: encodeVector_chunks (tmp - 65535);
    | right _ := [to_char (Z.quot tmp 256); to_char (Z.rem tmp 256)] }.
Proof. apply while_decreases; lia. Qed.

(** [encodeVector(begin, end)] over the elements in iteration order. *)
Definition encodeVector (seq : list Z) : list byte :=
  flat_map encodeVector_chunks seq.

(** One element of [encodeVector4]: escape chunks FF FF FF FF while
    [tmp >= 0xFFFFFFFF], then the four masked and shifted bytes. *)
Equations? encodeVector4_chunks (tmp : Z) : list byte
  by wf (Z.to_nat (tmp / 4294967295)) lt :=
  encodeVector4_chunks tmp with Z_le_gt_dec 4294967295 tmp => {
    | left _ :=
        xff :: xff :: xff :: xff :: encodeVector4_chunks (tmp - 4294967295);
    | right _ :=
        [to_char (Z.shiftr (Z.land tmp 4278190080) 24);
         to_char (Z.shiftr (Z.land tmp 16711680) 16);
         to_char (Z.shiftr (Z.land tmp 65280) 8);
         to_char (Z.land tmp 255)] }.
Proof. apply while_decreases; lia. Qed.

Definition encodeVector4 (seq : list Z) : list byte :=
  flat_map encodeVector4_chunks seq.

Section Decoders.
Variable char_signed : bool.

(** [unsigned int curLen = (input[i] << 8) + input[i + 1];]
    the sum is formed in [int] and converted to [unsigned int]. *)
Definition curLen2 (b0 b1 : byte) : Z :=
  to_uint (Z.shiftl (char_to_int char_signed b0) 8
           + char_to_int char_signed b1).

Definition curLen4 (b0 b1 b2 b3 : byte) : Z :=
  to_uint (Z.shiftl (char_to_int char_signed b0) 24
           + Z.shiftl (char_to_int char_signed b1) 16
           + Z.shiftl (char_to_int char_signed b2) 8
           + char_to_int char_signed b3).

(** The [for] loop of [decodeVector] from position [i] on, [input]
    being the bytes from [i] and [tmp] the [unsigned int] accumulator.
    With one byte left, [input[i + 1]] reads the terminating NUL that
    [std::string::operator[]] yields at index [size()]. *)
Fixpoint decodeVector_from (input : list byte) (tmp : Z) : list Z :=
  match input with
  | [] => []
  | [b0] =>
      let curLen := curLen2 b0 x00 in
      let tmp := to_uint (tmp + curLen) in
      if curLen =? 65535 then [] else [tmp]
  | b0 :: b1 :: rest =>
      let curLen := curLen2 b0 b1 in
      let tmp := to_uint (tmp + curLen) in
      if curLen =? 65535 then decodeVector_from rest tmp
      else tmp :: decodeVector_from rest 0
  end.

Definition decodeVector (input : list byte) : list Z :=
  decodeVector_from input 0.

(** The loop of [decodeVector4].  With one or two bytes left the loop
    reads beyond index [size()], which C++ leaves undefined: [None]. *)
Fixpoint decodeVector4_from (input : list byte) (tmp : Z)
  : option (list Z) :=
  match input with
  | [] => Some []
  | [b0; b1; b2] =>
      let curLen := curLen4 b0 b1 b2 x00 in
      let tmp := to_uint (tmp + curLen) in
      if curLen =? 4294967295 then Some [] else Some [tmp]
  | b0 :: b1 :: b2 :: b3 :: rest =>
      let curLen := curLen4 b0 b1 b2 b3 in
      let tmp := to_uint (tmp + curLen) in
      if curLen =? 4294967295 then decodeVector4_from rest tmp
      else option_map (cons tmp) (decodeVector4_from rest 0)
  | _ => None
  end.

Definition decodeVector4 (input : list byte) : option (list Z) :=
  decodeVector4_from input 0.
End Decoders.

End JSON.

(** ** lib/config.cpp *)
Module Util.
Import Cxx JSON.
Local Open Scope string_scope.

(** What the build and the host fix, and the sources leave open. *)
Record Platform : Type := {
  (** whether plain [char] is a signed type *)
  char_signed : bool;
  (** the macros [PACKAGE_VERSION] and [DEBUG] (defines.h, the build) *)
  PACKAGE_VERSION : string;
  DEBUG : Z;
  (** [JSON::Value::toString] on arrays and objects (json.cpp) *)
  toString : Value -> string;
  (** [Util::getTmpFolder()] (not among the sources) *)
  getTmpFolder : string;
  (** whether [Socket::Server(path)] ends up listening *)
  local_listens : string -> bool;
  (** whether [Socket::Server(port, hostname, false)] ends up listening *)
  tcp_listens : Z -> string -> bool;
  (** whether [DEBUG_MSG(DLVL_DEVEL, ...)] (a macro of defines.h) evaluates
      its arguments at a given [printDebugLevel] *)
  DLVL_DEVEL_shown : Z -> bool
}.

Inductive Signal : Type :=
| SIGINT | SIGHUP | SIGTERM | SIGPIPE | SIGCHLD | SIGOTHER (signum : Z).

Definition Signal_eqb (a b : Signal) : bool :=
  match a, b with
  | SIGINT, SIGINT | SIGHUP, SIGHUP | SIGTERM, SIGTERM
  | SIGPIPE, SIGPIPE | SIGCHLD, SIGCHLD => true
  | SIGOTHER n, SIGOTHER m => Z.eqb n m
  | _, _ => false
  end.

(** The disposition of a signal: [SIG_DFL], [SIG_IGN],
    [Util::Config::signal_handler], or a handler of the embedding program. *)
Inductive Handler : Type :=
| SIG_DFL | SIG_IGN | signal_handler_installed | custom_handler.

(** What [Socket::Server] listens on. *)
Inductive Endpoint : Type :=
| NoEndpoint
| LocalSocket (path : string)
| TcpSocket (port : Z) (hostname : string).

Record Server : Type := {
  endpoint : Endpoint;
  connected : bool
}.

(** The calls into the operating system and the socket layer, in the
    order they are made. *)
Inductive SysCall : Type :=
| sys_setUser (username : string)
| sys_daemon (noClose : bool)
| sys_listen (e : Endpoint)
| sys_accept
| sys_thread (connection : Z)
| sys_fork (pid : Z)
| sys_drop_listener
| sys_drop_connection (connection : Z)
| sys_callback (connection : Z)
| sys_sleep (ms : Z)
| sys_close_listener
| sys_waitpid.

(** One [Util::Config] object together with the process it lives in:
    the members [vals] and [long_count], the static members [is_active] and
    [printDebugLevel], what has been written to [std::cout], the signal
    dispositions and the system calls made so far. *)
Record State : Type := {
  vals : Value;
  long_count : Z;
  is_active : bool;
  printDebugLevel : Z;
  cout : string;
  sigactions : Signal -> Handler;
  syscalls : list SysCall
}.

Definition set_vals (v : Value) (s : State) : State :=
  {| vals := v; long_count := long_count s; is_active := is_active s;
     printDebugLevel := printDebugLevel s; cout := cout s;
     sigactions := sigactions s; syscalls := syscalls s |}.

Definition set_long_count (n : Z) (s : State) : State :=
  {| vals := vals s; long_count := n; is_active := is_active s;
     printDebugLevel := printDebugLevel s; cout := cout s;
     sigactions := sigactions s; syscalls := syscalls s |}.

Definition set_is_active (b : bool) (s : State) : State :=
  {| vals := vals s; long_count := long_count s; is_active := b;
     printDebugLevel := printDebugLevel s; cout := cout s;
     sigactions := sigactions s; syscalls := syscalls s |}.

Definition set_printDebugLevel (n : Z) (s : State) : State :=
  {| vals := vals s; long_count := long_count s; is_active := is_active s;
     printDebugLevel := n; cout := cout s;
     sigactions := sigactions s; syscalls := syscalls s |}.

(** [std::cout << text]. *)
Definition print (text : string) (s : State) : State :=
  {| vals := vals s; long_count := long_count s; is_active := is_active s;
     printDebugLevel := printDebugLevel s; cout := cout s ++ text;
     sigactions := sigactions s; syscalls := syscalls s |}.

(** [sigaction(sig, &new_action, NULL)]. *)
Definition set_sigaction (sig : Signal) (h : Handler) (s : State) : State :=
  {| vals := vals s; long_count := long_count s; is_active := is_active s;
     printDebugLevel := printDebugLevel s; cout := cout s;
     sigactions := fun x => if Signal_eqb x sig then h else sigactions s x;
     syscalls := syscalls s |}.

Definition call (c : SysCall) (s : State) : State :=
  {| vals := vals s; long_count := long_count s; is_active := is_active s;
     printDebugLevel := printDebugLevel s; cout := cout s;
     sigactions := sigactions s; syscalls := (syscalls s ++ [c])%list |}.

(** How a member function ends: it returns, the process exits through
    [exit(code)], for the accept loops the script of incoming events ends
    while the loop is still serving, or the process is terminated
    abnormally (an exception that nothing catches ends in [abort]). *)
Inductive Outcome (A : Type) : Type :=
| Returned (a : A) (s : State)
| Exited (code : Z) (s : State)
| Serving (s : State)
| Aborted (s : State).
Arguments Returned {A} a s.
Arguments Exited {A} code s.
Arguments Serving {A} s.
Arguments Aborted {A} s.

(** The exit status, if the process exited. *)
Definition exit_code {A : Type} (o : Outcome A) : option Z :=
  match o with
  | Exited code _ => Some code
  | _ => None
  end.

(** Whether the function returned to its caller. *)
Definition returned {A : Type} (o : Outcome A) : bool :=
  match o with
  | Returned _ _ => true
  | _ => false
  end.

(** The value returned, if the function returned. *)
Definition value_of {A : Type} (o : Outcome A) : option A :=
  match o with
  | Returned a _ => Some a
  | _ => None
  end.

(** The state the outcome leaves. *)
Definition final {A : Type} (o : Outcome A) : State :=
  match o with
  | Returned _ s => s
  | Exited _ s => s
  | Serving s => s
  | Aborted s => s
  end.

Definition Exec (A : Type) : Type := State -> Outcome A.

Definition ret {A : Type} (a : A) : Exec A := fun s => Returned a s.

Definition bind {A B : Type} (c : Exec A) (k : A -> Exec B) : Exec B :=
  fun s =>
    match c s with
    | Returned a s' => k a s'
    | Exited code s' => Exited code s'
    | Serving s' => Serving s'
    | Aborted s' => Aborted s'
    end.

Definition modify (f : State -> State) : Exec unit :=
  fun s => Returned tt (f s).

Definition exit {A : Type} (code : Z) : Exec A := fun s => Exited code s.

Notation "x <- c1 ;; c2" := (bind c1 (fun x => c2))
  (at level 61, c1 at next level, right associativity).
Notation "c1 ;;; c2" := (bind c1 (fun _ => c2))
  (at level 61, right associativity).

Definition endl : string := String (ascii_of_nat 10) "".

(** [s.size()]. *)
Definition strsize (s : string) : Z := Z.of_nat (String.length s).

(** [s[0]], which is the terminating NUL on the empty string. *)
Definition char_at0 (s : string) : byte :=
  match s with
  | String c _ => byte_of_ascii c
  | EmptyString => x00
  end.

Section Config.
Variable P : Platform.

Local Abbreviation asString := (JSON.asString (toString P)).

(** [Util::Config::Config()]: only the debug option is registered, and
    [long_count] keeps whatever indeterminate value it had.  The static
    members start as [is_active = false], [printDebugLevel = DEBUG]. *)
Definition Config_default (indeterminate : Z) : State :=
  let vals := EMPTY in
  let vals := at_member "debug" (set_member "long" (STRING "Debug")) vals in
  let vals := at_member "debug" (set_member "short" (STRING "g")) vals in
  let vals := at_member "debug" (set_member "arg" (STRING "integer")) vals in
  let vals := at_member "debug" (set_member "help"
    (STRING "The debug level at which messages need to be printed.")) vals in
  let vals := at_member "debug"
    (at_member "value" (append (INTEGER (DEBUG P)))) vals in
  {| vals := vals; long_count := indeterminate; is_active := false;
     printDebugLevel := to_uint (DEBUG P); cout := "";
     sigactions := fun _ => SIG_DFL; syscalls := [] |}.

(** [Util::Config::Config(cmd, version)] in a fresh process. *)
Definition Config (cmd version : string) : State :=
  let vals := EMPTY in
  let long_count := 2 in
  let vals := at_member "cmd" (at_member "value" (append (STRING cmd))) vals in
  let vals := at_member "version" (set_member "long" (STRING "version")) vals in
  let vals := at_member "version" (set_member "short" (STRING "v")) vals in
  let vals := at_member "version" (set_member "help"
    (STRING "Display library and application version, then exit.")) vals in
  let vals := at_member "help" (set_member "long" (STRING "help")) vals in
  let vals := at_member "help" (set_member "short" (STRING "h")) vals in
  let vals := at_member "help" (set_member "help"
    (STRING "Display usage and version information, then exit.")) vals in
  let vals := at_member "version"
    (at_member "value" (append (STRING (PACKAGE_VERSION P)))) vals in
  let vals := at_member "version"
    (at_member "value" (append (STRING version))) vals in
  let vals := at_member "debug" (set_member "long" (STRING "debug")) vals in
  let vals := at_member "debug" (set_member "short" (STRING "g")) vals in
  let vals := at_member "debug" (set_member "arg" (STRING "integer")) vals in
  let vals := at_member "debug" (set_member "help"
    (STRING "The debug level at which messages need to be printed.")) vals in
  let vals := at_member "debug"
    (at_member "value" (append (INTEGER (DEBUG P)))) vals in
  {| vals := vals; long_count := long_count; is_active := false;
     printDebugLevel := to_uint (DEBUG P); cout := "";
     sigactions := fun _ => SIG_DFL; syscalls := [] |}.

(** The closure of the [forEachMember] call in [addOption];
    [long_count] is an [int]. *)
Definition addOption_count (name : string) (val : Value) (long_count : Z)
  : Z * bool :=
  let long_count :=
    if isMember val "long" then to_int (long_count + 1) else long_count in
  let long_count :=
    if isMember val "long_off" then to_int (long_count + 1) else long_count in
  (long_count, true).

(** [Util::Config::addOption(optname, option)]. *)
Definition addOption (optname : string) (option : Value) (s : State)
  : State :=
  let vals := set_member optname option (vals s) in
  let vals :=
    if negb (isMember (member vals optname) "value")
       && isMember (member vals optname) "default"
    then
      let vals :=
        at_member optname
          (at_member "value"
             (append (member (member vals optname) "default"))) vals in
      at_member optname (removeMember "default") vals
    else vals in
  let long_count := 0 in
  let long_count := forEachMember addOption_count vals long_count in
  set_long_count long_count (set_vals vals s).

(** The number of registered options that have a "long" flag plus the
    number that have a "long_off" flag: what [long_count] stands for. *)
Definition long_flags_list (o : list (string * Value)) : Z :=
  (Z.of_nat (List.length (filter (fun e => isMember (snd e) "long") o))
   + Z.of_nat
       (List.length (filter (fun e => isMember (snd e) "long_off") o)))%Z.

Definition long_flags (vals : Value) : Z := long_flags_list (members vals).

(** A sequence of [addOption] calls, first call first. *)
Definition addOptions (calls : list (string * Value)) (s : State) : State :=
  fold_left (fun s call => addOption (fst call) (snd call) s) calls s.

(** The entries of two schemas agree on every name outside [names]. *)
Definition same_except (names : list string) (vals vals' : Value) : Prop :=
  forall name : string,
    ~ In name names ->
    find_member name (members vals') = find_member name (members vals).

(** [Util::Config::getOption(optname, asArray)]; the reference it returns
    is modelled by the value referred to. *)
Definition getOption (optname : string) (asArray : bool) : Exec Value :=
  fun s =>
    if negb (isMember (vals s) optname) then
      Exited 37
        (print ("Fatal error: a non-existent option '" ++ optname
                ++ "' was accessed." ++ endl) s)
    else
      let vals :=
        if negb (isMember (member (vals s) optname) "value")
           || negb (isArray (member (member (vals s) optname) "value"))
        then at_member optname (at_member "value" (append EMPTY)) (vals s)
        else vals s in
      if asArray then
        Returned (member (member vals optname) "value") (set_vals vals s)
      else
        let n := to_int (size (member (member vals optname) "value")) in
        let (element, value) :=
          at_index (to_uint (n - 1)) (member (member vals optname) "value") in
        Returned element
          (set_vals (at_member optname (set_member "value" value) vals) s).

(** [getString], [getInteger], [getBool]: [getOption(optname)] with
    [asArray] at its default [false], converted. *)
Definition getString (optname : string) : Exec string :=
  v <- getOption optname false ;; ret (asString v).

Definition getInteger (optname : string) : Exec Z :=
  v <- getOption optname false ;; ret (asInt v).

Definition getBool (optname : string) : Exec bool :=
  v <- getOption optname false ;; ret (asBool v).

(** [args[key] = name] on the [std::map<long long, std::string>] of
    [printHelp], kept in key order. *)
Fixpoint args_set (key : Z) (name : string) (args : list (Z * string))
  : list (Z * string) :=
  match args with
  | [] => [(key, name)]
  | (k, n) :: r =>
      if (key =? k)%Z then (k, name) :: r
      else if (key <? k)%Z then (key, name) :: (k, n) :: r
      else (k, n) :: args_set key name r
  end.

(** The closure of the first [forEachMember] call in [printHelp]; the
    accumulator holds [longest] and [args], [current] is an
    [unsigned int]. *)
Definition printHelp_measure (name : string) (val : Value)
  (acc : Z * list (Z * string)) : (Z * list (Z * string)) * bool :=
  let (longest, args) := acc in
  let current := 0%Z in
  let current :=
    if isMember val "long"
    then to_uint (current + (strsize (asString (member val "long")) + 4))
    else current in
  let current :=
    if isMember val "short"
    then to_uint (current + (strsize (asString (member val "short")) + 3))
    else current in
  let longest := if (current >? longest)%Z then current else longest in
  let current := 0%Z in
  let current :=
    if isMember val "long_off"
    then to_uint (current + (strsize (asString (member val "long_off")) + 4))
    else current in
  let current :=
    if isMember val "short_off"
    then to_uint (current + (strsize (asString (member val "short_off")) + 3))
    else current in
  let longest := if (current >? longest)%Z then current else longest in
  if isMember val "arg_num" then
    let current := to_uint (strsize name + 3) in
    let longest := if (current >? longest)%Z then current else longest in
    ((longest, args_set (asInt (member val "arg_num")) name args), true)
  else ((longest, args), true).

(** [while (f.size() < longest) f.append(" ");] *)
Fixpoint append_spaces (n : nat) (f : string) : string :=
  match n with
  | O => f
  | S n' => append_spaces n' (f ++ " ")
  end.

Definition pad (longest : Z) (f : string) : string :=
  append_spaces (Z.to_nat (longest - strsize f)) f.

(** The positional arguments of the usage line, in index order. *)
Fixpoint printHelp_usage (vals : Value) (args : list (Z * string))
  : string :=
  match args with
  | [] => ""
  | (_, name) :: r =>
      (if isMember (member vals name) "value"
          && negb (size (member (member vals name) "value") =? 0)%Z
       then " [" ++ name ++ "]"
       else " " ++ name)
      ++ printHelp_usage vals r
  end.

(** What follows the padded flag text on a flag's line. *)
Definition printHelp_description (val : Value) : string :=
  if isMember val "arg"
  then "(" ++ asString (member val "arg") ++ ") "
       ++ asString (member val "help")
  else asString (member val "help").

(** The text [f] of an option's "on" line before it is padded:
    [--long, -short], or whichever of the two flags there is. *)
Definition on_flag_text (val : Value) : string :=
  let f := "" in
  if isMember val "long" && isMember val "short" then
    "--" ++ asString (member val "long") ++ ", -"
    ++ asString (member val "short")
  else
    let f :=
      if isMember val "long"
      then "--" ++ asString (member val "long") else f in
    if isMember val "short"
    then "-" ++ asString (member val "short") else f.

(** The text [f] of an option's "off" line before it is padded. *)
Definition off_flag_text (val : Value) : string :=
  let f := "" in
  if isMember val "long_off" && isMember val "short_off" then
    "--" ++ asString (member val "long_off") ++ ", -"
    ++ asString (member val "short_off")
  else
    let f :=
      if isMember val "long_off"
      then "--" ++ asString (member val "long_off") else f in
    if isMember val "short_off"
    then "-" ++ asString (member val "short_off") else f.

(** The closure of the second [forEachMember] call in [printHelp], for one
    entry: the lines it writes, each as the padded text [f] and what is
    written after it. *)
Definition printHelp_lines (longest : Z) (name : string) (val : Value)
  : list (string * string) :=
  let on_line :=
    if isMember val "long" || isMember val "short"
    then [(pad longest (on_flag_text val), printHelp_description val)]
    else [] in
  let off_line :=
    if isMember val "long_off" || isMember val "short_off"
    then [(pad longest (off_flag_text val), printHelp_description val)]
    else [] in
  let positional_line :=
    if isMember val "arg_num" then
      [(pad longest name,
        "(" ++ asString (member val "arg") ++ ") "
        ++ asString (member val "help"))]
    else [] in
  List.app on_line (List.app off_line positional_line).

(** All help lines of a schema, in registry order. *)
Definition help_lines (longest : Z) (vals : Value)
  : list (string * string) :=
  flat_map (fun entry => printHelp_lines longest (fst entry) (snd entry))
    (members vals).

Fixpoint write_lines (lines : list (string * string)) : string :=
  match lines with
  | [] => ""
  | (f, description) :: r => f ++ description ++ endl ++ write_lines r
  end.

(** [Util::Config::printHelp(output)] with [output] bound to [std::cout],
    as [parseArgs] calls it.  The operands of [<<] are taken left to right
    (their order is unspecified before C++17, and shows only when
    [getString("cmd")] exits). *)
Definition printHelp : Exec unit :=
  fun s =>
    let (longest, args) :=
      forEachMember printHelp_measure (vals s) (0%Z, []) in
    (modify (print "Usage: ") ;;;
     cmd <- getString "cmd" ;;
     modify (print (cmd ++ " [options]")) ;;;
     modify (fun s => print (printHelp_usage (vals s) args) s) ;;;
     modify (print (endl ++ endl)) ;;;
     modify (fun s => print (write_lines (help_lines longest (vals s))) s)) s.

(** One [struct option] of getopt.h, as [parseArgs] fills it in ([flag]
    stays null). *)
Record option_t : Type := {
  name : string;
  has_arg : Z;
  val : Z
}.

(** The variables the first closure of [parseArgs] captures. *)
Record parseArgs_tables : Type := {
  shortopts : string;
  longOpts : list option_t;
  arg_count : Z
}.

(** The closure of the first [forEachMember] call in [parseArgs].
    [longOpts[long_i]] is the next free slot of the table, so an entry is
    added at its end; [arg_count] is an [int]. *)
Definition parseArgs_collect (name : string) (val : Value)
  (t : parseArgs_tables) : parseArgs_tables * bool :=
  let shortopts := shortopts t in
  let shortopts :=
    if isMember val "short" then
      let shortopts := shortopts ++ asStringRef (member val "short") in
      if isMember val "arg" then shortopts ++ ":" else shortopts
    else shortopts in
  let shortopts :=
    if isMember val "short_off" then
      let shortopts := shortopts ++ asStringRef (member val "short_off") in
      if isMember val "arg" then shortopts ++ ":" else shortopts
    else shortopts in
  let longOpts := longOpts t in
  let longOpts :=
    if isMember val "long" then
      (longOpts ++
       [{| name := asStringRef (member val "long");
           has_arg := if isMember val "arg" then 1 else 0;
           val := char_to_int (char_signed P)
                    (char_at0 (asStringRef (member val "short"))) |}])%list
    else longOpts in
  let longOpts :=
    if isMember val "long_off" then
      (longOpts ++
       [{| name := asStringRef (member val "long_off");
           has_arg := if isMember val "arg" then 1 else 0;
           val := char_to_int (char_signed P)
                    (char_at0 (asStringRef (member val "short_off"))) |}])%list
    else longOpts in
  let arg_count := arg_count t in
  let arg_count :=
    if isMember val "arg_num"
       && negb (isMember val "value"
                && negb (size (member val "value") =? 0)%Z)
    then
      if (asInt (member val "arg_num") >? arg_count)%Z
      then to_int (asInt (member val "arg_num"))
      else arg_count
    else arg_count in
  ({| shortopts := shortopts; longOpts := longOpts; arg_count := arg_count |},
   true).

(** The closure of the [default:] branch: the first entry whose short flag,
    or short off-flag, starts with the character [opt] takes the value.
    [optarg] is the global of getopt.h, a null pointer ([None]) when the
    option that was reported came without an argument.
    [(std::string)optarg] on a null pointer is undefined; libstdc++ throws
    [std::logic_error] there, which nothing catches: [None]. *)
Definition parseArgs_store (opt : Z) (optarg : option string)
  (name : string) (val : Value) : option (Value * bool) :=
  if isMember val "short"
     && (char_to_int (char_signed P) (char_at0 (asString (member val "short")))
         =? opt)%Z
  then
    if isMember val "arg"
    then
      match optarg with
      | Some text => Some (at_member "value" (append (STRING text)) val, false)
      | None => None
      end
    else Some (at_member "value" (append (INTEGER 1)) val, false)
  else if isMember val "short_off"
          && (char_to_int (char_signed P)
                (char_at0 (asString (member val "short_off"))) =? opt)%Z
  then Some (at_member "value" (append (INTEGER 0)) val, false)
  else Some (val, true).

(** The two lines of [case 'v':], then [exit(1)]. *)
Definition parseArgs_version {A : Type} : Exec A :=
  modify (print ("Library version: " ++ PACKAGE_VERSION P ++ endl)) ;;;
  modify (print "Application version: ") ;;;
  version <- getString "version" ;;
  modify (print (version ++ endl)) ;;;
  exit 1.

(** The [default:] branch for one option: the schema is walked with the
    closure; an exception that leaves the walk ends the process, and
    [Aborted] carries the state in which the walk started. *)
Definition parseArgs_default (opt : Z) (optarg : option string) : Exec unit :=
  fun s =>
    match forEachMember_try (parseArgs_store opt optarg) (vals s) with
    | Some vals => Returned tt (set_vals vals s)
    | None => Aborted s
    end.

(** The [while ((opt = getopt_long(...)) != -1)] loop.  [getopt_long]
    belongs to the C library; [opts] lists what its successive calls return
    before -1, each with the [optarg] it leaves (null for an option without
    an argument).  'h' is 104, '?' is 63, 'v' is 118; [case 'h'] and
    [case '?'] fall through into [case 'v']. *)
Fixpoint parseArgs_options (opts : list (Z * option string)) : Exec unit :=
  match opts with
  | [] => ret tt
  | (opt, optarg) :: opts' =>
      if ((opt =? 104) || (opt =? 63))%Z then
        printHelp ;;; parseArgs_version
      else if (opt =? 118)%Z then parseArgs_version
      else parseArgs_default opt optarg ;;; parseArgs_options opts'
  end.

(** The closure of the positional loop: the first entry whose [arg_num]
    equals the counter [long_i] takes the token. *)
Definition parseArgs_positional (long_i : Z) (token : string)
  (name : string) (val : Value) : Value * bool :=
  if isMember val "arg_num" && (asInt (member val "arg_num") =? long_i)%Z
  then (at_member "value" (append (STRING token)) val, false)
  else (val, true).

(** The [while (optind < argc)] loop over the tokens [getopt_long] left at
    [argv[optind]] and after; it returns the schema and the counter
    [long_i] (an [int]) it ends with. *)
Fixpoint parseArgs_rest (rest : list string) (long_i : Z) (vals : Value)
  : Value * Z :=
  match rest with
  | [] => (vals, long_i)
  | token :: rest' =>
      let vals :=
        forEachMember_mut (parseArgs_positional long_i token) vals in
      parseArgs_rest rest' (to_int (long_i + 1)) vals
  end.

(** [Util::Config::parseArgs(argc, argv)], given what [getopt_long] makes of
    the command line: the options [opts] it returns and the bare tokens
    [rest] it leaves. *)
Definition parseArgs (opts : list (Z * option string))
  (rest : list string) : Exec bool :=
  fun s =>
    let tables :=
      forEachMember parseArgs_collect (vals s)
        {| shortopts := ""; longOpts := []; arg_count := 0 |} in
    let arg_count := arg_count tables in
    (parseArgs_options opts ;;;
     fun s =>
       let long_i := 1%Z in
       let (vals, long_i) := parseArgs_rest rest long_i (vals s) in
       let s := set_vals vals s in
       if (long_i <=? arg_count)%Z then Returned false s
       else
         (debug <- getInteger "debug" ;;
          modify (set_printDebugLevel (to_uint debug)) ;;;
          ret true) s) s.

(** *** Vocabulary for the statements about [printHelp] *)

(** The alignment column [printHelp] computes for a schema: its variable
    [longest] after the first loop. *)
Definition alignment (vals : Value) : Z :=
  fst (forEachMember printHelp_measure vals (0%Z, [])).

(** The widths of the texts an entry puts at the start of its help lines,
    each plus a margin: [flag_margin] for the "on" and the "off" flag text,
    [name_margin] for the name of a positional argument. *)
Definition text_widths (flag_margin name_margin : Z)
  (name : string) (val : Value) : list Z :=
  List.app
    (if isMember val "long" || isMember val "short"
     then [(strsize (on_flag_text val) + flag_margin)%Z] else [])
    (List.app
       (if isMember val "long_off" || isMember val "short_off"
        then [(strsize (off_flag_text val) + flag_margin)%Z] else [])
       (if isMember val "arg_num"
        then [(strsize name + name_margin)%Z] else [])).

Definition all_widths (flag_margin name_margin : Z) (vals : Value)
  : list Z :=
  flat_map (fun e => text_widths flag_margin name_margin (fst e) (snd e))
    (members vals).

(** The longest flag or positional text with its margin: 2 after a flag
    text, 3 after a positional name; 0 for a schema without any. *)
Definition column (vals : Value) : Z :=
  fold_right Z.max 0%Z (all_widths 2 3 vals).

(** The length of the longest flag or positional text itself. *)
Definition longest_text (vals : Value) : Z :=
  fold_right Z.max 0%Z (all_widths 0 0 vals).

(** The texts are short enough for the [unsigned int] arithmetic of
    [printHelp] not to wrap. *)
Definition fits (vals : Value) : bool :=
  forallb (fun w => (w <? 4294967296)%Z) (all_widths 2 3 vals).

(** *** Vocabulary for the statements about [parseArgs] *)

(** Whether an entry declares the positional index [k]. *)
Definition takes_position (k : Z) (entry : Value) : bool :=
  isMember entry "arg_num" && (asInt (member entry "arg_num") =? k)%Z.




(** An entry that declares a positional index and has no preset value: no
    "value" member, or an empty one. *)
Definition needs_value (entry : Value) : bool :=
  isMember entry "arg_num"
  && negb (isMember entry "value"
           && negb (size (member entry "value") =? 0)%Z).

(** The highest positional index among the entries that need a value, 0
    when there is none. *)
Definition highest_needed (vals : Value) : Z :=
  fold_right Z.max 0%Z
    (map (fun e => asInt (member (snd e) "arg_num"))
       (filter (fun e => needs_value (snd e)) (members vals))).

(** The positional indices of the entries that need a value are in the
    range of [int], the type of [arg_count]. *)
Definition positions_fit (vals : Value) : bool :=
  forallb
    (fun e =>
       negb (needs_value (snd e))
       || (asInt (member (snd e) "arg_num") <? 2147483648)%Z)
    (members vals).

(** An option character other than 'h', '?' and 'v'. *)
Definition ordinary (opt : Z) : bool :=
  negb ((opt =? 104) || (opt =? 63) || (opt =? 118))%Z.

(** The schema after the [default:] branch has stored the options
    [opts], one after the other; [None] if storing one of them throws. *)
Fixpoint store_options (opts : list (Z * option string)) (vals : Value)
  : option Value :=
  match opts with
  | [] => Some vals
  | (opt, optarg) :: opts' =>
      match forEachMember_try (parseArgs_store opt optarg) vals with
      | Some vals => store_options opts' vals
      | None => None
      end
  end.

(** [Util::setUser(username)]: the attempt to change user; its failures
    are only logged. *)
Definition setUser (username : string) : Exec unit :=
  if negb (String.eqb username "root")
  then modify (call (sys_setUser username))
  else ret tt.

(** [Util::Daemonize(notClose)]: [daemon(1, noClose)]; its failure is only
    logged. *)
Definition Daemonize (notClose : bool) : Exec unit :=
  modify (call (sys_daemon notClose)).

(** [Util::Config::activate()], first block: drop privileges to the
    stored "username", then forget the option. *)
Definition activate_username : Exec unit :=
  fun s =>
    if isMember (vals s) "username" then
      (username <- getString "username" ;;
       setUser username ;;;
       modify (fun s => set_vals (removeMember "username" (vals s)) s)) s
    else Returned tt s.

(** [Daemonize(true)] if a non-empty "logfile" is set, [Daemonize(false)]
    otherwise. *)
Definition activate_background : Exec unit :=
  fun s =>
    if isMember (vals s) "logfile" then
      (logfile <- getString "logfile" ;;
       if negb (String.eqb logfile "")
       then Daemonize true else Daemonize false) s
    else Daemonize false s.

(** Second block: daemonize if "daemonize" exists and is true, then forget
    the option. *)
Definition activate_daemonize : Exec unit :=
  fun s =>
    if isMember (vals s) "daemonize" then
      (daemonize <- getBool "daemonize" ;;
       if daemonize then
         activate_background ;;;
         modify (fun s => set_vals (removeMember "daemonize" (vals s)) s)
       else ret tt) s
    else Returned tt s.

(** Third block: the signal handlers; [SIGCHLD] only if its disposition is
    [SIG_DFL] or [SIG_IGN]. *)
Definition activate_signals : Exec unit :=
  modify (set_sigaction SIGINT signal_handler_installed) ;;;
  modify (set_sigaction SIGHUP signal_handler_installed) ;;;
  modify (set_sigaction SIGTERM signal_handler_installed) ;;;
  modify (set_sigaction SIGPIPE signal_handler_installed) ;;;
  (fun s =>
     match sigactions s SIGCHLD with
     | SIG_DFL | SIG_IGN =>
         Returned tt (set_sigaction SIGCHLD signal_handler_installed s)
     | _ => Returned tt s
     end).

(** [Util::Config::activate()]. *)
Definition activate : Exec unit :=
  activate_username ;;;
  activate_daemonize ;;;
  activate_signals ;;;
  modify (set_is_active true).

(** Whether "daemonize" is registered with a true current value, as
    [activate] tests it: [getBool("daemonize")] returns [true]. *)
Definition daemonize_requested (s : State) : bool :=
  match value_of (getBool "daemonize" s) with
  | Some b => b
  | None => false
  end.

(** [Util::Config::signal_handler(signum)]; the reaping loop of [SIGCHLD]
    is recorded as one call. *)
Definition signal_handler (signum : Signal) (s : State) : State :=
  match signum with
  | SIGINT | SIGHUP | SIGTERM => set_is_active false s
  | SIGCHLD => call sys_waitpid s
  | _ => s
  end.

(** Delivery of the signals that arrive while the process waits: a signal
    runs [signal_handler] if that is its disposition. *)
Fixpoint deliver (signals : list Signal) (s : State) : State :=
  match signals with
  | [] => s
  | sig :: r =>
      match sigactions s sig with
      | signal_handler_installed => deliver r (signal_handler sig s)
      | _ => deliver r s
      end
  end.

(** What [server_socket.accept()] comes back with. *)
Inductive Accept : Type :=
| Accepted (connection : Z)
| NothingPending
| ListenerLost.

(** What the environment does during one round of an accept loop: the
    result of [accept], the result of [fork] and of the callback in the
    child (for [forkServer]), and the signals delivered meanwhile. *)
Record Round : Type := {
  accept : Accept;
  fork : Z;
  callback : Z;
  signals : list Signal
}.

Definition lost (server_socket : Server) : Server :=
  {| endpoint := endpoint server_socket; connected := false |}.

(** [Util::Config::threadServer(server_socket, callback)], one [Round] of
    the environment per execution of the loop body. *)
Fixpoint threadServer (script : list Round) (server_socket : Server)
  (s : State) {struct script} : Outcome Z :=
  if is_active s && connected server_socket then
    match script with
    | [] => Serving s
    | round :: script' =>
        let s := call sys_accept s in
        match accept round with
        | Accepted connection =>
            threadServer script' server_socket
              (deliver (signals round) (call (sys_thread connection) s))
        | NothingPending =>
            threadServer script' server_socket
              (deliver (signals round) (call (sys_sleep 10) s))
        | ListenerLost =>
            threadServer script' (lost server_socket)
              (deliver (signals round) (call (sys_sleep 10) s))
        end
    end
  else Returned 0%Z (call sys_close_listener s).

(** [Util::Config::forkServer(server_socket, callback)]; in the child
    ([fork() == 0]) the function returns what the callback returns. *)
Fixpoint forkServer (script : list Round) (server_socket : Server)
  (s : State) {struct script} : Outcome Z :=
  if is_active s && connected server_socket then
    match script with
    | [] => Serving s
    | round :: script' =>
        let s := call sys_accept s in
        match accept round with
        | Accepted connection =>
            let s := call (sys_fork (fork round)) s in
            if (fork round =? 0)%Z then
              Returned (callback round)
                (call (sys_callback connection) (call sys_drop_listener s))
            else
              forkServer script' server_socket
                (deliver (signals round)
                   (call (sys_drop_connection connection) s))
        | NothingPending =>
            forkServer script' server_socket
              (deliver (signals round) (call (sys_sleep 10) s))
        | ListenerLost =>
            forkServer script' (lost server_socket)
              (deliver (signals round) (call (sys_sleep 10) s))
        end
    end
  else Returned 0%Z (call sys_close_listener s).

(** [if (vals.isMember("socket")) server_socket = Socket::Server(
    Util::getTmpFolder() + getString("socket"));] *)
Definition resolve_local (server_socket : Server) : Exec Server :=
  fun s =>
    if isMember (vals s) "socket" then
      (socket <- getString "socket" ;;
       let path := getTmpFolder P ++ socket in
       modify (call (sys_listen (LocalSocket path))) ;;;
       ret {| endpoint := LocalSocket path;
              connected := local_listens P path |}) s
    else Returned server_socket s.

(** [if (vals.isMember("listen_port") && vals.isMember("listen_interface"))
    server_socket = Socket::Server(getInteger("listen_port"),
    getString("listen_interface"), false);]  The port parameter is an
    [int]. *)
Definition resolve_tcp (server_socket : Server) : Exec Server :=
  fun s =>
    if isMember (vals s) "listen_port"
       && isMember (vals s) "listen_interface" then
      (listen_port <- getInteger "listen_port" ;;
       listen_interface <- getString "listen_interface" ;;
       let port := to_int listen_port in
       modify (call (sys_listen (TcpSocket port listen_interface))) ;;;
       ret {| endpoint := TcpSocket port listen_interface;
              connected := tcp_listens P port listen_interface |}) s
    else Returned server_socket s.

(** The listener resolution both [serve...Socket] functions start with: a
    default-constructed [Socket::Server], then the two [if] statements, one
    after the other. *)
Definition resolve_listener : Exec Server :=
  let server_socket := {| endpoint := NoEndpoint; connected := false |} in
  server_socket <- resolve_local server_socket ;;
  resolve_tcp server_socket.

(** [DEBUG_MSG(DLVL_DEVEL, "Activating ... server: %s",
    getString("cmd").c_str())]: the message goes to the log, the argument
    is evaluated when the level is shown. *)
Definition debug_activating : Exec unit :=
  fun s =>
    if DLVL_DEVEL_shown P (printDebugLevel s)
    then (getString "cmd" ;;; ret tt) s
    else Returned tt s.

(** [Util::Config::serveThreadedSocket(callback)]. *)
Definition serveThreadedSocket (script : list Round) : Exec Z :=
  server_socket <- resolve_listener ;;
  if negb (connected server_socket) then ret 1%Z
  else debug_activating ;;; activate ;;; threadServer script server_socket.

(** [Util::Config::serveForkedSocket(callback)]. *)
Definition serveForkedSocket (script : list Round) : Exec Z :=
  server_socket <- resolve_listener ;;
  if negb (connected server_socket) then ret 1%Z
  else debug_activating ;;; activate ;;; forkServer script server_socket.

(** [Util::Config::addBasicConnectorOptions(capabilities)]; it returns the
    capabilities it updates through the reference. *)
Definition addBasicConnectorOptions (capabilities : Value) (s : State)
  : Value * State :=
  let option := EMPTY in
  let option := set_member "long" (STRING "username") option in
  let option := set_member "short" (STRING "u") option in
  let option := set_member "arg" (STRING "string") option in
  let option := set_member "help"
    (STRING "Username to drop privileges to, or root to not drop privileges.")
    option in
  let option := at_member "value" (append (STRING "root")) option in
  let s := addOption "username" option s in
  let capabilities :=
    at_member "optional" (at_member "username"
      (set_member "name" (STRING "Username"))) capabilities in
  let capabilities :=
    at_member "optional" (at_member "username"
      (set_member "help" (STRING
        "Username to drop privileges to - default if unprovided means do not drop privileges")))
      capabilities in
  let capabilities :=
    at_member "optional" (at_member "username"
      (set_member "option" (STRING "--username"))) capabilities in
  let capabilities :=
    at_member "optional" (at_member "username"
      (set_member "type" (STRING "str"))) capabilities in
  let s :=
    if isMember capabilities "socket" then
      let option := EMPTY in
      let option := set_member "arg" (STRING "string") option in
      let option := set_member "help"
        (STRING "Socket name that can be connected to for this connector.")
        option in
      let option :=
        at_member "value" (append (member capabilities "socket")) option in
      addOption "socket" option s
    else s in
  let option := EMPTY in
  let option := set_member "long" (STRING "daemon") option in
  let option := set_member "short" (STRING "d") option in
  let option := set_member "long_off" (STRING "nodaemon") option in
  let option := set_member "short_off" (STRING "n") option in
  let option := set_member "help"
    (STRING "Whether or not to daemonize the process after starting.")
    option in
  let option := at_member "value" (append (INTEGER 0)) option in
  let s := addOption "daemonize" option s in
  let option := EMPTY in
  let option := set_member "long" (STRING "json") option in
  let option := set_member "short" (STRING "j") option in
  let option := set_member "help"
    (STRING "Output connector info in JSON format, then exit.") option in
  let option := at_member "value" (append (INTEGER 0)) option in
  let s := addOption "json" option s in
  (capabilities, s).

(** [Util::Config::addConnectorOptions(port, capabilities)]. *)
Definition addConnectorOptions (port : Z) (capabilities : Value) (s : State)
  : Value * State :=
  let option := EMPTY in
  let option := set_member "long" (STRING "port") option in
  let option := set_member "short" (STRING "p") option in
  let option := set_member "arg" (STRING "integer") option in
  let option := set_member "help" (STRING "TCP port to listen on") option in
  let option := at_member "value" (append (INTEGER port)) option in
  let s := addOption "listen_port" option s in
  let capabilities :=
    at_member "optional" (at_member "port"
      (set_member "name" (STRING "TCP port"))) capabilities in
  let capabilities :=
    at_member "optional" (at_member "port"
      (set_member "help" (STRING
        ("TCP port to listen on - default if unprovided is "
         ++ asString (fst (at_index 0 (member option "value")))))))
      capabilities in
  let capabilities :=
    at_member "optional" (at_member "port"
      (set_member "type" (STRING "uint"))) capabilities in
  let capabilities :=
    at_member "optional" (at_member "port"
      (set_member "option" (STRING "--port"))) capabilities in
  let capabilities :=
    at_member "optional" (at_member "port"
      (set_member "default" (fst (at_index 0 (member option "value")))))
      capabilities in
  let option := EMPTY in
  let option := set_member "long" (STRING "interface") option in
  let option := set_member "short" (STRING "i") option in
  let option := set_member "arg" (STRING "string") option in
  let option := set_member "help" (STRING
    "Interface address to listen on, or 0.0.0.0 for all available interfaces.")
    option in
  let option := at_member "value" (append (STRING "0.0.0.0")) option in
  let s := addOption "listen_interface" option s in
  let capabilities :=
    at_member "optional" (at_member "interface"
      (set_member "name" (STRING "Interface"))) capabilities in
  let capabilities :=
    at_member "optional" (at_member "interface"
      (set_member "help" (STRING
        "Address of the interface to listen on - default if unprovided is all interfaces")))
      capabilities in
  let capabilities :=
    at_member "optional" (at_member "interface"
      (set_member "option" (STRING "--interface"))) capabilities in
  let capabilities :=
    at_member "optional" (at_member "interface"
      (set_member "type" (STRING "str"))) capabilities in
  addBasicConnectorOptions capabilities s.

(** *** Vocabulary for the statements about [addOption] *)

(** The entry [addOption] leaves under the name it registers: [option]
    itself, or, when [option] has a "default" and no "value", [option] with
    the default moved into a one-element value list. *)
Definition registered_entry (option : Value) : Value :=
  if negb (isMember option "value") && isMember option "default"
  then removeMember "default"
         (at_member "value" (append (member option "default")) option)
  else option.

(** The keys of a [std::map] are distinct. *)
Fixpoint distinct (keys : list string) : bool :=
  match keys with
  | [] => true
  | k :: r => negb (existsb (String.eqb k) r) && distinct r
  end.

Definition keys_distinct (o : list (string * Value)) : bool :=
  distinct (map fst o).

(** *** Vocabulary for the statements about the [default:] branch *)

(** Whether the entry has the flag [key] ("short" or "short_off") and the
    text of the flag starts with the option character [opt]. *)
Definition short_is (key : string) (opt : Z) (entry : Value) : bool :=
  isMember entry key
  && (char_to_int (char_signed P) (char_at0 (asString (member entry key)))
      =? opt)%Z.

(** Whether the [default:] branch stores the option [opt] in the entry. *)
Definition takes_option (opt : Z) (entry : Value) : bool :=
  short_is "short" opt entry || short_is "short_off" opt entry.

(** What it appends to the entry's value list: the argument or 1 for the
    "short" flag, 0 for the "short_off" flag; [None] where the argument is
    to be stored and [optarg] is null. *)
Definition stored_value (opt : Z) (optarg : option string) (entry : Value)
  : option Value :=
  if short_is "short" opt entry
  then if isMember entry "arg" then option_map STRING optarg
       else Some (INTEGER 1)
  else Some (INTEGER 0).

(** The place, in registry order, of the first entry that takes [opt]. *)
Fixpoint first_with_option (opt : Z) (o : list (string * Value))
  : option nat :=
  match o with
  | [] => None
  | (_, entry) :: r =>
      if takes_option opt entry then Some O
      else option_map S (first_with_option opt r)
  end.

Definition first_takes (opt : Z) (o : list (string * Value)) (i : nat)
  : bool :=
  match first_with_option opt o with
  | Some j => Nat.eqb j i
  | None => false
  end.

(** *** Vocabulary for the statements about signals and [activate] *)

(** The signals on which [signal_handler] clears [is_active]. *)
Definition terminating (sig : Signal) : bool :=
  match sig with
  | SIGINT | SIGHUP | SIGTERM => true
  | _ => false
  end.

(** Whether the disposition of [sig] is [signal_handler]. *)
Definition handled (s : State) (sig : Signal) : bool :=
  match sigactions s sig with
  | signal_handler_installed => true
  | _ => false
  end.

(** Whether one of [signals] is a terminating signal that
    [signal_handler] gets to see. *)
Definition stops (s : State) (signals : list Signal) : bool :=
  existsb (fun sig => terminating sig && handled s sig) signals.

(** The user [activate] asks [setUser] to switch to: the current value of
    "username", if the option is registered and its value is not "root". *)
Definition drops_to (s : State) : option string :=
  if isMember (vals s) "username" then
    match value_of (getString "username" s) with
    | Some username =>
        if String.eqb username "root" then None else Some username
    | None => None
    end
  else None.

(** Whether "logfile" is registered with a non-empty current value. *)
Definition logfile_set (s : State) : bool :=
  isMember (vals s) "logfile"
  && match value_of (getString "logfile" s) with
     | Some logfile => negb (String.eqb logfile "")
     | None => false
     end.

(** The computation [c] leaves the observation [q] of the process as it
    finds it, however it ends. *)
Definition preserves {A B : Type} (q : State -> B) (c : Exec A) : Prop :=
  forall s : State, q (final (c s)) = q s.

(** *** Vocabulary for the usage line of [printHelp] *)

(** Strictly increasing keys, the order in which a [std::map] is iterated. *)
Fixpoint increasing (keys : list Z) : bool :=
  match keys with
  | a :: r =>
      match r with
      | b :: _ => (a <? b)%Z && increasing r
      | [] => true
      end
  | [] => true
  end.

(** [args.find(key)]: the name stored under [key], if any. *)
Fixpoint args_find (key : Z) (args : list (Z * string)) : option string :=
  match args with
  | [] => None
  | (k, n) :: r => if (k =? key)%Z then Some n else args_find key r
  end.

(** The name of the last entry, in registry order, that declares the
    positional index [k]. *)
Definition last_with_position (k : Z) (o : list (string * Value))
  : option string :=
  fold_left
    (fun found e => if takes_position k (snd e) then Some (fst e) else found)
    o None.

(** *** Vocabulary for the statements about the accept loops *)


Definition connections_dropped (calls : list SysCall) : list Z :=
  flat_map
    (fun c => match c with sys_drop_connection n => [n] | _ => [] end) calls.



(** *** Vocabulary for the statements about a failed start *)

(** From [s] to [s'] nothing happened but lookups of registered options
    and attempts to listen: the same names are registered, [long_count],
    [is_active], the debug level, the output and the signal dispositions
    are the same, and the calls made since are all [sys_listen]. *)
Definition only_listens (s s' : State) : Prop :=
  (forall name : string, isMember (vals s') name = isMember (vals s) name) /\
  long_count s' = long_count s /\
  is_active s' = is_active s /\
  printDebugLevel s' = printDebugLevel s /\
  cout s' = cout s /\
  sigactions s' = sigactions s /\
  exists listens : list SysCall,
    syscalls s' = (syscalls s ++ listens)%list /\
    Forall (fun c => exists e : Endpoint, c = sys_listen e) listens.

End Config.

(** *** [Util::getMyPath], the Linux branch *)

(** A [char] array read as a C string: the characters before the first
    NUL. *)
Fixpoint c_str (buf : string) : string :=
  match buf with
  | EmptyString => EmptyString
  | String c r =>
      if Ascii.eqb c Ascii.zero then EmptyString else String c (c_str r)
  end.

(** [s.rfind(c)]: the index of the last [c] in [s], [None] for [npos]. *)
Fixpoint rfind (c : ascii) (s : string) : option nat :=
  match s with
  | EmptyString => None
  | String x r =>
      match rfind c r with
      | Some i => Some (S i)
      | None => if Ascii.eqb x c then Some O else None
      end
  end.

Definition slash : ascii := ascii_of_nat 47.
Definition backslash : ascii := ascii_of_nat 92.

(** [Util::getMyPath()].  [readlink] is what
    [readlink("/proc/self/exe", mypath, 500)] does: [None] when it returns
    -1, otherwise the bytes it stores at the start of [mypath], whose number
    it returns.  With 500 bytes stored, [mypath[ret] = 0] writes beyond the
    array, which C++ leaves undefined: [None].  [tPath.resize(slash + 1)]
    keeps the first [slash + 1] characters. *)
Definition getMyPath (readlink : option string) : option string :=
  let mypath :=
    match readlink with
    | Some target =>
        if (String.length target <? 500)%nat then Some (c_str target)
        else None
    | None => Some ""
    end in
  match mypath with
  | None => None
  | Some tPath =>
      match rfind slash tPath with
      | Some slash => Some (substring 0 (slash + 1) tPath)
      | None =>
          match rfind backslash tPath with
          | Some slash => Some (substring 0 (slash + 1) tPath)
          | None => Some ""
          end
      end
  end.

(** A platform to run the model on: an x86 Linux build, where plain [char]
    is signed, with both kinds of listener available. *)
Definition linux_x86 : Platform :=
  {| char_signed := true;
     PACKAGE_VERSION := "2.0";
     DEBUG := 4;
     toString := fun _ => "";
     getTmpFolder := "/tmp/mist/";
     local_listens := fun _ => true;
     tcp_listens := fun _ _ => true;
     DLVL_DEVEL_shown := fun level => (5 <=? level)%Z |}.

(** *** Example schemas *)

(** A connector with the basic options and a "logfile" option that has no
    default, started with [-d] (100 is 'd'). *)
Definition daemon_with_logfile : State :=
  let s := Config linux_x86 "MistConnector" "1.0" in
  let s := snd (addBasicConnectorOptions EMPTY s) in
  let option := EMPTY in
  let option := set_member "long" (STRING "logfile") option in
  let option := set_member "short" (STRING "L") option in
  let option := set_member "arg" (STRING "string") option in
  let s := addOption "logfile" option s in
  final (parseArgs linux_x86 [(100%Z, None)] [] s).

(** The schema of the scenario of section 8: one option "count" with the
    positional index 1 and no preset value. *)
Definition count_option : Value :=
  let option := EMPTY in
  let option := set_member "arg" (STRING "integer") option in
  let option := set_member "arg_num" (INTEGER 1) option in
  set_member "help" (STRING "How many.") option.


(** The built-in options plus "count", without and with the preset. *)
Definition count_schema : State :=
  addOption "count" count_option (Config linux_x86 "app" "1.0").


(** The built-in options plus a positional argument whose name is longer
    than every flag text. *)
Definition output_schema : State :=
  let option := EMPTY in
  let option := set_member "arg" (STRING "string") option in
  let option := set_member "arg_num" (INTEGER 1) option in
  let option := set_member "help" (STRING "Where to write.") option in
  addOption "output_filename" option (Config linux_x86 "app" "1.0").

(** The built-in options plus an option "count" that can be given as a
    flag, [-c], and has the positional index 1, without a preset value. *)
Definition flagged_count_schema : State :=
  let option := EMPTY in
  let option := set_member "short" (STRING "c") option in
  let option := set_member "arg" (STRING "integer") option in
  let option := set_member "arg_num" (INTEGER 1) option in
  let option := set_member "help" (STRING "How many.") option in
  addOption "count" option (Config linux_x86 "app" "1.0").

(** A connector that advertises a local socket in its capabilities and
    adds the connector options with port 8080. *)
Definition connector_with_socket : State :=
  let s := Config linux_x86 "MistConnector" "1.0" in
  let capabilities := set_member "socket" (STRING "http_ts") EMPTY in
  snd (addConnectorOptions linux_x86 8080 capabilities s).

(** The same build on a host where no TCP listener can be opened (the
    port is taken), and a connector with the connector options for port
    8080 there. *)
Definition linux_x86_port_taken : Platform :=
  {| char_signed := true;
     PACKAGE_VERSION := "2.0";
     DEBUG := 4;
     toString := fun _ => "";
     getTmpFolder := "/tmp/mist/";
     local_listens := fun _ => true;
     tcp_listens := fun _ _ => false;
     DLVL_DEVEL_shown := fun level => (5 <=? level)%Z |}.

Definition connector_port_taken : State :=
  let s := Config linux_x86_port_taken "MistConnector" "1.0" in
  snd (addConnectorOptions linux_x86_port_taken 8080 EMPTY s).

End Util.

(* ===================================================================== *)
(** * Part II: properties                                                 *)
(* ===================================================================== *)

(** ** lib/json.h: the delta-vector codec *)
Module CodecProps.
Import Cxx JSON.

Lemma to_char_bits (z : Z) : char_bits (to_char z) = z mod 256.
Proof.
  unfold char_bits, to_char.
  assert (Hr : 0 <= z mod 256 < 256) by (apply Z.mod_pos_bound; lia).
  destruct (Byte.of_N (Z.to_N (z mod 256))) as [b|] eqn:E.
  - apply Byte.to_of_N in E. rewrite E. lia.
  - apply Byte.of_N_None_iff in E. lia.
Qed.

Lemma char_bits_xff : char_bits xff = 255.
Proof. reflexivity. Qed.

Lemma unsigned_char_to_int (z : Z) :
  char_to_int false (to_char z) = z mod 256.
Proof. unfold char_to_int. simpl. apply to_char_bits. Qed.

Lemma encodeVector_chunks_unfold (tmp : Z) :
  encodeVector_chunks tmp =
  if 65535 <=? tmp
  then xff :: xff :: encodeVector_chunks (tmp - 65535)
  else [to_char (Z.quot tmp 256); to_char (Z.rem tmp 256)].
Proof.
  rewrite encodeVector_chunks_equation_1.
  destruct (Z_le_gt_dec 65535 tmp) as [H|H]; simpl;
    destruct (65535 <=? tmp) eqn:E; try reflexivity; lia.
Qed.

Lemma encodeVector4_chunks_unfold (tmp : Z) :
  encodeVector4_chunks tmp =
  if 4294967295 <=? tmp
  then xff :: xff :: xff :: xff :: encodeVector4_chunks (tmp - 4294967295)
  else [to_char (Z.shiftr (Z.land tmp 4278190080) 24);
        to_char (Z.shiftr (Z.land tmp 16711680) 16);
        to_char (Z.shiftr (Z.land tmp 65280) 8);
        to_char (Z.land tmp 255)].
Proof.
  rewrite encodeVector4_chunks_equation_1.
  destruct (Z_le_gt_dec 4294967295 tmp) as [H|H]; simpl;
    destruct (4294967295 <=? tmp) eqn:E; try reflexivity; lia.
Qed.

Lemma to_uint_idem_l (a b : Z) : to_uint (to_uint a + b) = to_uint (a + b).
Proof. unfold to_uint. apply Zplus_mod_idemp_l. Qed.

Lemma to_uint_small (z : Z) : 0 <= z < 4294967296 -> to_uint z = z.
Proof. intros H. unfold to_uint. apply Z.mod_small. exact H. Qed.

(** *** The 2-byte width, bytes read as unsigned *)

Lemma curLen2_closing (x : Z) :
  0 <= x < 65535 ->
  curLen2 false (to_char (Z.quot x 256)) (to_char (Z.rem x 256)) = x.
Proof.
  intros Hx. unfold curLen2.
  rewrite !unsigned_char_to_int, Z.shiftl_mul_pow2 by lia.
  rewrite Z.quot_div_nonneg, Z.rem_mod_nonneg by lia.
  change (2 ^ 8) with 256.
  assert (Hq : 0 <= x / 256 < 256)
    by (split; [apply Z.div_pos; lia | apply Z.div_lt_upper_bound; lia]).
  rewrite (Z.mod_small (x / 256)) by lia.
  rewrite Z.mod_mod by lia.
  rewrite (Z.mul_comm (x / 256)), <- Z.div_mod by lia.
  apply to_uint_small. lia.
Qed.

Lemma decodeVector_chunks (x : Z) :
  0 <= x ->
  forall (rest : list byte) (tmp : Z),
    decodeVector_from false (encodeVector_chunks x ++ rest) tmp =
    to_uint (tmp + x) :: decodeVector_from false rest 0.
Proof.
  intros Hx. pattern x. apply Zlt_0_ind; [clear x Hx | exact Hx].
  intros x IH Hx rest tmp.
  rewrite encodeVector_chunks_unfold.
  destruct (65535 <=? x) eqn:E.
  - apply Z.leb_le in E.
    change ((xff :: xff :: encodeVector_chunks (x - 65535)) ++ rest)
      with (xff :: xff :: (encodeVector_chunks (x - 65535) ++ rest)).
    cbn [decodeVector_from].
    change (curLen2 false xff xff) with 65535. cbn [Z.eqb Pos.eqb].
    rewrite IH by lia. rewrite to_uint_idem_l. f_equal. f_equal. lia.
  - apply Z.leb_gt in E.
    cbn [app decodeVector_from].
    rewrite curLen2_closing by lia.
    destruct (x =? 65535) eqn:E2; [apply Z.eqb_eq in E2; lia | reflexivity].
Qed.

Lemma decodeVector_encodeVector (seq : list Z) :
  Forall (fun x => 0 <= x) seq ->
  decodeVector false (encodeVector seq) = map to_uint seq.
Proof.
  unfold decodeVector, encodeVector.
  induction 1 as [|x seq Hx _ IH]; [reflexivity |].
  cbn [flat_map map]. rewrite decodeVector_chunks by exact Hx.
  rewrite IH. reflexivity.
Qed.

(** *** The 4-byte width, bytes read as unsigned *)

Lemma byte_of_mask (x : Z) (k : Z) :
  0 <= k ->
  Z.shiftr (Z.land x (Z.shiftl 255 k)) k = (x / 2 ^ k) mod 256.
Proof.
  intros Hk.
  rewrite Z.shiftr_land, Z.shiftr_shiftl_l by lia.
  rewrite Z.sub_diag, Z.shiftl_0_r.
  change 255 with (Z.ones 8). rewrite Z.land_ones by lia.
  rewrite Z.shiftr_div_pow2 by lia. reflexivity.
Qed.

Lemma curLen4_closing (x : Z) :
  0 <= x < 4294967295 ->
  curLen4 false (to_char (Z.shiftr (Z.land x 4278190080) 24))
                (to_char (Z.shiftr (Z.land x 16711680) 16))
                (to_char (Z.shiftr (Z.land x 65280) 8))
                (to_char (Z.land x 255)) = x.
Proof.
  intros Hx. unfold curLen4.
  rewrite !unsigned_char_to_int, !Z.shiftl_mul_pow2 by lia.
  change 4278190080 with (Z.shiftl 255 24).
  change 16711680 with (Z.shiftl 255 16).
  change 65280 with (Z.shiftl 255 8).
  rewrite !byte_of_mask by lia.
  change 255 with (Z.ones 8). rewrite Z.land_ones by lia.
  rewrite !Z.mod_mod by lia.
  change (2 ^ 24) with 16777216. change (2 ^ 16) with 65536.
  change (2 ^ 8) with 256.
  rewrite to_uint_small.
  - Z.to_euclidean_division_equations. lia.
  - Z.to_euclidean_division_equations. lia.
Qed.

Lemma decodeVector4_chunks (x : Z) :
  0 <= x ->
  forall (rest : list byte) (tmp : Z),
    decodeVector4_from false (encodeVector4_chunks x ++ rest) tmp =
    option_map (cons (to_uint (tmp + x))) (decodeVector4_from false rest 0).
Proof.
  intros Hx. pattern x. apply Zlt_0_ind; [clear x Hx | exact Hx].
  intros x IH Hx rest tmp.
  rewrite encodeVector4_chunks_unfold.
  destruct (4294967295 <=? x) eqn:E.
  - apply Z.leb_le in E.
    change ((xff :: xff :: xff :: xff :: encodeVector4_chunks (x - 4294967295))
              ++ rest)
      with (xff :: xff :: xff :: xff
                :: (encodeVector4_chunks (x - 4294967295) ++ rest)).
    cbn [decodeVector4_from].
    change (curLen4 false xff xff xff xff) with 4294967295.
    cbn [Z.eqb Pos.eqb].
    rewrite IH by lia. rewrite to_uint_idem_l.
    replace (tmp + 4294967295 + (x - 4294967295)) with (tmp + x) by lia.
    reflexivity.
  - apply Z.leb_gt in E.
    cbn [app decodeVector4_from].
    rewrite curLen4_closing by lia.
    destruct (x =? 4294967295) eqn:E2; [apply Z.eqb_eq in E2; lia | reflexivity].
Qed.

Lemma decodeVector4_encodeVector4 (seq : list Z) :
  Forall (fun x => 0 <= x) seq ->
  decodeVector4 false (encodeVector4 seq) = Some (map to_uint seq).
Proof.
  unfold decodeVector4, encodeVector4.
  induction 1 as [|x seq Hx _ IH]; [reflexivity |].
  cbn [flat_map map]. rewrite decodeVector4_chunks by exact Hx.
  rewrite IH. reflexivity.
Qed.

Lemma map_to_uint_small (seq : list Z) :
  Forall (fun x => 0 <= x < 4294967296) seq -> map to_uint seq = seq.
Proof.
  induction 1 as [|x seq Hx _ IH]; [reflexivity |].
  cbn [map]. rewrite to_uint_small by exact Hx. rewrite IH. reflexivity.
Qed.

(** *** The 2-byte width, bytes read as signed *)

Lemma signed_char_to_int_low (z : Z) :
  0 <= z < 128 -> char_to_int true (to_char z) = z.
Proof.
  intros Hz. unfold char_to_int. rewrite to_char_bits.
  rewrite Z.mod_small by lia. cbn [andb].
  destruct (128 <=? z) eqn:E; [apply Z.leb_le in E; lia | reflexivity].
Qed.

(** Where plain [char] is signed, the elements that survive the 2-byte
    codec are those whose two bytes are both below 0x80. *)
Lemma decodeVector_signed_low_bytes (seq : list Z) :
  Forall (fun x => 0 <= x < 32768 /\ x mod 256 < 128) seq ->
  decodeVector true (encodeVector seq) = seq.
Proof.
  unfold decodeVector, encodeVector.
  induction 1 as [|x seq [Hx Hlo] _ IH]; [reflexivity |].
  cbn [flat_map]. rewrite encodeVector_chunks_unfold.
  destruct (65535 <=? x) eqn:E; [apply Z.leb_le in E; lia |].
  cbn [app decodeVector_from]. unfold curLen2.
  rewrite Z.quot_div_nonneg, Z.rem_mod_nonneg by lia.
  assert (Hq : 0 <= x / 256 < 128)
    by (split; [apply Z.div_pos; lia | apply Z.div_lt_upper_bound; lia]).
  pose proof (Z.mod_pos_bound x 256 ltac:(lia)) as Hm.
  rewrite !signed_char_to_int_low by lia.
  rewrite Z.shiftl_mul_pow2 by lia. change (2 ^ 8) with 256.
  rewrite (Z.mul_comm (x / 256)), <- Z.div_mod by lia.
  rewrite (to_uint_small x) by lia.
  destruct (x =? 65535) eqn:E2; [apply Z.eqb_eq in E2; lia |].
  rewrite (to_uint_small (0 + x)) by lia. rewrite IH. reflexivity.
Qed.

(** Where the round trip does hold: for every sequence of integers in the
    range of the decoders' 32-bit accumulator, 0 <= x < 2^32, and on a
    build where plain [char] is unsigned, decoding the encoding gives the
    sequence back, at the 2-byte and at the 4-byte width. *)
Lemma codec_roundtrip_uint32 (seq : list Z) :
  Forall (fun x => 0 <= x < 4294967296) seq ->
  decodeVector false (encodeVector seq) = seq /\
  decodeVector4 false (encodeVector4 seq) = Some seq.
Proof.
  intros Hseq.
  assert (Hpos : Forall (fun x => 0 <= x) seq)
    by (eapply Forall_impl; [| exact Hseq]; cbv beta; intros; lia).
  rewrite decodeVector_encodeVector, decodeVector4_encodeVector4 by exact Hpos.
  rewrite map_to_uint_small by exact Hseq. split; reflexivity.
Qed.

Lemma codec_roundtrip_uint32_witness :
  decodeVector false (encodeVector [0; 10; 65535; 70000; 131070]) =
    [0; 10; 65535; 70000; 131070] /\
  decodeVector4 false (encodeVector4 [0; 10; 65535; 70000; 131070]) =
    Some [0; 10; 65535; 70000; 131070].
Proof.
  apply (codec_roundtrip_uint32 [0; 10; 65535; 70000; 131070]).
  repeat constructor; lia.
Defined.

(** The element 2^32 does not survive the 4-byte codec whichever way plain
    [char] is signed (the accumulator wraps, or the escape chunk is not
    recognised), and with a signed [char] the element 128 does not survive
    the 2-byte codec. *)
Lemma codec_roundtrip_counterexample :
  decodeVector4 false (encodeVector4 [4294967296]) <> Some [4294967296] /\
  decodeVector4 true (encodeVector4 [4294967296]) <> Some [4294967296] /\
  decodeVector true (encodeVector [128]) <> [128].
Proof. repeat split; vm_compute; discriminate. Qed.

(** What the decoders return on those inputs. *)
Lemma decodeVector4_wraps :
  encodeVector4 [4294967296] = [xff; xff; xff; xff; x00; x00; x00; x01] /\
  decodeVector4 false (encodeVector4 [4294967296]) = Some [0] /\
  decodeVector4 true (encodeVector4 [4294967296]) = Some [4278124287; 1].
Proof. repeat split; vm_compute; reflexivity. Qed.

Lemma decodeVector_sign_extends :
  encodeVector [128] = [x00; x80] /\
  decodeVector true (encodeVector [128]) = [4294967168] /\
  encodeVector [65535] = [xff; xff; x00; x00] /\
  decodeVector true (encodeVector [65535]) = [4294967039; 0].
Proof. repeat split; vm_compute; reflexivity. Qed.

(** The concrete encodings of section 8 of the specification. *)
Lemma encodeVector_examples :
  encodeVector [65535] = [xff; xff; x00; x00] /\
  encodeVector [0; 10] = [x00; x00; x00; x0a].
Proof. split; vm_compute; reflexivity. Qed.

(** With unsigned bytes every non-negative element comes back reduced
    modulo 2^32, so an element of 2^32 or more never survives. *)
Lemma decodeVector_large (x : Z) :
  4294967296 <= x -> decodeVector false (encodeVector [x]) <> [x].
Proof.
  intros Hx. rewrite decodeVector_encodeVector by (repeat constructor; lia).
  cbn [map]. intros H. injection H as H.
  unfold to_uint in H.
  pose proof (Z.mod_pos_bound x 4294967296 ltac:(lia)). lia.
Qed.

End CodecProps.

(** ** lib/json.h: more about the codec *)
Module CodecMore.
Import Cxx JSON CodecProps.

(** *** Streams of encodings *)

Lemma decodeVector_stream (seq : list Z) :
  Forall (fun x => 0 <= x) seq ->
  forall input : list byte,
    decodeVector_from false (encodeVector seq ++ input) 0 =
    map to_uint seq ++ decodeVector_from false input 0.
Proof.
  unfold encodeVector.
  induction 1 as [|x seq Hx _ IH]; intros input; [reflexivity |].
  cbn [flat_map map]. rewrite <- app_assoc.
  rewrite decodeVector_chunks by exact Hx. rewrite IH. reflexivity.
Qed.

Lemma decodeVector4_stream (seq : list Z) :
  Forall (fun x => 0 <= x) seq ->
  forall input : list byte,
    decodeVector4_from false (encodeVector4 seq ++ input) 0 =
    option_map (app (map to_uint seq)) (decodeVector4_from false input 0).
Proof.
  unfold encodeVector4.
  induction 1 as [|x seq Hx _ IH]; intros input.
  - cbn [flat_map map app]. destruct (decodeVector4_from false input 0);
      reflexivity.
  - cbn [flat_map map]. rewrite <- app_assoc.
    rewrite decodeVector4_chunks by exact Hx. rewrite IH.
    destruct (decodeVector4_from false input 0); reflexivity.
Qed.

(** X1.  With bytes read as unsigned, an encoding followed by any further
    bytes decodes to the encoded elements, each reduced modulo 2^32,
    followed by what the further bytes decode to: encodings can be
    concatenated, and an element of 2^32 or more comes back wrapped. *)
Theorem decodeVector_of_concatenation (seq : list Z) (input : list byte) :
  Forall (fun x => 0 <= x) seq ->
  decodeVector false (encodeVector seq ++ input) =
    map to_uint seq ++ decodeVector false input /\
  decodeVector4 false (encodeVector4 seq ++ input) =
    option_map (app (map to_uint seq)) (decodeVector4 false input).
Proof.
  intros H. unfold decodeVector, decodeVector4. split.
  - apply decodeVector_stream. exact H.
  - apply decodeVector4_stream. exact H.
Qed.

Lemma decodeVector_of_concatenation_witness :
  decodeVector false (encodeVector [7; 4294967301; 70000] ++ [x01; x02]) =
    map to_uint [7; 4294967301; 70000] ++ decodeVector false [x01; x02] /\
  decodeVector4 false
    (encodeVector4 [7; 4294967301; 70000] ++ [x01; x02]) =
    option_map (app (map to_uint [7; 4294967301; 70000]))
      (decodeVector4 false [x01; x02]).
Proof.
  apply (decodeVector_of_concatenation [7; 4294967301; 70000] [x01; x02]).
  repeat constructor; lia.
Defined.

(** *** The size of an encoding *)

Lemma quotient_after_escape (m x : Z) :
  0 < m -> m <= x -> Z.to_nat (x / m) = S (Z.to_nat ((x - m) / m)).
Proof.
  intros Hm Hx.
  replace (x - m) with (x + (-1) * m) by ring.
  rewrite Z.div_add by lia.
  assert (1 <= x / m) by (apply Z.div_le_lower_bound; lia).
  lia.
Qed.

Lemma quotient_below (m x : Z) : 0 < m -> x < m -> Z.to_nat (x / m) = 0%nat.
Proof.
  intros Hm Hx.
  assert (x / m < 1) by (apply Z.div_lt_upper_bound; lia).
  lia.
Qed.

Lemma encodeVector_chunks_length (x : Z) :
  List.length (encodeVector_chunks x) = (2 * Z.to_nat (x / 65535) + 2)%nat.
Proof.
  destruct (Z_lt_le_dec x 0) as [Hneg | Hpos].
  - rewrite encodeVector_chunks_unfold.
    destruct (65535 <=? x) eqn:E; [apply Z.leb_le in E; lia |].
    rewrite quotient_below by lia. reflexivity.
  - pattern x. apply Zlt_0_ind; [clear x Hpos | exact Hpos].
    intros x IH _. rewrite encodeVector_chunks_unfold.
    destruct (65535 <=? x) eqn:E.
    + apply Z.leb_le in E. cbn [List.length]. rewrite IH by lia.
      rewrite (quotient_after_escape 65535 x) by lia. lia.
    + apply Z.leb_gt in E. rewrite quotient_below by lia. reflexivity.
Qed.

Lemma encodeVector4_chunks_length (x : Z) :
  List.length (encodeVector4_chunks x) = (4 * Z.to_nat (x / 4294967295) + 4)%nat.
Proof.
  destruct (Z_lt_le_dec x 0) as [Hneg | Hpos].
  - rewrite encodeVector4_chunks_unfold.
    destruct (4294967295 <=? x) eqn:E; [apply Z.leb_le in E; lia |].
    rewrite quotient_below by lia. reflexivity.
  - pattern x. apply Zlt_0_ind; [clear x Hpos | exact Hpos].
    intros x IH _. rewrite encodeVector4_chunks_unfold.
    destruct (4294967295 <=? x) eqn:E.
    + apply Z.leb_le in E. cbn [List.length]. rewrite IH by lia.
      rewrite (quotient_after_escape 4294967295 x) by lia. lia.
    + apply Z.leb_gt in E. rewrite quotient_below by lia. reflexivity.
Qed.

(** X2.  An element takes one closing chunk plus one escape chunk for every
    full 0xFFFF (0xFFFFFFFF at the 4-byte width) it holds: the encoding of a
    sequence has 2 (resp. 4) bytes per element plus 2 (resp. 4) per escape,
    and a negative element takes the closing chunk only. *)
Theorem encodeVector_size (seq : list Z) :
  List.length (encodeVector seq) =
    (2 * (List.length seq
          + list_sum (map (fun x => Z.to_nat (x / 65535)) seq)))%nat /\
  List.length (encodeVector4 seq) =
    (4 * (List.length seq
          + list_sum (map (fun x => Z.to_nat (x / 4294967295)) seq)))%nat.
Proof.
  unfold encodeVector, encodeVector4.
  induction seq as [|x seq [IH2 IH4]]; [split; reflexivity |].
  cbn [flat_map map list_sum List.length]. rewrite !length_app.
  rewrite IH2, IH4, encodeVector_chunks_length, encodeVector4_chunks_length.
  unfold list_sum. cbn [fold_right].
  fold (list_sum (map (fun x => Z.to_nat (x / 65535)) seq)).
  fold (list_sum (map (fun x => Z.to_nat (x / 4294967295)) seq)).
  generalize (Z.to_nat (x / 65535)), (Z.to_nat (x / 4294967295)).
  intros a b. split; lia.
Qed.

(** *** Input that is not an encoding *)

Lemma length_mod4_step (n : nat) : (S (S (S (S n))) mod 4 = n mod 4)%nat.
Proof.
  replace (S (S (S (S n)))) with (n + 1 * 4)%nat by lia.
  apply Nat.Div0.mod_add.
Qed.

Lemma decodeVector4_from_in_bounds (cs : bool) (n : nat) :
  forall (input : list byte) (tmp : Z),
    (List.length input <= n)%nat ->
    (decodeVector4_from cs input tmp = None <->
     (List.length input mod 4 = 1 \/ List.length input mod 4 = 2)%nat).
Proof.
  induction n as [|n IH]; intros input tmp Hlen.
  - destruct input; [| cbn in Hlen; lia].
    cbn. split; [discriminate | intros [H|H]; discriminate].
  - destruct input as [|b0 [|b1 [|b2 [|b3 rest]]]].
    + cbn. split; [discriminate | intros [H|H]; discriminate].
    + cbn. split; [left; reflexivity | reflexivity].
    + cbn. split; [right; reflexivity | reflexivity].
    + cbn [decodeVector4_from].
      destruct (curLen4 cs b0 b1 b2 x00 =? 4294967295);
        (split; [discriminate | cbn; intros [H|H]; discriminate]).
    + cbn [decodeVector4_from List.length]. rewrite length_mod4_step.
      cbn [List.length] in Hlen.
      destruct (curLen4 cs b0 b1 b2 b3 =? 4294967295).
      * apply IH. lia.
      * rewrite <- (IH rest 0) by lia.
        destruct (decodeVector4_from cs rest 0); cbn [option_map];
          split; intros H; try discriminate; reflexivity.
Qed.

Lemma encodeVector4_length_mod4 (seq : list Z) :
  (List.length (encodeVector4 seq) mod 4 = 0)%nat.
Proof.
  unfold encodeVector4. induction seq as [|x seq IH]; [reflexivity |].
  cbn [flat_map]. rewrite length_app, encodeVector4_chunks_length.
  rewrite Nat.Div0.add_mod, IH.
  replace (4 * Z.to_nat (x / 4294967295) + 4)%nat
    with (0 + (Z.to_nat (x / 4294967295) + 1) * 4)%nat by lia.
  rewrite Nat.Div0.mod_add. reflexivity.
Qed.

(** X3.  [decodeVector4] reads beyond the end of its input exactly when the
    length of the input leaves the remainder 1 or 2 on division by 4,
    however plain [char] is signed; on what [encodeVector4] produces it
    never does. *)
Theorem decodeVector4_in_bounds (char_signed : bool) (input : list byte)
  (seq : list Z) :
  (decodeVector4 char_signed input = None <->
   (List.length input mod 4 = 1 \/ List.length input mod 4 = 2)%nat) /\
  decodeVector4 char_signed (encodeVector4 seq) <> None.
Proof.
  unfold decodeVector4. split.
  - apply (decodeVector4_from_in_bounds char_signed (List.length input)). lia.
  - intros H.
    apply (decodeVector4_from_in_bounds char_signed
             (List.length (encodeVector4 seq))) in H; [| lia].
    rewrite encodeVector4_length_mod4 in H. destruct H; discriminate.
Qed.

Lemma decodeVector_from_trailing_escape (n : nat) :
  forall (input : list byte) (tmp : Z),
    List.length input = (2 * n)%nat ->
    decodeVector_from false (input ++ [xff; xff]) tmp =
    decodeVector_from false input tmp.
Proof.
  induction n as [|n IH]; intros input tmp Hlen.
  - destruct input; [| cbn in Hlen; lia].
    cbn [app decodeVector_from].
    change (curLen2 false xff xff) with 65535. reflexivity.
  - destruct input as [|b0 [|b1 rest]]; cbn [List.length] in Hlen; try lia.
    change ((b0 :: b1 :: rest) ++ [xff; xff])
      with (b0 :: b1 :: (rest ++ [xff; xff])).
    cbn [decodeVector_from]. rewrite !IH by lia. reflexivity.
Qed.

Lemma curLen2_lone (cs : bool) (b : byte) :
  (curLen2 cs b x00 =? 65535) = false.
Proof. destruct cs, b; vm_compute; reflexivity. Qed.

Lemma decodeVector_from_lone_byte (cs : bool) (b : byte) (n : nat) :
  forall (input : list byte) (tmp : Z),
    List.length input = (2 * n)%nat ->
    exists last : Z,
      decodeVector_from cs (input ++ [b]) tmp =
      decodeVector_from cs input tmp ++ [last].
Proof.
  induction n as [|n IH]; intros input tmp Hlen.
  - destruct input; [| cbn in Hlen; lia].
    cbn [app decodeVector_from]. rewrite curLen2_lone.
    eexists. reflexivity.
  - destruct input as [|b0 [|b1 rest]]; cbn [List.length] in Hlen; try lia.
    change ((b0 :: b1 :: rest) ++ [b]) with (b0 :: b1 :: (rest ++ [b])).
    cbn [decodeVector_from].
    destruct (curLen2 cs b0 b1 =? 65535).
    + apply IH. lia.
    + destruct (IH rest 0 ltac:(lia)) as [last E]. rewrite E.
      exists last. reflexivity.
Qed.

(** X4.  After an input of even length, a trailing escape chunk FF FF (bytes
    read as unsigned) adds nothing to the result: the total it leaves is
    never flushed.  A lone trailing byte is not dropped: it is read with
    the terminator of the string as one more chunk, which is never the
    escape, so the result gets one more element, however plain [char] is
    signed. *)
Theorem decodeVector_trailing (char_signed : bool) (input : list byte)
  (b : byte) :
  Nat.even (List.length input) = true ->
  decodeVector false (input ++ [xff; xff]) = decodeVector false input /\
  exists last : Z,
    decodeVector char_signed (input ++ [b]) =
    decodeVector char_signed input ++ [last].
Proof.
  intros Heven. apply Nat.even_spec in Heven. destruct Heven as [n Hn].
  unfold decodeVector. split.
  - apply (decodeVector_from_trailing_escape n). exact Hn.
  - apply (decodeVector_from_lone_byte char_signed b n). exact Hn.
Qed.

Lemma decodeVector_trailing_witness :
  decodeVector false ([x00; x05; xff; xff] ++ [xff; xff]) =
    decodeVector false [x00; x05; xff; xff] /\
  exists last : Z,
    decodeVector true ([x00; x05; xff; xff] ++ [x01]) =
    decodeVector true [x00; x05; xff; xff] ++ [last].
Proof.
  apply (decodeVector_trailing true [x00; x05; xff; xff] x01).
  reflexivity.
Defined.

(** *** The range of what is decoded *)

Lemma to_uint_range (z : Z) : 0 <= to_uint z < 4294967296.
Proof. unfold to_uint. apply Z.mod_pos_bound. lia. Qed.

Lemma decodeVector_from_range (cs : bool) (n : nat) :
  forall (input : list byte) (tmp : Z),
    (List.length input <= n)%nat ->
    Forall (fun x => 0 <= x < 4294967296) (decodeVector_from cs input tmp) /\
    (2 * List.length (decodeVector_from cs input tmp)
     <= List.length input + 1)%nat.
Proof.
  induction n as [|n IH]; intros input tmp Hlen.
  - destruct input; [| cbn in Hlen; lia]. cbn. split; [constructor | lia].
  - destruct input as [|b0 [|b1 rest]].
    + cbn. split; [constructor | lia].
    + cbn [decodeVector_from].
      destruct (curLen2 cs b0 x00 =? 65535); cbn [List.length].
      * split; [constructor | lia].
      * split; [repeat constructor; apply to_uint_range | lia].
    + cbn [decodeVector_from]. cbn [List.length] in Hlen.
      destruct (curLen2 cs b0 b1 =? 65535).
      * destruct (IH rest (to_uint (tmp + curLen2 cs b0 b1)) ltac:(lia))
          as [HF HL].
        split; [exact HF | cbn [List.length]; lia].
      * destruct (IH rest 0 ltac:(lia)) as [HF HL].
        split; [constructor; [apply to_uint_range | exact HF] |].
        cbn [List.length]. lia.
Qed.

Lemma decodeVector4_from_range (cs : bool) (n : nat) :
  forall (input : list byte) (tmp : Z) (l : list Z),
    (List.length input <= n)%nat ->
    decodeVector4_from cs input tmp = Some l ->
    Forall (fun x => 0 <= x < 4294967296) l /\
    (4 * List.length l <= List.length input + 1)%nat.
Proof.
  induction n as [|n IH]; intros input tmp l Hlen E.
  - destruct input; [| cbn in Hlen; lia]. cbn in E.
    injection E as <-. cbn. split; [constructor | lia].
  - destruct input as [|b0 [|b1 [|b2 [|b3 rest]]]]; try discriminate E.
    + cbn in E. injection E as <-. cbn. split; [constructor | lia].
    + cbn [decodeVector4_from] in E.
      destruct (curLen4 cs b0 b1 b2 x00 =? 4294967295);
        injection E as <-; cbn [List.length].
      * split; [constructor | lia].
      * split; [repeat constructor; apply to_uint_range | lia].
    + cbn [decodeVector4_from] in E. cbn [List.length] in Hlen.
      destruct (curLen4 cs b0 b1 b2 b3 =? 4294967295).
      * destruct (IH rest _ l ltac:(lia) E) as [HF HL].
        split; [exact HF | cbn [List.length]; lia].
      * destruct (decodeVector4_from cs rest 0) as [l'|] eqn:E';
          [| discriminate E].
        cbn [option_map] in E. injection E as <-.
        destruct (IH rest 0 l' ltac:(lia) E') as [HF HL].
        split; [constructor; [apply to_uint_range | exact HF] |].
        cbn [List.length]. lia.
Qed.

(** X5.  Whatever the input and however plain [char] is signed, every
    element the decoders produce is in the range of [unsigned int],
    0 <= x < 2^32, and there are at most as many elements as the input has
    chunks, a last incomplete chunk included. *)
Theorem decoded_elements_are_uint32 (char_signed : bool) (input : list byte) :
  (Forall (fun x => 0 <= x < 4294967296) (decodeVector char_signed input) /\
   (2 * List.length (decodeVector char_signed input)
    <= List.length input + 1)%nat) /\
  (forall l : list Z,
      decodeVector4 char_signed input = Some l ->
      Forall (fun x => 0 <= x < 4294967296) l /\
      (4 * List.length l <= List.length input + 1)%nat).
Proof.
  unfold decodeVector, decodeVector4. split.
  - apply (decodeVector_from_range char_signed (List.length input)). lia.
  - intros l.
    apply (decodeVector4_from_range char_signed (List.length input)). lia.
Qed.

(** X6.  The range of C1 is necessary: a sequence that comes back from
    either codec unchanged, however plain [char] is signed, has all its
    elements in 0 <= x < 2^32; no negative element and no element of 2^32
    or more survives. *)
Theorem roundtrip_needs_uint32 (char_signed : bool) (seq : list Z) :
  decodeVector char_signed (encodeVector seq) = seq \/
  decodeVector4 char_signed (encodeVector4 seq) = Some seq ->
  Forall (fun x => 0 <= x < 4294967296) seq.
Proof.
  intros [H | H].
  - rewrite <- H. unfold decodeVector.
    apply (decodeVector_from_range char_signed
             (List.length (encodeVector seq))). lia.
  - unfold decodeVector4 in H.
    apply (decodeVector4_from_range char_signed
             (List.length (encodeVector4 seq)) _ _ _ (Nat.le_refl _) H).
Qed.

Lemma roundtrip_needs_uint32_witness :
  Forall (fun x => 0 <= x < 4294967296) [1; 300; 70000].
Proof.
  apply (roundtrip_needs_uint32 true [1; 300; 70000]).
  right. vm_compute. reflexivity.
Defined.

(** *** Bytes below 0x80 *)

Lemma char_to_int_low (b : byte) :
  char_bits b < 128 -> char_to_int true b = char_to_int false b.
Proof.
  intros H. unfold char_to_int. cbn [andb].
  destruct (128 <=? char_bits b) eqn:E; [apply Z.leb_le in E; lia |].
  reflexivity.
Qed.

Lemma char_bits_x00 : char_bits x00 < 128.
Proof. reflexivity. Qed.

Lemma curLen2_low (b0 b1 : byte) :
  char_bits b0 < 128 -> char_bits b1 < 128 ->
  curLen2 true b0 b1 = curLen2 false b0 b1.
Proof.
  intros H0 H1. unfold curLen2. rewrite !char_to_int_low by assumption.
  reflexivity.
Qed.

Lemma curLen4_low (b0 b1 b2 b3 : byte) :
  char_bits b0 < 128 -> char_bits b1 < 128 ->
  char_bits b2 < 128 -> char_bits b3 < 128 ->
  curLen4 true b0 b1 b2 b3 = curLen4 false b0 b1 b2 b3.
Proof.
  intros H0 H1 H2 H3. unfold curLen4.
  rewrite !char_to_int_low by assumption. reflexivity.
Qed.

Lemma decodeVector_from_low (n : nat) :
  forall (input : list byte) (tmp : Z),
    (List.length input <= n)%nat ->
    Forall (fun b => char_bits b < 128) input ->
    decodeVector_from true input tmp = decodeVector_from false input tmp.
Proof.
  induction n as [|n IH]; intros input tmp Hlen Hlow.
  - destruct input; [reflexivity | cbn in Hlen; lia].
  - destruct input as [|b0 [|b1 rest]]; [reflexivity | |].
    + cbn [decodeVector_from].
      rewrite (curLen2_low b0 x00 (Forall_inv Hlow) char_bits_x00).
      reflexivity.
    + pose proof (Forall_inv Hlow) as H0.
      pose proof (Forall_inv (Forall_inv_tail Hlow)) as H1.
      pose proof (Forall_inv_tail (Forall_inv_tail Hlow)) as Hrest.
      cbn [List.length] in Hlen.
      cbn [decodeVector_from]. rewrite (curLen2_low b0 b1 H0 H1).
      rewrite !IH by (try lia; exact Hrest). reflexivity.
Qed.

Lemma decodeVector4_from_low (n : nat) :
  forall (input : list byte) (tmp : Z),
    (List.length input <= n)%nat ->
    Forall (fun b => char_bits b < 128) input ->
    decodeVector4_from true input tmp = decodeVector4_from false input tmp.
Proof.
  induction n as [|n IH]; intros input tmp Hlen Hlow.
  - destruct input; [reflexivity | cbn in Hlen; lia].
  - destruct input as [|b0 [|b1 [|b2 [|b3 rest]]]]; try reflexivity.
    + pose proof (Forall_inv Hlow) as H0.
      pose proof (Forall_inv (Forall_inv_tail Hlow)) as H1.
      pose proof (Forall_inv (Forall_inv_tail (Forall_inv_tail Hlow))) as H2.
      cbn [decodeVector4_from].
      rewrite (curLen4_low b0 b1 b2 x00 H0 H1 H2 char_bits_x00).
      reflexivity.
    + pose proof (Forall_inv Hlow) as H0.
      pose proof (Forall_inv (Forall_inv_tail Hlow)) as H1.
      pose proof (Forall_inv (Forall_inv_tail (Forall_inv_tail Hlow))) as H2.
      pose proof (Forall_inv
                    (Forall_inv_tail (Forall_inv_tail (Forall_inv_tail Hlow))))
        as H3.
      pose proof (Forall_inv_tail
                    (Forall_inv_tail (Forall_inv_tail (Forall_inv_tail Hlow))))
        as Hrest.
      cbn [List.length] in Hlen.
      cbn [decodeVector4_from]. rewrite (curLen4_low b0 b1 b2 b3 H0 H1 H2 H3).
      rewrite !IH by (try lia; exact Hrest). reflexivity.
Qed.

(** X7.  On an input whose bytes are all below 0x80 the decoders do not
    depend on whether plain [char] is signed: sign extension only touches
    bytes with the top bit set. *)
Theorem decoders_agree_below_0x80 (input : list byte) :
  Forall (fun b => char_bits b < 128) input ->
  decodeVector true input = decodeVector false input /\
  decodeVector4 true input = decodeVector4 false input.
Proof.
  intros Hlow. unfold decodeVector, decodeVector4. split.
  - apply (decodeVector_from_low (List.length input)); [lia | exact Hlow].
  - apply (decodeVector4_from_low (List.length input)); [lia | exact Hlow].
Qed.

Lemma decoders_agree_below_0x80_witness :
  decodeVector true [x01; x7f; x00; x12; x7f] =
    decodeVector false [x01; x7f; x00; x12; x7f] /\
  decodeVector4 true [x01; x7f; x00; x12; x7f] =
    decodeVector4 false [x01; x7f; x00; x12; x7f].
Proof.
  apply (decoders_agree_below_0x80 [x01; x7f; x00; x12; x7f]).
  repeat constructor.
Defined.

(** *** Where the round trip breaks *)

(** With a signed plain [char], an element below 0xFFFF whose low byte is
    0x80 or more never survives the 2-byte codec. *)
Lemma decodeVector_signed_high_byte (x : Z) :
  0 <= x < 65535 -> 128 <= x mod 256 ->
  decodeVector true (encodeVector [x]) <> [x].
Proof.
  intros Hx Hm. unfold encodeVector. cbn [flat_map].
  rewrite app_nil_r, encodeVector_chunks_unfold.
  destruct (65535 <=? x) eqn:E; [apply Z.leb_le in E; lia |].
  unfold decodeVector. cbn [decodeVector_from]. unfold curLen2.
  rewrite Z.quot_div_nonneg, Z.rem_mod_nonneg by lia.
  unfold char_to_int. rewrite !to_char_bits. cbn [andb].
  assert (Hq : 0 <= x / 256 < 256)
    by (split; [apply Z.div_pos; lia | apply Z.div_lt_upper_bound; lia]).
  rewrite (Z.mod_small (x / 256)) by exact Hq.
  rewrite Z.mod_mod by lia.
  destruct (128 <=? x mod 256) eqn:E1; [| apply Z.leb_gt in E1; lia].
  rewrite Z.shiftl_mul_pow2 by lia. change (2 ^ 8) with 256.
  pose proof (Z.div_mod x 256 ltac:(lia)) as Hdm.
  destruct (128 <=? x / 256);
    match goal with
    | |- context [if ?c then _ else _] => destruct c
    end; intros H; try discriminate; injection H as H;
    unfold to_uint in H;
    clear E E1; Z.div_mod_to_equations; lia.
Qed.

(** An element of 2^32 or more survives neither codec, however plain
    [char] is signed: the decoders only produce [unsigned int] values. *)
Lemma codec_loses_large (char_signed : bool) (x : Z) :
  4294967296 <= x ->
  decodeVector char_signed (encodeVector [x]) <> [x] /\
  decodeVector4 char_signed (encodeVector4 [x]) <> Some [x].
Proof.
  intros Hx. split; intros H.
  - assert (HF : Forall (fun y => 0 <= y < 4294967296) [x]).
    { rewrite <- H. unfold decodeVector.
      apply (decodeVector_from_range char_signed
               (List.length (encodeVector [x]))). lia. }
    apply Forall_inv in HF. lia.
  - unfold decodeVector4 in H.
    pose proof (decodeVector4_from_range char_signed
                  (List.length (encodeVector4 [x])) _ _ _ (Nat.le_refl _) H)
      as [HF _].
    apply Forall_inv in HF. lia.
Qed.

(** C1.  The round trip of the codec, on the code as it is.  It holds for
    sequences of values below 2^32 where plain [char] is unsigned, and
    breaks in two places.  Where plain [char] is signed, as on x86, the
    decoders sign-extend each byte of 0x80 or more: [128] is encoded as
    00 80 and decoded as [4294967168], and no element below 0xFFFF with a
    low byte of 0x80 or more comes back.  And the decoders accumulate in
    an [unsigned int] while the 4-byte encoder emits escape chunks for
    values of 2^32 and more: [4294967296] is encoded as FF FF FF FF
    00 00 00 01 and decoded as [0] (unsigned [char]) or as
    [4278124287; 1] (signed [char]), and no element of 2^32 or more comes
    back from either codec. *)
Theorem codec_roundtrip_broken :
  (forall seq : list Z,
      Forall (fun x => 0 <= x < 4294967296) seq ->
      decodeVector false (encodeVector seq) = seq /\
      decodeVector4 false (encodeVector4 seq) = Some seq) /\
  (encodeVector [128] = [x00; x80] /\
   decodeVector true (encodeVector [128]) = [4294967168]) /\
  (forall x : Z,
      0 <= x < 65535 -> 128 <= x mod 256 ->
      decodeVector true (encodeVector [x]) <> [x]) /\
  (encodeVector4 [4294967296] = [xff; xff; xff; xff; x00; x00; x00; x01] /\
   decodeVector4 false (encodeVector4 [4294967296]) = Some [0] /\
   decodeVector4 true (encodeVector4 [4294967296]) = Some [4278124287; 1]) /\
  (forall (char_signed : bool) (x : Z),
      4294967296 <= x ->
      decodeVector char_signed (encodeVector [x]) <> [x] /\
      decodeVector4 char_signed (encodeVector4 [x]) <> Some [x]).
Proof.
  split; [| split; [| split; [| split]]].
  - intros seq Hseq.
    assert (Hpos : Forall (fun x => 0 <= x) seq)
      by (eapply Forall_impl; [| exact Hseq]; cbv beta; intros; lia).
    rewrite decodeVector_encodeVector, decodeVector4_encodeVector4
      by exact Hpos.
    rewrite map_to_uint_small by exact Hseq. split; reflexivity.
  - split; vm_compute; reflexivity.
  - exact decodeVector_signed_high_byte.
  - repeat split; vm_compute; reflexivity.
  - exact codec_loses_large.
Qed.

End CodecMore.

(** ** Facts about the document type *)
Module ValueProps.
Import JSON.

Lemma find_member_update_same (name : string) (f : Value -> Value)
  (o : list (string * Value)) :
  find_member name (update_member name f o) =
  option_map f (find_member name o).
Proof.
  induction o as [|[k y] r IH]; [reflexivity |].
  cbn [update_member find_member].
  destruct (String.eqb k name) eqn:E.
  - cbn [find_member]. rewrite E. reflexivity.
  - cbn [find_member]. rewrite E. exact IH.
Qed.

Lemma find_member_update_other (name other : string) (f : Value -> Value)
  (o : list (string * Value)) :
  other <> name ->
  find_member other (update_member name f o) = find_member other o.
Proof.
  intros Hne. induction o as [|[k y] r IH]; [reflexivity |].
  cbn [update_member find_member].
  destruct (String.eqb k name) eqn:E.
  - apply String.eqb_eq in E. subst k. cbn [find_member].
    destruct (String.eqb name other) eqn:E2; [| reflexivity].
    apply String.eqb_eq in E2. congruence.
  - cbn [find_member]. destruct (String.eqb k other); [reflexivity | exact IH].
Qed.

Lemma find_member_insert_same (name : string) (x : Value)
  (o : list (string * Value)) :
  find_member name o = None ->
  find_member name (insert_member name x o) = Some x.
Proof.
  induction o as [|[k y] r IH]; intros Hnone.
  - cbn. rewrite String.eqb_refl. reflexivity.
  - cbn [find_member] in Hnone. cbn [insert_member].
    destruct (String.eqb k name) eqn:E; [discriminate |].
    destruct (String.ltb name k).
    + cbn [find_member]. rewrite String.eqb_refl. reflexivity.
    + cbn [find_member]. rewrite E. apply IH. exact Hnone.
Qed.

Lemma find_member_insert_other (name other : string) (x : Value)
  (o : list (string * Value)) :
  other <> name ->
  find_member other (insert_member name x o) = find_member other o.
Proof.
  intros Hne. induction o as [|[k y] r IH].
  - cbn. destruct (String.eqb name other) eqn:E; [| reflexivity].
    apply String.eqb_eq in E. congruence.
  - cbn [insert_member]. destruct (String.ltb name k).
    + cbn [find_member]. destruct (String.eqb name other) eqn:E; [| reflexivity].
      apply String.eqb_eq in E. congruence.
    + cbn [find_member]. destruct (String.eqb k other); [reflexivity | exact IH].
Qed.

Lemma find_member_filter_same (name : string) (o : list (string * Value)) :
  find_member name
    (filter (fun kx => negb (String.eqb (fst kx) name)) o) = None.
Proof.
  induction o as [|[k y] r IH]; [reflexivity |].
  cbn [filter fst]. destruct (String.eqb k name) eqn:E; cbn [negb].
  - exact IH.
  - cbn [find_member]. rewrite E. exact IH.
Qed.

Lemma find_member_filter_other (name other : string)
  (o : list (string * Value)) :
  other <> name ->
  find_member other
    (filter (fun kx => negb (String.eqb (fst kx) name)) o) =
  find_member other o.
Proof.
  intros Hne. induction o as [|[k y] r IH]; [reflexivity |].
  cbn [filter fst]. destruct (String.eqb k name) eqn:E; cbn [negb].
  - apply String.eqb_eq in E. subst k. cbn [find_member].
    destruct (String.eqb name other) eqn:E2; [| exact IH].
    apply String.eqb_eq in E2. congruence.
  - cbn [find_member]. destruct (String.eqb k other); [reflexivity | exact IH].
Qed.

Lemma update_member_id (name : string) (f : Value -> Value)
  (o : list (string * Value)) (x : Value) :
  find_member name o = Some x -> f x = x -> update_member name f o = o.
Proof.
  induction o as [|[k y] r IH]; intros Hfind Hfx; [reflexivity |].
  cbn [find_member] in Hfind. cbn [update_member].
  destruct (String.eqb k name).
  - injection Hfind as ->. rewrite Hfx. reflexivity.
  - rewrite IH by assumption. reflexivity.
Qed.

(** *** [member] and [isMember] after the updates *)

Lemma find_member_at_member_same (name : string) (f : Value -> Value)
  (v : Value) :
  find_member name (members (at_member name f v)) = Some (f (member v name)).
Proof.
  unfold at_member, member.
  destruct (find_member name (members v)) as [x|] eqn:E; cbn [members].
  - rewrite find_member_update_same, E. reflexivity.
  - apply find_member_insert_same. exact E.
Qed.

Lemma find_member_at_member_other (name other : string)
  (f : Value -> Value) (v : Value) :
  other <> name ->
  find_member other (members (at_member name f v)) =
  find_member other (members v).
Proof.
  intros Hne. unfold at_member.
  destruct (find_member name (members v)); cbn [members].
  - apply find_member_update_other. exact Hne.
  - apply find_member_insert_other. exact Hne.
Qed.

Lemma member_at_member_same (name : string) (f : Value -> Value) (v : Value) :
  member (at_member name f v) name = f (member v name).
Proof.
  unfold member at 1. rewrite find_member_at_member_same. reflexivity.
Qed.

Lemma member_at_member_other (name other : string) (f : Value -> Value)
  (v : Value) :
  other <> name -> member (at_member name f v) other = member v other.
Proof.
  intros Hne. unfold member.
  rewrite find_member_at_member_other by exact Hne. reflexivity.
Qed.

Lemma isMember_at_member_same (name : string) (f : Value -> Value)
  (v : Value) :
  isMember (at_member name f v) name = true.
Proof.
  unfold isMember. rewrite find_member_at_member_same. reflexivity.
Qed.

Lemma isMember_at_member_other (name other : string) (f : Value -> Value)
  (v : Value) :
  other <> name -> isMember (at_member name f v) other = isMember v other.
Proof.
  intros Hne. unfold isMember.
  rewrite find_member_at_member_other by exact Hne. reflexivity.
Qed.

Lemma isMember_at_member (name other : string) (f : Value -> Value)
  (v : Value) :
  isMember (at_member name f v) other =
  (String.eqb other name || isMember v other)%bool.
Proof.
  destruct (String.eqb other name) eqn:E.
  - apply String.eqb_eq in E. subst other.
    apply isMember_at_member_same.
  - apply String.eqb_neq in E. apply isMember_at_member_other. exact E.
Qed.

Lemma isMember_removeMember_same (name : string) (v : Value) :
  isMember (removeMember name v) name = false.
Proof.
  unfold isMember. destruct v; try reflexivity.
  cbn [removeMember members]. rewrite find_member_filter_same. reflexivity.
Qed.

Lemma find_member_removeMember_other (name other : string) (v : Value) :
  other <> name ->
  find_member other (members (removeMember name v)) =
  find_member other (members v).
Proof.
  intros Hne. destruct v; try reflexivity.
  cbn [removeMember members]. apply find_member_filter_other. exact Hne.
Qed.

Lemma isMember_removeMember_other (name other : string) (v : Value) :
  other <> name -> isMember (removeMember name v) other = isMember v other.
Proof.
  intros Hne. unfold isMember.
  rewrite find_member_removeMember_other by exact Hne. reflexivity.
Qed.

Lemma member_removeMember_other (name other : string) (v : Value) :
  other <> name -> member (removeMember name v) other = member v other.
Proof.
  intros Hne. unfold member.
  rewrite find_member_removeMember_other by exact Hne. reflexivity.
Qed.

Lemma isMember_member_EMPTY (v : Value) (name : string) :
  isMember v name = false -> member v name = EMPTY.
Proof.
  unfold isMember, member.
  destruct (find_member name (members v)); [discriminate | reflexivity].
Qed.

(** An update that leaves the entry as it is leaves the object as it is. *)
Lemma at_member_id (name : string) (f : Value -> Value) (v : Value) :
  isMember v name = true -> f (member v name) = member v name ->
  at_member name f v = OBJECT (members v).
Proof.
  unfold isMember, member, at_member.
  destruct (find_member name (members v)) as [x|] eqn:E; [| discriminate].
  intros _ Hf. rewrite (update_member_id name f (members v) x E Hf).
  reflexivity.
Qed.

Lemma isMember_OBJECT_members (v : Value) (name : string) :
  isMember v name = true -> OBJECT (members v) = v.
Proof.
  destruct v; cbn; try discriminate. reflexivity.
Qed.

Lemma isArray_ARRAY_elements (v : Value) :
  isArray v = true -> ARRAY (elements v) = v.
Proof. destruct v; cbn; try discriminate. reflexivity. Qed.

End ValueProps.

(** ** lib/config.cpp: option lookup *)
Module ConfigProps.
Import Cxx JSON Util ValueProps.
Local Open Scope string_scope.

Section WithPlatform.
Variable P : Platform.

Lemma getOption_unregistered (s : State) (optname : string) (asArray : bool) :
  isMember (vals s) optname = false ->
  getOption optname asArray s =
  Exited 37
    (print ("Fatal error: a non-existent option '" ++ optname
            ++ "' was accessed." ++ endl) s).
Proof. intros H. unfold getOption. rewrite H. reflexivity. Qed.

(** On a registered name [getOption] returns, and changes nothing but
    [vals]. *)
Lemma getOption_registered (s : State) (optname : string) (asArray : bool) :
  isMember (vals s) optname = true ->
  exists (v : Value) (vals' : Value),
    getOption optname asArray s = Returned v (set_vals vals' s).
Proof.
  intros H. unfold getOption. rewrite H. cbn [negb].
  destruct asArray.
  - eexists. eexists. reflexivity.
  - destruct (at_index _ _) as [element value].
    eexists. eexists. unfold set_vals. cbn. reflexivity.
Qed.

(** C4.  [getOption], and with it [getString], [getInteger] and [getBool],
    exits the process with status 37 on every name that is not registered
    in the schema, and returns to its caller on every registered name. *)
Theorem getOption_exits_37_iff_unregistered
  (s : State) (optname : string) (asArray : bool) :
  let registered := isMember (vals s) optname in
  let status := if registered then None else Some 37%Z in
  (exit_code (getOption optname asArray s) = status /\
   returned (getOption optname asArray s) = registered) /\
  (exit_code (getString P optname s) = status /\
   returned (getString P optname s) = registered) /\
  (exit_code (getInteger optname s) = status /\
   returned (getInteger optname s) = registered) /\
  (exit_code (getBool optname s) = status /\
   returned (getBool optname s) = registered).
Proof.
  cbv zeta. unfold getString, getInteger, getBool, bind, ret.
  destruct (isMember (vals s) optname) eqn:H.
  - destruct (getOption_registered s optname asArray H) as (v & w & E).
    destruct (getOption_registered s optname false H) as (v' & w' & E').
    rewrite E, E'. cbn. repeat split; reflexivity.
  - rewrite !getOption_unregistered by exact H.
    cbn. repeat split; reflexivity.
Qed.

(** ** The accept loops *)

(** C9.  Entered with [is_active] false, [threadServer] and [forkServer]
    never run the loop body: no [accept] is made, the listener is closed
    and the function returns 0 at once, whatever the script of incoming
    connections and signals holds. *)
Theorem servers_return_when_inactive
  (script : list Round) (server_socket : Server) (s : State) :
  is_active s = false ->
  threadServer script server_socket s =
    Returned 0%Z (call sys_close_listener s) /\
  forkServer script server_socket s =
    Returned 0%Z (call sys_close_listener s).
Proof.
  intros H. destruct script; cbn [threadServer forkServer];
    rewrite H; cbn [andb]; split; reflexivity.
Qed.

(** ** The long-flag count *)

Lemma to_int_idem_add (a b : Z) : to_int (to_int a + b) = to_int (a + b).
Proof.
  unfold to_int. f_equal.
  replace ((a + 2147483648) mod 4294967296 - 2147483648 + b + 2147483648)%Z
    with ((a + 2147483648) mod 4294967296 + b)%Z by lia.
  rewrite Zplus_mod_idemp_l. f_equal. lia.
Qed.

Lemma to_int_small (z : Z) :
  (-2147483648 <= z < 2147483648)%Z -> to_int z = z.
Proof. intros H. unfold to_int. rewrite Z.mod_small; lia. Qed.

Lemma addOption_count_scan (o : list (string * Value)) (acc : Z) :
  forEachMember_list addOption_count o (to_int acc) =
  to_int (acc + long_flags_list o).
Proof.
  revert acc. induction o as [|[k v] r IH]; intros acc.
  - cbn. f_equal. lia.
  - cbn [forEachMember_list]. unfold addOption_count.
    unfold long_flags_list. cbn [filter snd].
    destruct (isMember v "long"), (isMember v "long_off");
      cbn [List.length];
      try rewrite (to_int_idem_add acc 1);
      try rewrite (to_int_idem_add (acc + 1) 1); rewrite IH;
      unfold long_flags_list; f_equal; lia.
Qed.

(** After an [addOption] the stored count is the number of long flags, as
    an [int]. *)
Lemma addOption_long_count (optname : string) (option : Value) (s : State) :
  long_count (addOption optname option s) =
  to_int (long_flags (vals (addOption optname option s))).
Proof.
  unfold addOption. cbn [long_count set_long_count vals set_vals].
  unfold forEachMember.
  change 0%Z with (to_int 0) at 1.
  rewrite addOption_count_scan. reflexivity.
Qed.

Lemma long_flags_bound (v : Value) :
  (0 <= long_flags v <= 2 * Z.of_nat (List.length (members v)))%Z.
Proof.
  unfold long_flags, long_flags_list.
  pose proof (filter_length_le (fun e => isMember (snd e) "long") (members v)).
  pose proof
    (filter_length_le (fun e => isMember (snd e) "long_off") (members v)).
  lia.
Qed.

(** With fewer than 2^30 registered options the [int] holds the count. *)
Lemma addOption_long_count_exact (optname : string) (option : Value)
  (s : State) :
  (Z.of_nat (List.length (members (vals (addOption optname option s))))
   < 1073741824)%Z ->
  long_count (addOption optname option s) =
  long_flags (vals (addOption optname option s)).
Proof.
  intros H. rewrite addOption_long_count. apply to_int_small.
  pose proof (long_flags_bound (vals (addOption optname option s))). lia.
Qed.

(** C8, at the input on which the code fails it.  The constructor
    [Config(cmd, version)] registers three options with a "long" flag
    (debug, help, version) and stores the count 2; [parseArgs] then sizes
    its table of long options for [long_count + 1 = 3] entries and fills in
    three, so that none is left for the terminating zero entry. *)
Theorem Config_long_count_off_by_one (cmd version : string) :
  long_count (Config P cmd version) = 2%Z /\
  long_flags (vals (Config P cmd version)) = 3%Z /\
  List.length
    (longOpts
       (forEachMember (parseArgs_collect P) (vals (Config P cmd version))
          {| shortopts := ""; longOpts := []; arg_count := 0 |})) = 3%nat.
Proof. repeat split; reflexivity. Qed.

(** ** What a lookup leaves of the schema *)

(** A lookup of a registered name returns, changes [vals] only, keeps the
    name registered and leaves every other entry as it was. *)
Lemma getOption_frame (s : State) (optname : string) (asArray : bool) :
  isMember (vals s) optname = true ->
  exists (v : Value) (vals' : Value),
    getOption optname asArray s = Returned v (set_vals vals' s) /\
    isMember vals' optname = true /\
    same_except [optname] (vals s) vals'.
Proof.
  intros H. unfold getOption. rewrite H. cbn [negb].
  set (vals1 :=
         if negb (isMember (member (vals s) optname) "value")
            || negb (isArray (member (member (vals s) optname) "value"))
         then at_member optname (at_member "value" (append EMPTY)) (vals s)
         else vals s).
  assert (H1 : isMember vals1 optname = true).
  { subst vals1. destruct (_ || _); [apply isMember_at_member_same | exact H]. }
  assert (F1 : same_except [optname] (vals s) vals1).
  { subst vals1. intros name Hn. destruct (_ || _); [| reflexivity].
    apply find_member_at_member_other. intros ->. apply Hn. left. reflexivity. }
  destruct asArray.
  - eexists. eexists. split; [reflexivity |]. split; assumption.
  - destruct (at_index _ _) as [element value].
    eexists. eexists. split; [unfold set_vals; cbn; reflexivity |]. split.
    + apply isMember_at_member_same.
    + intros name Hn. rewrite find_member_at_member_other.
      * apply F1. exact Hn.
      * intros ->. apply Hn. left. reflexivity.
Qed.

(** The value a lookup returns is decided by the entry looked up. *)
Lemma getOption_value_local (s1 s2 : State) (optname : string)
  (asArray : bool) :
  find_member optname (members (vals s1)) =
  find_member optname (members (vals s2)) ->
  value_of (getOption optname asArray s1) =
  value_of (getOption optname asArray s2).
Proof.
  intros Hf.
  assert (Hi : isMember (vals s1) optname = isMember (vals s2) optname)
    by (unfold isMember; rewrite Hf; reflexivity).
  assert (Hm : member (vals s1) optname = member (vals s2) optname)
    by (unfold member; rewrite Hf; reflexivity).
  unfold getOption. rewrite Hi, Hm.
  destruct (isMember (vals s2) optname); cbn [negb]; [| reflexivity].
  destruct (negb (isMember (member (vals s2) optname) "value")
            || negb (isArray (member (member (vals s2) optname) "value"))).
  - rewrite !member_at_member_same, ?Hm.
    destruct asArray; [reflexivity |].
    destruct (at_index _ _). reflexivity.
  - rewrite ?Hm. destruct asArray; [reflexivity |].
    destruct (at_index _ _). reflexivity.
Qed.

Lemma getString_frame (s : State) (optname : string) :
  isMember (vals s) optname = true ->
  exists (x : string) (vals' : Value),
    getString P optname s = Returned x (set_vals vals' s) /\
    isMember vals' optname = true /\
    same_except [optname] (vals s) vals'.
Proof.
  intros H. destruct (getOption_frame s optname false H) as (v & w & E & Hw).
  unfold getString, bind, ret. rewrite E. eexists. eexists.
  split; [reflexivity | exact Hw].
Qed.

Lemma getInteger_frame (s : State) (optname : string) :
  isMember (vals s) optname = true ->
  exists (x : Z) (vals' : Value),
    getInteger optname s = Returned x (set_vals vals' s) /\
    isMember vals' optname = true /\
    same_except [optname] (vals s) vals'.
Proof.
  intros H. destruct (getOption_frame s optname false H) as (v & w & E & Hw).
  unfold getInteger, bind, ret. rewrite E. eexists. eexists.
  split; [reflexivity | exact Hw].
Qed.

Lemma getBool_frame (s : State) (optname : string) :
  isMember (vals s) optname = true ->
  exists (x : bool) (vals' : Value),
    getBool optname s = Returned x (set_vals vals' s) /\
    isMember vals' optname = true /\
    same_except [optname] (vals s) vals'.
Proof.
  intros H. destruct (getOption_frame s optname false H) as (v & w & E & Hw).
  unfold getBool, bind, ret. rewrite E. eexists. eexists.
  split; [reflexivity | exact Hw].
Qed.

Lemma getString_value_local (s1 s2 : State) (optname : string) :
  find_member optname (members (vals s1)) =
  find_member optname (members (vals s2)) ->
  value_of (getString P optname s1) = value_of (getString P optname s2).
Proof.
  intros Hf. pose proof (getOption_value_local s1 s2 optname false Hf) as H.
  unfold getString, bind, ret.
  destruct (getOption optname false s1), (getOption optname false s2);
    cbn in H |- *; congruence.
Qed.

Lemma getInteger_value_local (s1 s2 : State) (optname : string) :
  find_member optname (members (vals s1)) =
  find_member optname (members (vals s2)) ->
  value_of (getInteger optname s1) = value_of (getInteger optname s2).
Proof.
  intros Hf. pose proof (getOption_value_local s1 s2 optname false Hf) as H.
  unfold getInteger, bind, ret.
  destruct (getOption optname false s1), (getOption optname false s2);
    cbn in H |- *; congruence.
Qed.

Lemma getBool_value_local (s1 s2 : State) (optname : string) :
  find_member optname (members (vals s1)) =
  find_member optname (members (vals s2)) ->
  value_of (getBool optname s1) = value_of (getBool optname s2).
Proof.
  intros Hf. pose proof (getOption_value_local s1 s2 optname false Hf) as H.
  unfold getBool, bind, ret.
  destruct (getOption optname false s1), (getOption optname false s2);
    cbn in H |- *; congruence.
Qed.

Lemma same_except_isMember (names : list string) (v v' : Value)
  (name : string) :
  same_except names v v' -> ~ In name names ->
  isMember v' name = isMember v name.
Proof. intros F Hn. unfold isMember. rewrite (F name Hn). reflexivity. Qed.

Lemma same_except_refl (names : list string) (v : Value) :
  same_except names v v.
Proof. intros name _. reflexivity. Qed.

Lemma same_except_trans (names : list string) (v1 v2 v3 : Value) :
  same_except names v1 v2 -> same_except names v2 v3 ->
  same_except names v1 v3.
Proof.
  intros F12 F23 name Hn. rewrite (F23 name Hn). apply F12. exact Hn.
Qed.

Lemma same_except_weaken (names names' : list string) (v v' : Value) :
  incl names names' -> same_except names v v' -> same_except names' v v'.
Proof.
  intros Hincl F name Hn. apply F. intros Hin. apply Hn, Hincl, Hin.
Qed.

Lemma same_except_removeMember (name : string) (v : Value) :
  same_except [name] v (removeMember name v).
Proof.
  intros other Hn. apply find_member_removeMember_other.
  intros ->. apply Hn. left. reflexivity.
Qed.

(** ** [activate] *)

Lemma setUser_vals (username : string) (s : State) :
  exists s', setUser username s = Returned tt s' /\ vals s' = vals s.
Proof.
  unfold setUser. destruct (negb (String.eqb username "root"));
    eexists; split; reflexivity.
Qed.

Lemma activate_username_effect (s : State) :
  exists s1,
    activate_username P s = Returned tt s1 /\
    isMember (vals s1) "username" = false /\
    same_except ["username"] (vals s) (vals s1).
Proof.
  unfold activate_username.
  destruct (isMember (vals s) "username") eqn:H.
  - destruct (getString_frame s "username" H) as (x & w & E & _ & F).
    unfold bind at 1. rewrite E.
    destruct (setUser_vals x (set_vals w s)) as (s' & E' & Hv).
    unfold bind at 1. rewrite E'. unfold modify.
    eexists. split; [reflexivity |]. cbn [vals set_vals]. rewrite Hv.
    cbn [vals set_vals]. split.
    + apply isMember_removeMember_same.
    + eapply same_except_trans; [exact F | apply same_except_removeMember].
  - eexists. split; [reflexivity |]. split; [exact H |].
    apply same_except_refl.
Qed.

Lemma daemonize_requested_registered (s : State) :
  daemonize_requested s = true -> isMember (vals s) "daemonize" = true.
Proof.
  unfold daemonize_requested, getBool, bind, getOption.
  destruct (isMember (vals s) "daemonize"); [reflexivity |].
  cbn. discriminate.
Qed.

Lemma activate_daemonize_effect (s : State) :
  exists s2,
    activate_daemonize P s = Returned tt s2 /\
    isMember (vals s2) "daemonize" =
      (isMember (vals s) "daemonize" && negb (daemonize_requested s)) /\
    same_except ["daemonize"; "logfile"] (vals s) (vals s2) /\
    isMember (vals s2) "logfile" = isMember (vals s) "logfile" /\
    (daemonize_requested s = false ->
     same_except ["daemonize"] (vals s) (vals s2)).
Proof.
  unfold activate_daemonize, daemonize_requested.
  destruct (isMember (vals s) "daemonize") eqn:H.
  - destruct (getBool_frame s "daemonize" H) as (d & w & E & Hw & F).
    unfold bind at 1. rewrite E. cbn [value_of andb].
    assert (Hlog : isMember w "logfile" = isMember (vals s) "logfile").
    { apply (same_except_isMember ["daemonize"]); [exact F |].
      cbn. intros [Heq | []]. discriminate. }
    destruct d; cbn [negb].
    + (* daemonizing *)
      assert (Hstep : exists s',
                 activate_background P (set_vals w s) = Returned tt s' /\
                 same_except ["logfile"] w (vals s') /\
                 isMember (vals s') "logfile" = isMember w "logfile").
      { unfold activate_background. cbn [vals set_vals].
        destruct (isMember w "logfile") eqn:HL.
        - destruct (getString_frame (set_vals w s) "logfile" HL)
            as (x & w' & E' & Hw' & F').
          unfold bind. rewrite E'. unfold Daemonize, modify.
          destruct (negb (String.eqb x "")); eexists;
            (split; [reflexivity | split; [exact F' | exact Hw']]).
        - unfold Daemonize, modify. eexists. split; [reflexivity |].
          split; [apply same_except_refl | exact HL]. }
      destruct Hstep as (s' & E' & F' & HL').
      unfold bind. rewrite E'. unfold modify.
      eexists. split; [reflexivity |]. cbn [vals set_vals].
      split; [apply isMember_removeMember_same |].
      assert (Fall : same_except ["daemonize"; "logfile"] (vals s)
                       (removeMember "daemonize" (vals s'))).
      { eapply same_except_trans.
        - eapply same_except_weaken; [| exact F].
          intros x [<- | []]. left. reflexivity.
        - eapply same_except_trans.
          + eapply same_except_weaken; [| exact F'].
            intros x [<- | []]. right. left. reflexivity.
          + eapply same_except_weaken; [| apply same_except_removeMember].
            intros x [<- | []]. left. reflexivity. }
      split; [exact Fall |]. split; [| discriminate].
      rewrite isMember_removeMember_other by discriminate.
      rewrite HL'. exact Hlog.
    + unfold ret. eexists. split; [reflexivity |]. cbn [vals set_vals].
      split; [exact Hw |]. split.
      * eapply same_except_weaken; [| exact F].
        intros x [<- | []]. left. reflexivity.
      * split; [exact Hlog | intros _; exact F].
  - unfold getBool, bind. rewrite getOption_unregistered by exact H.
    cbn [value_of andb]. eexists. split; [reflexivity |].
    split; [exact H |]. split; [apply same_except_refl |].
    split; [reflexivity | intros _; apply same_except_refl].
Qed.

Lemma activate_signals_vals (s : State) :
  exists s', activate_signals s = Returned tt s' /\ vals s' = vals s.
Proof.
  unfold activate_signals, bind, modify. cbn.
  destruct (sigactions s SIGCHLD); eexists; split; reflexivity.
Qed.

(** C10 (as amended).  [activate] returns with [is_active] true and
    without the "username" option; "daemonize" stays registered exactly
    when it was registered and its current value is not true; every entry
    other than "username", "daemonize" and "logfile" is unchanged;
    "logfile" stays registered if it was, and is itself unchanged when no
    daemonizing was requested. *)
Theorem activate_effect (s : State) :
  exists s',
    activate P s = Returned tt s' /\
    is_active s' = true /\
    isMember (vals s') "username" = false /\
    isMember (vals s') "daemonize" =
      (isMember (vals s) "daemonize" && negb (daemonize_requested s)) /\
    same_except ["username"; "daemonize"; "logfile"] (vals s) (vals s') /\
    isMember (vals s') "logfile" = isMember (vals s) "logfile" /\
    (daemonize_requested s = false ->
     same_except ["username"; "daemonize"] (vals s) (vals s')).
Proof.
  destruct (activate_username_effect s) as (s1 & E1 & U1 & F1).
  destruct (activate_daemonize_effect s1) as (s2 & E2 & D2 & F2 & L2 & N2).
  destruct (activate_signals_vals s2) as (s3 & E3 & V3).
  assert (Hd : find_member "daemonize" (members (vals s1)) =
               find_member "daemonize" (members (vals s))).
  { apply F1. cbn. intros [Heq | []]. discriminate. }
  assert (Hreq : daemonize_requested s1 = daemonize_requested s).
  { unfold daemonize_requested.
    rewrite (getBool_value_local s1 s "daemonize" Hd). reflexivity. }
  unfold activate, bind. rewrite E1, E2, E3. unfold modify.
  eexists. split; [reflexivity |]. cbn [is_active vals set_is_active].
  rewrite V3. split; [reflexivity |]. split.
  { rewrite (same_except_isMember _ _ _ "username" F2); [exact U1 |].
    cbn. intros [Heq | [Heq | []]]; discriminate. }
  split.
  { rewrite D2, Hreq. unfold isMember. rewrite Hd. reflexivity. }
  split.
  { eapply same_except_trans.
    - eapply same_except_weaken; [| exact F1].
      intros x [<- | []]. left. reflexivity.
    - eapply same_except_weaken; [| exact F2].
      intros x [<- | [<- | []]]; cbn; tauto. }
  split.
  { rewrite L2. apply (same_except_isMember ["username"]); [exact F1 |].
    cbn. intros [Heq | []]. discriminate. }
  intros Hno. rewrite <- Hreq in Hno.
  eapply same_except_trans.
  - eapply same_except_weaken; [| exact F1].
    intros x [<- | []]. left. reflexivity.
  - eapply same_except_weaken; [| exact (N2 Hno)].
    intros x [<- | []]. right. left. reflexivity.
Qed.

(** ** Listener resolution *)

Lemma resolve_local_effect (server_socket : Server) (s : State) :
  exists srv s1,
    resolve_local P server_socket s = Returned srv s1 /\
    same_except ["socket"] (vals s) (vals s1) /\
    (if isMember (vals s) "socket"
     then exists name,
         value_of (getString P "socket" s) = Some name /\
         srv = {| endpoint := LocalSocket (getTmpFolder P ++ name);
                  connected := local_listens P (getTmpFolder P ++ name) |}
     else srv = server_socket).
Proof.
  unfold resolve_local. destruct (isMember (vals s) "socket") eqn:H.
  - destruct (getString_frame s "socket" H) as (x & w & E & _ & F).
    unfold bind, modify, ret. rewrite E.
    eexists. eexists. split; [reflexivity |]. cbn [vals call set_vals].
    split; [exact F |]. exists x. split; reflexivity.
  - eexists. eexists. split; [reflexivity |].
    split; [apply same_except_refl | reflexivity].
Qed.

Lemma resolve_tcp_effect (server_socket : Server) (s : State) :
  exists srv s2,
    resolve_tcp P server_socket s = Returned srv s2 /\
    (if isMember (vals s) "listen_port"
        && isMember (vals s) "listen_interface"
     then exists port iface,
         value_of (getInteger "listen_port" s) = Some port /\
         value_of (getString P "listen_interface" s) = Some iface /\
         srv = {| endpoint := TcpSocket (to_int port) iface;
                  connected := tcp_listens P (to_int port) iface |}
     else srv = server_socket).
Proof.
  unfold resolve_tcp.
  destruct (isMember (vals s) "listen_port") eqn:Hp; cbn [andb];
    [| eexists; eexists; split; reflexivity].
  destruct (isMember (vals s) "listen_interface") eqn:Hi;
    [| eexists; eexists; split; reflexivity].
  destruct (getInteger_frame s "listen_port" Hp) as (port & w & E & _ & F).
  assert (Hi' : isMember (vals (set_vals w s)) "listen_interface" = true).
  { cbn [vals set_vals].
    rewrite (same_except_isMember ["listen_port"] (vals s) w); [exact Hi | exact F |].
    cbn. intros [Heq | []]. discriminate. }
  destruct (getString_frame (set_vals w s) "listen_interface" Hi')
    as (iface & w' & E' & _ & _).
  unfold bind, modify, ret. rewrite E, E'.
  eexists. eexists. split; [reflexivity |].
  exists port, iface. split; [reflexivity |].
  split; [| reflexivity].
  rewrite <- (getString_value_local (set_vals w s) s "listen_interface").
  - rewrite E'. reflexivity.
  - cbn [vals set_vals]. apply F. cbn. intros [Heq | []]. discriminate.
Qed.

(** C3 (as amended).  Listener resolution never exits.  When "listen_port"
    and "listen_interface" are both registered the listener is the TCP one,
    whether or not "socket" is registered as well; the local socket under
    the temporary folder is the listener only when "socket" is registered
    and the two TCP options are not both registered; otherwise there is no
    listener.  If the resulting listener is not connected, both
    [serveThreadedSocket] and [serveForkedSocket] return 1 to their
    caller; if it is, they activate and serve that listener. *)
Theorem listener_resolution (s : State) :
  exists srv s',
    resolve_listener P s = Returned srv s' /\
    (if isMember (vals s) "listen_port"
        && isMember (vals s) "listen_interface"
     then exists port iface,
         value_of (getInteger "listen_port" s) = Some port /\
         value_of (getString P "listen_interface" s) = Some iface /\
         srv = {| endpoint := TcpSocket (to_int port) iface;
                  connected := tcp_listens P (to_int port) iface |}
     else if isMember (vals s) "socket"
     then exists name,
         value_of (getString P "socket" s) = Some name /\
         srv = {| endpoint := LocalSocket (getTmpFolder P ++ name);
                  connected := local_listens P (getTmpFolder P ++ name) |}
     else srv = {| endpoint := NoEndpoint; connected := false |}) /\
    (connected srv = false ->
     forall script : list Round,
       serveThreadedSocket P script s = Returned 1%Z s' /\
       serveForkedSocket P script s = Returned 1%Z s') /\
    (connected srv = true ->
     forall script : list Round,
       serveThreadedSocket P script s =
         (debug_activating P ;;; activate P ;;; threadServer script srv) s' /\
       serveForkedSocket P script s =
         (debug_activating P ;;; activate P ;;; forkServer script srv) s').
Proof.
  destruct (resolve_local_effect
              {| endpoint := NoEndpoint; connected := false |} s)
    as (srv1 & s1 & E1 & F1 & L1).
  destruct (resolve_tcp_effect srv1 s1) as (srv & s2 & E2 & T2).
  assert (Hp : find_member "listen_port" (members (vals s1)) =
               find_member "listen_port" (members (vals s))).
  { apply F1. cbn. intros [Heq | []]. discriminate. }
  assert (Hi : find_member "listen_interface" (members (vals s1)) =
               find_member "listen_interface" (members (vals s))).
  { apply F1. cbn. intros [Heq | []]. discriminate. }
  assert (E : resolve_listener P s = Returned srv s2).
  { unfold resolve_listener, bind. rewrite E1. exact E2. }
  exists srv, s2. split; [exact E |]. split.
  - unfold isMember in T2 |- *. rewrite Hp, Hi in T2.
    rewrite (getInteger_value_local s1 s "listen_port" Hp) in T2.
    rewrite (getString_value_local s1 s "listen_interface" Hi) in T2.
    fold (isMember (vals s) "socket").
    destruct (match find_member "listen_port" (members (vals s)) with
              | Some _ => true | None => false end
              && match find_member "listen_interface" (members (vals s)) with
                 | Some _ => true | None => false end).
    + exact T2.
    + subst srv. exact L1.
  - assert (Ht : forall script : list Round,
               serveThreadedSocket P script s =
               (if negb (connected srv) then ret 1%Z
                else debug_activating P ;;; activate P ;;;
                     threadServer script srv) s2).
    { intros script. unfold serveThreadedSocket. unfold bind at 1.
      rewrite E. reflexivity. }
    assert (Hf : forall script : list Round,
               serveForkedSocket P script s =
               (if negb (connected srv) then ret 1%Z
                else debug_activating P ;;; activate P ;;;
                     forkServer script srv) s2).
    { intros script. unfold serveForkedSocket. unfold bind at 1.
      rewrite E. reflexivity. }
    split; intros Hc script; rewrite Ht, Hf, Hc; split; reflexivity.
Qed.

(** ** The positional loop of [parseArgs] *)






Lemma members_forEachMember_mut (f : string -> Value -> Value * bool)
  (v : Value) :
  members (forEachMember_mut f v) = forEachMember_mut_list f (members v).
Proof. destruct v; reflexivity. Qed.



(** ** The verdict of [parseArgs] *)

Lemma parseArgs_rest_counter (rest : list string) :
  forall (k0 : Z) (vals : Value),
    (0 <= k0)%Z -> (k0 + Z.of_nat (List.length rest) < 2147483648)%Z ->
    snd (parseArgs_rest rest k0 vals) = (k0 + Z.of_nat (List.length rest))%Z.
Proof.
  induction rest as [|t rest IH]; intros k0 vals Hk0 Hlen.
  - cbn. lia.
  - cbn [parseArgs_rest]. cbn [List.length] in Hlen |- *.
    rewrite to_int_small by lia. rewrite IH by lia. lia.
Qed.

Lemma parseArgs_collect_arg_count (n : string) (e : Value)
  (t : parseArgs_tables) :
  arg_count (fst (parseArgs_collect P n e t)) =
  (if needs_value e
   then if (asInt (member e "arg_num") >? arg_count t)%Z
        then to_int (asInt (member e "arg_num"))
        else arg_count t
   else arg_count t) /\
  snd (parseArgs_collect P n e t) = true.
Proof. split; reflexivity. Qed.

(** [arg_count], as the first loop of [parseArgs] computes it, is the
    highest positional index among the entries that need a value, as long
    as those indices fit an [int]. *)
Lemma arg_count_scan (o : list (string * Value)) :
  forall t : parseArgs_tables,
    (0 <= arg_count t)%Z ->
    Forall (fun e => needs_value (snd e) = true ->
                     (asInt (member (snd e) "arg_num") < 2147483648)%Z) o ->
    arg_count (forEachMember_list (parseArgs_collect P) o t) =
    Z.max (arg_count t)
      (fold_right Z.max 0%Z
         (map (fun e => asInt (member (snd e) "arg_num"))
            (filter (fun e => needs_value (snd e)) o))).
Proof.
  induction o as [|[n e] r IH]; intros t Ht Hfit.
  - cbn. lia.
  - inversion Hfit as [|? ? He Hr]; subst. cbn [snd] in He.
    cbn [forEachMember_list filter snd].
    destruct (parseArgs_collect_arg_count n e t) as [Ha Hc].
    destruct (parseArgs_collect P n e t) as [t' c]. cbn [fst snd] in Ha, Hc.
    subst c.
    assert (Ht' : (0 <= arg_count t')%Z /\
                  arg_count t' =
                  if needs_value e
                  then Z.max (arg_count t) (asInt (member e "arg_num"))
                  else arg_count t).
    { rewrite Ha. destruct (needs_value e); [| split; [exact Ht | reflexivity]].
      specialize (He eq_refl).
      destruct (asInt (member e "arg_num") >? arg_count t)%Z eqn:G.
      - apply Z.gtb_lt in G. rewrite to_int_small by lia. lia.
      - rewrite Z.gtb_ltb in G. apply Z.ltb_ge in G. lia. }
    destruct Ht' as [Hpos Hval].
    rewrite IH by assumption. rewrite Hval.
    destruct (needs_value e); cbn [map fold_right snd]; lia.
Qed.

Lemma highest_needed_nonneg (v : Value) : (0 <= highest_needed v)%Z.
Proof.
  unfold highest_needed.
  induction (map (fun e => asInt (member (snd e) "arg_num"))
               (filter (fun e => needs_value (snd e)) (members v)))
    as [|x l IH]; cbn; lia.
Qed.

Lemma arg_count_highest_needed (vals : Value) :
  positions_fit vals = true ->
  arg_count
    (forEachMember (parseArgs_collect P) vals
       {| shortopts := ""; longOpts := []; arg_count := 0 |}) =
  highest_needed vals.
Proof.
  intros Hfit.
  assert (Hfit' : Forall (fun e => needs_value (snd e) = true ->
                     (asInt (member (snd e) "arg_num") < 2147483648)%Z)
                    (members vals)).
  { apply Forall_forall. intros e He Hn.
    unfold positions_fit in Hfit.
    rewrite forallb_forall in Hfit. specialize (Hfit e He).
    rewrite Hn in Hfit. cbn [negb orb] in Hfit.
    apply Z.ltb_lt. exact Hfit. }
  clear Hfit. rename Hfit' into Hfit. unfold forEachMember.
  rewrite arg_count_scan; [| cbn; lia | exact Hfit].
  cbn [arg_count]. fold (highest_needed vals).
  pose proof (highest_needed_nonneg vals). lia.
Qed.

Lemma set_vals_same (s : State) : set_vals (vals s) s = s.
Proof. destruct s. reflexivity. Qed.

Lemma members_forEachMember_try
  (f : string -> Value -> option (Value * bool)) (v v' : Value) :
  forEachMember_try f v = Some v' ->
  forEachMember_try_list f (members v) = Some (members v').
Proof.
  destruct v; cbn [forEachMember_try members]; try (intros [= <-]; reflexivity).
  destruct (forEachMember_try_list f objVal) as [o'|]; cbn [option_map];
    [| discriminate].
  intros [= <-]. reflexivity.
Qed.

Lemma find_member_forEachMember_try_list
  (f : string -> Value -> option (Value * bool)) (name : string)
  (o : list (string * Value)) :
  forall o' : list (string * Value),
    forEachMember_try_list f o = Some o' ->
    (find_member name o' = None <-> find_member name o = None).
Proof.
  induction o as [|[k x] r IH]; intros o' H.
  - injection H as <-. reflexivity.
  - cbn [forEachMember_try_list] in H.
    destruct (f k x) as [[x' c]|]; [| discriminate].
    destruct c.
    + destruct (forEachMember_try_list f r) as [r'|]; [| discriminate].
      injection H as <-. cbn [find_member].
      destruct (String.eqb k name); [split; discriminate | apply IH].
      reflexivity.
    + injection H as <-. cbn [find_member].
      destruct (String.eqb k name); [split; discriminate | reflexivity].
Qed.

Lemma isMember_forEachMember_try
  (f : string -> Value -> option (Value * bool)) (v v' : Value)
  (name : string) :
  forEachMember_try f v = Some v' -> isMember v' name = isMember v name.
Proof.
  intros H. apply members_forEachMember_try in H.
  pose proof (find_member_forEachMember_try_list f name _ _ H) as [H1 H2].
  unfold isMember.
  destruct (find_member name (members v')) eqn:E',
           (find_member name (members v)) eqn:E; try reflexivity.
  - specialize (H2 eq_refl). discriminate.
  - specialize (H1 eq_refl). discriminate.
Qed.

Lemma isMember_store_options (opts : list (Z * option string)) :
  forall (v v' : Value) (name : string),
    store_options P opts v = Some v' -> isMember v' name = isMember v name.
Proof.
  induction opts as [|[opt optarg] opts IH]; intros v v' name H.
  - injection H as <-. reflexivity.
  - cbn [store_options] in H.
    destruct (forEachMember_try (parseArgs_store P opt optarg) v) as [v1|] eqn:E;
      [| discriminate].
    rewrite (IH _ _ _ H). apply (isMember_forEachMember_try _ _ _ _ E).
Qed.

(** Options other than 'h', '?' and 'v' are stored, and nothing else
    happens, unless storing one of them throws. *)
Lemma parseArgs_options_ordinary (opts : list (Z * option string)) :
  forall (s : State) (v : Value),
    forallb ordinary (map fst opts) = true ->
    store_options P opts (vals s) = Some v ->
    parseArgs_options P opts s = Returned tt (set_vals v s).
Proof.
  induction opts as [|[opt optarg] opts IH]; intros s v Hord Hst.
  - injection Hst as <-. cbn. rewrite set_vals_same. reflexivity.
  - cbn [map fst forallb] in Hord. apply andb_prop in Hord as [Ho Hord].
    unfold ordinary in Ho. apply negb_true_iff in Ho.
    apply orb_false_elim in Ho as [Ho Hv].
    cbn [store_options] in Hst.
    destruct (forEachMember_try (parseArgs_store P opt optarg) (vals s))
      as [v1|] eqn:E; [| discriminate].
    cbn [parseArgs_options]. rewrite Ho, Hv.
    unfold bind, parseArgs_default. rewrite E.
    rewrite (IH (set_vals v1 s) v Hord Hst). reflexivity.
Qed.

Lemma parseArgs_options_throws (opts : list (Z * option string)) :
  forall s : State,
    forallb ordinary (map fst opts) = true ->
    store_options P opts (vals s) = None ->
    exists s' : State, parseArgs_options P opts s = Aborted s'.
Proof.
  induction opts as [|[opt optarg] opts IH]; intros s Hord Hst.
  - discriminate.
  - cbn [map fst forallb] in Hord. apply andb_prop in Hord as [Ho Hord].
    unfold ordinary in Ho. apply negb_true_iff in Ho.
    apply orb_false_elim in Ho as [Ho Hv].
    cbn [store_options] in Hst.
    cbn [parseArgs_options]. rewrite Ho, Hv.
    unfold bind, parseArgs_default.
    destruct (forEachMember_try (parseArgs_store P opt optarg) (vals s))
      as [v1|] eqn:E.
    + apply (IH (set_vals v1 s) Hord Hst).
    + eexists. reflexivity.
Qed.

(** C6 (as amended).  When [getopt_long] reports no help, version or
    unknown option and the options it reports are stored, [parseArgs]
    returns [false] to its caller exactly when fewer positional tokens are
    supplied than the highest positional index among the entries that need
    a value when [parseArgs] is called, before the options of the command
    line are stored: those with an index and no preset value then.  In the
    scenario of the specification, with the one extra option "count" of
    index 1 and no preset, the token "42" makes [parseArgs] return [true]
    and [getString("count")] be "42", and no token makes it return
    [false]. *)
Theorem parseArgs_false_iff_too_few_positionals
  (s : State) (opts : list (Z * option string)) (rest : list string)
  (cmd version : string) :
  forallb ordinary (map fst opts) = true ->
  store_options P opts (vals s) <> None ->
  positions_fit (vals s) = true ->
  (Z.of_nat (List.length rest) < 2147483647)%Z ->
  (value_of (parseArgs P opts rest s) = Some false <->
   (Z.of_nat (List.length rest) < highest_needed (vals s))%Z) /\
  (let schema := addOption "count" count_option (Config P cmd version) in
   value_of (parseArgs P [] ["42"] schema) = Some true /\
   value_of (getString P "count" (final (parseArgs P [] ["42"] schema))) =
     Some "42" /\
   value_of (parseArgs P [] [] schema) = Some false).
Proof.
  intros Hord Hst Hfit Hlen. split.
  - destruct (store_options P opts (vals s)) as [v1|] eqn:E;
      [| contradiction].
    unfold parseArgs, bind.
    rewrite (parseArgs_options_ordinary opts s v1 Hord E).
    rewrite arg_count_highest_needed by exact Hfit.
    cbn [vals set_vals].
    pose proof (parseArgs_rest_counter rest 1 v1 ltac:(lia) ltac:(lia)) as Hc.
    destruct (parseArgs_rest rest 1 v1) as [v long_i].
    cbn [snd] in Hc. subst long_i.
    destruct (1 + Z.of_nat (List.length rest) <=? highest_needed (vals s))%Z
      eqn:L.
    + apply Z.leb_le in L. cbn [value_of]. split; [lia | reflexivity].
    + apply Z.leb_gt in L. split; [| lia].
      destruct (getInteger "debug" _); cbn; discriminate.
  - cbv zeta. repeat split; vm_compute; reflexivity.
Qed.

(** ** Help and version *)

Lemma append_assoc (a b c : string) : (a ++ b) ++ c = a ++ (b ++ c).
Proof. induction a as [|x a IH]; cbn; [reflexivity | rewrite IH; reflexivity]. Qed.

Lemma isMember_forEachMember_mut (f : string -> Value -> Value * bool)
  (v : Value) (name : string) :
  isMember (forEachMember_mut f v) name = isMember v name.
Proof.
  unfold isMember. rewrite members_forEachMember_mut.
  induction (members v) as [|[k x] r IH]; [reflexivity |].
  cbn [forEachMember_mut_list]. destruct (f k x) as [x' c].
  destruct c; cbn [find_member]; destruct (String.eqb k name);
    try reflexivity.
  exact IH.
Qed.

(** With "cmd" registered [printHelp] returns, having written the usage
    line, an empty line and the help lines. *)
Lemma printHelp_output (s : State) :
  isMember (vals s) "cmd" = true ->
  exists (cmd : string) (vals' : Value),
    value_of (getString P "cmd" s) = Some cmd /\
    same_except ["cmd"] (vals s) vals' /\
    printHelp P s =
    Returned tt
      (print
         (write_lines
            (help_lines P
               (fst (forEachMember (printHelp_measure P) (vals s) (0%Z, [])))
               vals'))
         (print (endl ++ endl)
            (print
               (printHelp_usage vals'
                  (snd (forEachMember (printHelp_measure P) (vals s)
                          (0%Z, []))))
               (print (cmd ++ " [options]")
                  (set_vals vals' (print "Usage: " s)))))).
Proof.
  intros H. unfold printHelp.
  destruct (forEachMember (printHelp_measure P) (vals s) (0%Z, []))
    as [longest args].
  assert (H' : isMember (vals (print "Usage: " s)) "cmd" = true) by exact H.
  destruct (getString_frame (print "Usage: " s) "cmd" H')
    as (cmd & w & E & _ & F).
  exists cmd, w. split; [| split; [exact F |]].
  - rewrite (getString_value_local s (print "Usage: " s) "cmd" eq_refl).
    rewrite E. reflexivity.
  - unfold bind, modify. rewrite E. reflexivity.
Qed.

Lemma parseArgs_version_exits (A : Type) (s : State) :
  isMember (vals s) "version" = true ->
  exists (version : string),
    value_of (getString P "version" s) = Some version /\
    exit_code (@parseArgs_version P A s) = Some 1%Z /\
    cout (final (@parseArgs_version P A s)) =
    cout s ++ "Library version: " ++ PACKAGE_VERSION P ++ endl
    ++ "Application version: " ++ version ++ endl.
Proof.
  intros H.
  set (s' := print "Application version: "
               (print ("Library version: " ++ PACKAGE_VERSION P ++ endl) s)).
  assert (H' : isMember (vals s') "version" = true) by exact H.
  destruct (getString_frame s' "version" H') as (version & w & E & _ & _).
  exists version. split.
  - rewrite (getString_value_local s s' "version" eq_refl).
    rewrite E. reflexivity.
  - unfold parseArgs_version, bind, modify, exit. fold s'. rewrite E.
    split; [reflexivity |]. cbn [final cout print set_vals]. subst s'.
    cbn [cout print]. rewrite !append_assoc. reflexivity.
Qed.

Lemma parseArgs_stops (pre post : list (Z * option string)) (opt : Z)
  (optarg : option string) (rest : list string) (s : State) (v1 : Value) :
  forallb ordinary (map fst pre) = true ->
  store_options P pre (vals s) = Some v1 ->
  ordinary opt = false ->
  parseArgs P (pre ++ (opt, optarg) :: post) rest s =
  (if ((opt =? 104) || (opt =? 63))%Z
   then (printHelp P ;;; parseArgs_version P)
   else parseArgs_version P)
    (set_vals v1 s).
Proof.
  intros Hpre Hst Hopt.
  assert (Hloop : forall s0 : State,
             store_options P pre (vals s0) = Some v1 ->
             parseArgs_options P (pre ++ (opt, optarg) :: post) s0 =
             (if ((opt =? 104) || (opt =? 63))%Z
              then (printHelp P ;;; parseArgs_version P)
              else parseArgs_version P)
               (set_vals v1 s0)).
  { clear s Hst. induction pre as [|[o a] pre IH]; intros s0 Hst.
    - injection Hst as <-. cbn [app parseArgs_options].
      rewrite set_vals_same.
      unfold ordinary in Hopt. apply negb_false_iff in Hopt.
      destruct ((opt =? 104) || (opt =? 63))%Z; [reflexivity |].
      cbn [orb] in Hopt. rewrite Hopt. reflexivity.
    - cbn [map fst forallb] in Hpre. apply andb_prop in Hpre as [Ho Hpre].
      unfold ordinary in Ho. apply negb_true_iff in Ho.
      apply orb_false_elim in Ho as [Ho Hv].
      cbn [store_options] in Hst.
      destruct (forEachMember_try (parseArgs_store P o a) (vals s0))
        as [v0|] eqn:E; [| discriminate].
      cbn [app parseArgs_options]. rewrite Ho, Hv.
      unfold bind at 1, parseArgs_default. rewrite E.
      rewrite (IH Hpre (set_vals v0 s0) Hst). reflexivity. }
  unfold parseArgs. unfold bind at 1. rewrite (Hloop s Hst).
  destruct ((opt =? 104) || (opt =? 63))%Z.
  - unfold bind. destruct (printHelp P _) as [[] s1| | |]; [| reflexivity ..].
    unfold parseArgs_version, bind, modify, exit.
    destruct (getString P "version" _); reflexivity.
  - unfold parseArgs_version, bind, modify, exit.
    destruct (getString P "version" _); reflexivity.
Qed.

(** ** The alignment of the help lines *)

Lemma strsize_append (a b : string) :
  strsize (a ++ b) = (strsize a + strsize b)%Z.
Proof.
  unfold strsize. induction a as [|x a IH]; cbn [String.append String.length].
  - reflexivity.
  - rewrite !Nat2Z.inj_succ, IH. lia.
Qed.

Lemma strsize_nonneg (a : string) : (0 <= strsize a)%Z.
Proof. unfold strsize. lia. Qed.

Lemma append_spaces_size (n : nat) :
  forall f : string,
    strsize (append_spaces n f) = (strsize f + Z.of_nat n)%Z.
Proof.
  induction n as [|n IH]; intros f; cbn [append_spaces].
  - lia.
  - rewrite IH, strsize_append. change (strsize " ") with 1%Z. lia.
Qed.

(** Padding a text that is no longer than the column gives exactly the
    column. *)
Lemma pad_size (longest : Z) (f : string) :
  (strsize f <= longest)%Z -> strsize (pad longest f) = longest.
Proof. intros H. unfold pad. rewrite append_spaces_size. lia. Qed.

Lemma gtb_max (a b : Z) : (if (a >? b)%Z then a else b) = Z.max b a.
Proof.
  destruct (a >? b)%Z eqn:E.
  - apply Z.gtb_lt in E. lia.
  - rewrite Z.gtb_ltb in E. apply Z.ltb_ge in E. lia.
Qed.

Ltac sizes :=
  repeat rewrite strsize_append in *;
  change (strsize "--") with 2%Z in *;
  change (strsize ", -") with 3%Z in *;
  change (strsize "-") with 1%Z in *;
  change (strsize "") with 0%Z in *.

(** One round of the first loop of [printHelp]: [longest] grows to the
    widest text of the entry plus its margin. *)
Lemma printHelp_measure_entry (name : string) (val : Value) (longest : Z)
  (args : list (Z * string)) :
  (0 <= longest)%Z ->
  Forall (fun w => (w < 4294967296)%Z) (text_widths P 2 3 name val) ->
  fst (fst (printHelp_measure P name val (longest, args))) =
    Z.max longest (fold_right Z.max 0%Z (text_widths P 2 3 name val)) /\
  snd (printHelp_measure P name val (longest, args)) = true.
Proof.
  intros Hpos Hfit.
  pose proof (strsize_nonneg (asString (toString P) (member val "long"))).
  pose proof (strsize_nonneg (asString (toString P) (member val "short"))).
  pose proof (strsize_nonneg (asString (toString P) (member val "long_off"))).
  pose proof (strsize_nonneg (asString (toString P) (member val "short_off"))).
  pose proof (strsize_nonneg name).
  unfold printHelp_measure, text_widths, on_flag_text, off_flag_text in *.
  destruct (isMember val "long"), (isMember val "short"),
    (isMember val "long_off"), (isMember val "short_off"),
    (isMember val "arg_num");
    cbn [andb orb app fold_right fst snd] in *;
    sizes;
    repeat match goal with
      | H : Forall _ (_ :: _) |- _ =>
          let H' := fresh "Hw" in
          pose proof (Forall_inv H) as H'; cbv beta in H';
          apply Forall_inv_tail in H
      end;
    repeat match goal with
      | |- context [to_uint ?x] =>
          rewrite (CodecProps.to_uint_small x) by lia
      end;
    rewrite ?gtb_max; cbn [fst snd];
    (split; [lia | reflexivity]).
Qed.

Lemma fold_max_nonneg (l : list Z) : (0 <= fold_right Z.max 0 l)%Z.
Proof. induction l as [|x l IH]; cbn; lia. Qed.

Lemma fold_max_app (l1 l2 : list Z) :
  fold_right Z.max 0%Z (l1 ++ l2)%list =
  Z.max (fold_right Z.max 0%Z l1) (fold_right Z.max 0%Z l2).
Proof.
  induction l1 as [|x l1 IH]; cbn [app fold_right].
  - pose proof (fold_max_nonneg l2). lia.
  - rewrite IH. lia.
Qed.

Lemma fold_max_upper (l : list Z) (w : Z) :
  In w l -> (w <= fold_right Z.max 0 l)%Z.
Proof.
  induction l as [|x l IH]; cbn [In fold_right]; [tauto |].
  intros [-> | Hin]; [lia |]. specialize (IH Hin). lia.
Qed.

(** The first loop of [printHelp] computes the column. *)
Lemma alignment_scan (o : list (string * Value)) :
  forall (longest : Z) (args : list (Z * string)),
    (0 <= longest)%Z ->
    Forall (fun w => (w < 4294967296)%Z)
      (flat_map (fun e => text_widths P 2 3 (fst e) (snd e)) o) ->
    fst (forEachMember_list (printHelp_measure P) o (longest, args)) =
    Z.max longest
      (fold_right Z.max 0%Z
         (flat_map (fun e => text_widths P 2 3 (fst e) (snd e)) o)).
Proof.
  induction o as [|[n e] r IH]; intros longest args Hpos Hfit.
  - cbn. lia.
  - cbn [flat_map fst snd] in Hfit |- *.
    apply Forall_app in Hfit as [Hfit_e Hfit_r].
    destruct (printHelp_measure_entry n e longest args Hpos Hfit_e)
      as [Hl Hc].
    cbn [forEachMember_list].
    destruct (printHelp_measure P n e (longest, args)) as [[longest' args'] c].
    cbn [fst snd] in Hl, Hc. subst c.
    pose proof (fold_max_nonneg (text_widths P 2 3 n e)).
    rewrite IH by (try exact Hfit_r; lia).
    rewrite Hl, fold_max_app. lia.
Qed.

Lemma alignment_column (vals : Value) :
  fits P vals = true -> alignment P vals = column P vals.
Proof.
  intros Hfit.
  assert (Hfit' : Forall (fun w => (w < 4294967296)%Z)
                    (all_widths P 2 3 vals)).
  { apply Forall_forall. intros w Hw. unfold fits in Hfit.
    rewrite forallb_forall in Hfit. apply Z.ltb_lt, Hfit, Hw. }
  clear Hfit. rename Hfit' into Hfit.
  unfold alignment, column, forEachMember, all_widths in *.
  rewrite alignment_scan by (try exact Hfit; lia).
  pose proof (fold_max_nonneg
                (flat_map (fun e => text_widths P 2 3 (fst e) (snd e))
                   (members vals))).
  lia.
Qed.

(** Every line an entry writes starts with a text padded to the column, if
    the column is at least each of the entry's widths. *)
Lemma printHelp_lines_aligned (longest : Z) (name : string) (val : Value) :
  Forall (fun w => (w <= longest)%Z) (text_widths P 2 3 name val) ->
  Forall (fun line => strsize (fst line) = longest)
    (printHelp_lines P longest name val).
Proof.
  unfold text_widths, printHelp_lines. intros H.
  apply Forall_app in H as [Hon H]. apply Forall_app in H as [Hoff Hpos].
  apply Forall_app. split; [| apply Forall_app; split].
  - destruct (isMember val "long" || isMember val "short"); [| constructor].
    apply Forall_inv in Hon. constructor; [| constructor].
    cbn [fst]. apply pad_size. lia.
  - destruct (isMember val "long_off" || isMember val "short_off");
      [| constructor].
    apply Forall_inv in Hoff. constructor; [| constructor].
    cbn [fst]. apply pad_size. lia.
  - destruct (isMember val "arg_num"); [| constructor].
    apply Forall_inv in Hpos. constructor; [| constructor].
    cbn [fst]. apply pad_size. lia.
Qed.

Lemma help_lines_aligned (vals : Value) :
  Forall (fun line => strsize (fst line) = column P vals)
    (help_lines P (column P vals) vals).
Proof.
  unfold help_lines. apply Forall_flat_map. apply Forall_forall.
  intros [n e] Hin. cbn [fst snd].
  apply printHelp_lines_aligned. apply Forall_forall. intros w Hw.
  apply fold_max_upper. unfold all_widths. apply in_flat_map.
  exists (n, e). split; [exact Hin | exact Hw].
Qed.

(** *** Lookups do not move the column *)

Lemma members_at_member_registered (name : string) (f : Value -> Value)
  (v : Value) :
  isMember v name = true ->
  members (at_member name f v) = update_member name f (members v).
Proof.
  unfold isMember, at_member.
  destruct (find_member name (members v)); [reflexivity | discriminate].
Qed.

Lemma flat_map_update_member {B : Type} (h : string * Value -> list B)
  (name : string) (f : Value -> Value) (o : list (string * Value)) :
  (forall (k : string) (x : Value), h (k, f x) = h (k, x)) ->
  flat_map h (update_member name f o) = flat_map h o.
Proof.
  intros Hh. induction o as [|[k x] r IH]; [reflexivity |].
  cbn [update_member]. destruct (String.eqb k name); cbn [flat_map].
  - rewrite Hh. reflexivity.
  - rewrite IH. reflexivity.
Qed.

(** A lookup changes the schema, if at all, by updates of the "value"
    member of the entry looked up: whatever such updates do not change, the
    lookup does not change. *)
Lemma getOption_invariant {B : Type} (q : Value -> B) (s : State)
  (optname : string) (asArray : bool) :
  isMember (vals s) optname = true ->
  (forall (g : Value -> Value) (v : Value),
      isMember v optname = true ->
      q (at_member optname (at_member "value" g) v) = q v) ->
  q (vals (final (getOption optname asArray s))) = q (vals s).
Proof.
  intros H Hq. unfold getOption. rewrite H. cbn [negb].
  set (vals1 :=
         if negb (isMember (member (vals s) optname) "value")
            || negb (isArray (member (member (vals s) optname) "value"))
         then at_member optname (at_member "value" (append EMPTY)) (vals s)
         else vals s).
  assert (H1 : isMember vals1 optname = true /\ q vals1 = q (vals s)).
  { subst vals1. destruct (_ || _).
    - split; [apply isMember_at_member_same | apply Hq; exact H].
    - split; [exact H | reflexivity]. }
  destruct H1 as [H1 Q1].
  destruct asArray; [exact Q1 |].
  destruct (at_index _ _) as [element value].
  cbn [final vals set_vals]. unfold set_member.
  rewrite Hq by exact H1. exact Q1.
Qed.

Lemma getString_invariant {B : Type} (q : Value -> B) (s : State)
  (optname : string) :
  isMember (vals s) optname = true ->
  (forall (g : Value -> Value) (v : Value),
      isMember v optname = true ->
      q (at_member optname (at_member "value" g) v) = q v) ->
  q (vals (final (getString P optname s))) = q (vals s).
Proof.
  intros H Hq. rewrite <- (getOption_invariant q s optname false H Hq).
  unfold getString, bind, ret.
  destruct (getOption optname false s); reflexivity.
Qed.

Lemma text_widths_value (m1 m2 : Z) (name : string) (g : Value -> Value)
  (val : Value) :
  text_widths P m1 m2 name (at_member "value" g val) =
  text_widths P m1 m2 name val.
Proof.
  unfold text_widths, on_flag_text, off_flag_text.
  rewrite !isMember_at_member_other, !member_at_member_other by discriminate.
  reflexivity.
Qed.

Lemma printHelp_lines_value (longest : Z) (name : string)
  (g : Value -> Value) (val : Value) :
  printHelp_lines P longest name (at_member "value" g val) =
  printHelp_lines P longest name val.
Proof.
  unfold printHelp_lines, printHelp_description, on_flag_text, off_flag_text.
  rewrite !isMember_at_member_other, !member_at_member_other by discriminate.
  reflexivity.
Qed.

Lemma help_lines_value (longest : Z) (optname : string)
  (g : Value -> Value) (v : Value) :
  isMember v optname = true ->
  help_lines P longest (at_member optname (at_member "value" g) v) =
  help_lines P longest v.
Proof.
  intros H. unfold help_lines.
  rewrite members_at_member_registered by exact H.
  apply flat_map_update_member. intros k x. cbn [fst snd].
  apply printHelp_lines_value.
Qed.

(** C7 (as amended).  With "cmd" registered and texts short enough for
    [unsigned int], [printHelp] returns after writing a usage part and then
    the help lines of all options; every help line starts with its flag text
    or positional name padded with spaces to one and the same width, the
    column, which is the maximum over all options of the length of the "on"
    flag text plus 2, of the "off" flag text plus 2, and of the positional
    name plus 3.  What follows the padded text, the argument type in
    parentheses if any and the help text, starts at that column on every
    line. *)
Theorem help_lines_share_one_column (s : State) :
  isMember (vals s) "cmd" = true ->
  fits P (vals s) = true ->
  exists usage : string,
    returned (printHelp P s) = true /\
    cout (final (printHelp P s)) =
      cout s ++ usage
      ++ write_lines (help_lines P (column P (vals s)) (vals s)) /\
    alignment P (vals s) = column P (vals s) /\
    Forall (fun line => strsize (fst line) = column P (vals s))
      (help_lines P (column P (vals s)) (vals s)).
Proof.
  intros Hcmd Hfit.
  destruct (printHelp_output s Hcmd) as (cmd & w & Ev & F & E).
  assert (Hw : help_lines P (column P (vals s)) w =
               help_lines P (column P (vals s)) (vals s)).
  { pose proof (getString_invariant
                  (help_lines P (column P (vals s))) (print "Usage: " s) "cmd"
                  Hcmd
                  (fun g v Hv => help_lines_value _ "cmd" g v Hv)) as Hinv.
    unfold printHelp in E.
    destruct (forEachMember (printHelp_measure P) (vals s) (0%Z, []))
      as [longest args].
    unfold bind, modify in E.
    destruct (getString P "cmd" (print "Usage: " s)) as [x sx| | |];
      try discriminate.
    cbn [final] in Hinv. injection E as E. intros.
    rewrite <- E. exact Hinv. }
  exists ("Usage: " ++ (cmd ++ " [options]")
          ++ printHelp_usage w
               (snd (forEachMember (printHelp_measure P) (vals s) (0%Z, [])))
          ++ endl ++ endl).
  rewrite E. split; [reflexivity |]. split; [| split].
  - cbn [final cout print set_vals].
    fold (alignment P (vals s)). rewrite (alignment_column _ Hfit), Hw.
    rewrite !append_assoc. reflexivity.
  - apply alignment_column. exact Hfit.
  - apply help_lines_aligned.
Qed.

(** ** What the constructor and [addOption] keep registered *)

Lemma Config_registers (cmd version : string) :
  isMember (vals (Config P cmd version)) "cmd" = true /\
  isMember (vals (Config P cmd version)) "version" = true /\
  isMember (vals (Config P cmd version)) "help" = true /\
  isMember (vals (Config P cmd version)) "debug" = true.
Proof. repeat split; reflexivity. Qed.

Lemma addOption_keeps_registered (optname : string) (option : Value)
  (s : State) (name : string) :
  isMember (vals s) name = true ->
  isMember (vals (addOption optname option s)) name = true.
Proof.
  intros H. unfold addOption. cbn [vals set_vals set_long_count].
  assert (H1 : isMember (set_member optname option (vals s)) name = true).
  { unfold set_member. rewrite isMember_at_member, H.
    apply orb_true_r. }
  destruct (negb _ && _); [| exact H1].
  rewrite !isMember_at_member, H1, !orb_true_r. reflexivity.
Qed.

Lemma addOptions_keep_registered (calls : list (string * Value)) :
  forall (s : State) (name : string),
    isMember (vals s) name = true ->
    isMember (vals (addOptions calls s)) name = true.
Proof.
  unfold addOptions.
  induction calls as [|c calls IH]; intros s name H; [exact H |].
  cbn [fold_left]. apply IH. apply addOption_keeps_registered. exact H.
Qed.

(** After any sequence of [addOption] calls that is not empty, the stored
    count is the number of long flags (as an [int]). *)
Lemma addOptions_long_count (calls : list (string * Value)) (s : State) :
  calls <> [] ->
  long_count (addOptions calls s) =
  to_int (long_flags (vals (addOptions calls s))).
Proof.
  intros Hne. destruct (exists_last Hne) as (l & c & ->).
  unfold addOptions. rewrite fold_left_app. cbn [fold_left].
  apply addOption_long_count.
Qed.

(** ** Help and version, in full *)

Lemma printHelp_text (s : State) :
  isMember (vals s) "cmd" = true ->
  exists (cmd : string) (vals' : Value),
    value_of (getString P "cmd" s) = Some cmd /\
    same_except ["cmd"] (vals s) vals' /\
    printHelp P s =
    Returned tt
      (print
         (write_lines (help_lines P (alignment P (vals s)) (vals s)))
         (print (endl ++ endl)
            (print
               (printHelp_usage vals'
                  (snd (forEachMember (printHelp_measure P) (vals s)
                          (0%Z, []))))
               (print (cmd ++ " [options]")
                  (set_vals vals' (print "Usage: " s)))))).
Proof.
  intros H. unfold printHelp, alignment.
  destruct (forEachMember (printHelp_measure P) (vals s) (0%Z, []))
    as [longest args]. cbn [fst snd].
  assert (H' : isMember (vals (print "Usage: " s)) "cmd" = true) by exact H.
  destruct (getString_frame (print "Usage: " s) "cmd" H')
    as (cmd & w & E & _ & F).
  pose proof (getString_invariant (help_lines P longest) (print "Usage: " s)
                "cmd" H'
                (fun g v Hv => help_lines_value longest "cmd" g v Hv))
    as Hinv.
  rewrite E in Hinv. cbn [final vals set_vals print] in Hinv.
  exists cmd, w. split; [| split; [exact F |]].
  - rewrite (getString_value_local s (print "Usage: " s) "cmd" eq_refl).
    rewrite E. reflexivity.
  - unfold bind, modify. rewrite E. cbn [vals print set_vals].
    rewrite Hinv. reflexivity.
Qed.

(** C5 (as amended).  In a configuration in which "cmd" and "version" are
    registered, as the constructor [Config(cmd, version)] leaves them: when
    [getopt_long] reports 'h' (the help flag) or '?' (an option it does not
    recognise), after options that have been stored, [parseArgs] prints the
    full help text (the usage line with the value of "cmd" and the
    positional names, an empty line, and the help lines of all options),
    then the two lines of the version banner, and exits with status 1; when
    it reports 'v' (the version flag) [parseArgs] prints the banner and
    exits with status 1.  For the schema of the scenario on an x86 Linux
    build, the text is written out. *)
Theorem parseArgs_help_version_exit
  (s : State) (pre post : list (Z * option string)) (opt : Z)
  (optarg : option string) (rest : list string) (v1 : Value) :
  forallb ordinary (map fst pre) = true ->
  store_options P pre (vals s) = Some v1 ->
  isMember (vals s) "cmd" = true ->
  isMember (vals s) "version" = true ->
  (let s1 := set_vals v1 s in
   let outcome := parseArgs P (pre ++ (opt, optarg) :: post) rest s in
   exists (cmd version : string) (vals' : Value),
     value_of (getString P "cmd" s1) = Some cmd /\
     value_of (getString P "version" s1) = Some version /\
     same_except ["cmd"] v1 vals' /\
     (opt = 104%Z \/ opt = 63%Z ->
      exit_code outcome = Some 1%Z /\
      cout (final outcome) =
      cout s ++ "Usage: " ++ cmd ++ " [options]"
      ++ printHelp_usage vals'
           (snd (forEachMember (printHelp_measure P) v1 (0%Z, [])))
      ++ endl ++ endl
      ++ write_lines (help_lines P (alignment P v1) v1)
      ++ "Library version: " ++ PACKAGE_VERSION P ++ endl
      ++ "Application version: " ++ version ++ endl) /\
     (opt = 118%Z ->
      exit_code outcome = Some 1%Z /\
      cout (final outcome) =
      cout s ++ "Library version: " ++ PACKAGE_VERSION P ++ endl
      ++ "Application version: " ++ version ++ endl)) /\
  parseArgs linux_x86 [(104%Z, None)] [] count_schema =
    Exited 1
      (print
         ("Usage: app [options] count" ++ endl ++ endl
          ++ "count          (integer) How many." ++ endl
          ++ "--debug, -g    (integer) The debug level at which messages need to be printed."
          ++ endl
          ++ "--help, -h     Display usage and version information, then exit."
          ++ endl
          ++ "--version, -v  Display library and application version, then exit."
          ++ endl
          ++ "Library version: 2.0" ++ endl
          ++ "Application version: 1.0" ++ endl)
         count_schema) /\
  parseArgs linux_x86 [(118%Z, None)] [] count_schema =
    Exited 1
      (print
         ("Library version: 2.0" ++ endl
          ++ "Application version: 1.0" ++ endl)
         count_schema).
Proof.
  intros Hpre Hst Hcmd Hver.
  split; [| split; vm_compute; reflexivity].
  intros s1 outcome.
  assert (Hcmd1 : isMember (vals s1) "cmd" = true)
    by (subst s1; cbn [vals set_vals];
        rewrite (isMember_store_options pre _ _ _ Hst); exact Hcmd).
  assert (Hver1 : isMember (vals s1) "version" = true)
    by (subst s1; cbn [vals set_vals];
        rewrite (isMember_store_options pre _ _ _ Hst); exact Hver).
  destruct (parseArgs_version_exits unit s1 Hver1) as (version & Ev & _ & _).
  destruct (printHelp_text s1 Hcmd1) as (cmd & w & Ec & F & Eh).
  exists cmd, version, w.
  split; [exact Ec |]. split; [exact Ev |]. split; [exact F |]. split.
  - intros Hopt.
    assert (Hord : ordinary opt = false) by (destruct Hopt; subst; reflexivity).
    assert (Hhelp : ((opt =? 104) || (opt =? 63))%Z = true)
      by (destruct Hopt; subst; reflexivity).
    subst outcome.
    rewrite (parseArgs_stops pre post _ _ _ _ _ Hpre Hst Hord), Hhelp.
    fold s1. unfold bind. rewrite Eh.
    match goal with
    | |- context [parseArgs_version P ?s2] => set (s2' := s2)
    end.
    assert (Hfind : find_member "version" (members (vals s2')) =
                    find_member "version" (members (vals s1))).
    { subst s2'. cbn [vals print set_vals]. apply F.
      cbn. intros [Heq | []]. discriminate. }
    assert (Hver2 : isMember (vals s2') "version" = true)
      by (unfold isMember in Hver1 |- *; rewrite Hfind; exact Hver1).
    destruct (parseArgs_version_exits bool s2' Hver2)
      as (version2 & Ev2 & Xv2 & Cv2).
    rewrite (getString_value_local s2' s1 "version" Hfind), Ev in Ev2.
    injection Ev2 as <-.
    split; [exact Xv2 |]. rewrite Cv2. subst s2' s1.
    cbn [cout print set_vals vals]. rewrite !append_assoc. reflexivity.
  - intros ->. subst outcome.
    rewrite (parseArgs_stops pre post 118 _ _ _ _ Hpre Hst eq_refl).
    cbn [Z.eqb Pos.eqb orb]. fold s1.
    destruct (parseArgs_version_exits bool s1 Hver1)
      as (version2 & Ev2 & Xv2 & Cv2).
    rewrite Ev in Ev2. injection Ev2 as <-.
    split; [exact Xv2 | exact Cv2].
Qed.

End WithPlatform.
(** C10 as stated fails on its last clause: when "daemonize" is true and a
    "logfile" option is registered without a value, the lookup
    [getString("logfile")] inside [activate] gives that entry a value list
    holding one empty placeholder. *)
Lemma activate_changes_logfile :
  value_of (getBool "daemonize" daemon_with_logfile) = Some true /\
  member (vals daemon_with_logfile) "logfile" =
    OBJECT [("arg", STRING "string"); ("long", STRING "logfile");
            ("short", STRING "L")] /\
  returned (activate linux_x86 daemon_with_logfile) = true /\
  member (vals (final (activate linux_x86 daemon_with_logfile))) "logfile" =
    OBJECT [("arg", STRING "string"); ("long", STRING "logfile");
            ("short", STRING "L"); ("value", ARRAY [EMPTY])] /\
  member (vals (final (activate linux_x86 daemon_with_logfile))) "logfile" <>
  member (vals daemon_with_logfile) "logfile".
Proof.
  repeat split; try (vm_compute; reflexivity).
  vm_compute. discriminate.
Qed.

Lemma servers_return_when_inactive_witness :
  threadServer
    [{| accept := Accepted 7; fork := 0; callback := 0; signals := [] |}]
    {| endpoint := TcpSocket 8080 "0.0.0.0"; connected := true |}
    (Config linux_x86 "app" "1.0") =
    Returned 0%Z
      (call sys_close_listener (Config linux_x86 "app" "1.0")) /\
  forkServer
    [{| accept := Accepted 7; fork := 0; callback := 0; signals := [] |}]
    {| endpoint := TcpSocket 8080 "0.0.0.0"; connected := true |}
    (Config linux_x86 "app" "1.0") =
    Returned 0%Z
      (call sys_close_listener (Config linux_x86 "app" "1.0")).
Proof.
  apply (servers_return_when_inactive
           [{| accept := Accepted 7; fork := 0; callback := 0;
               signals := [] |}]
           {| endpoint := TcpSocket 8080 "0.0.0.0"; connected := true |}
           (Config linux_x86 "app" "1.0")).
  reflexivity.
Defined.

(** C3 as stated fails: with "socket", "listen_port" and "listen_interface"
    all registered, as [addConnectorOptions] leaves them for a connector
    that advertises a socket, the local socket is opened first and then
    replaced: the listener that is served is the TCP one. *)
Lemma tcp_listener_replaces_local_socket :
  isMember (vals connector_with_socket) "socket" = true /\
  isMember (vals connector_with_socket) "listen_port" = true /\
  isMember (vals connector_with_socket) "listen_interface" = true /\
  value_of (resolve_listener linux_x86 connector_with_socket) =
    Some {| endpoint := TcpSocket 8080 "0.0.0.0"; connected := true |} /\
  value_of (resolve_listener linux_x86 connector_with_socket) <>
    Some {| endpoint := LocalSocket "/tmp/mist/http_ts"; connected := true |} /\
  syscalls (final (resolve_listener linux_x86 connector_with_socket)) =
    [sys_listen (LocalSocket "/tmp/mist/http_ts");
     sys_listen (TcpSocket 8080 "0.0.0.0")].
Proof.
  repeat split; try (vm_compute; reflexivity).
  vm_compute. discriminate.
Qed.



Lemma parseArgs_help_version_exit_witness :
  (let s1 :=
     set_vals
       (vals (final (parseArgs_options linux_x86 [(103%Z, Some "5")]
                       count_schema))) count_schema in
   let outcome :=
     parseArgs linux_x86 ([(103%Z, Some "5")] ++ (104%Z, None) :: []) ["42"]
       count_schema in
   exists (cmd version : string) (vals' : Value),
     value_of (getString linux_x86 "cmd" s1) = Some cmd /\
     value_of (getString linux_x86 "version" s1) = Some version /\
     same_except ["cmd"]
       (vals (final (parseArgs_options linux_x86 [(103%Z, Some "5")]
                       count_schema))) vals' /\
     (104%Z = 104%Z \/ 104%Z = 63%Z ->
      exit_code outcome = Some 1%Z /\
      cout (final outcome) =
      cout count_schema ++ "Usage: " ++ cmd ++ " [options]"
      ++ printHelp_usage vals'
           (snd (forEachMember (printHelp_measure linux_x86)
                   (vals (final (parseArgs_options linux_x86
                                   [(103%Z, Some "5")] count_schema)))
                   (0%Z, [])))
      ++ endl ++ endl
      ++ write_lines
           (help_lines linux_x86
              (alignment linux_x86
                 (vals (final (parseArgs_options linux_x86
                                 [(103%Z, Some "5")] count_schema))))
              (vals (final (parseArgs_options linux_x86
                              [(103%Z, Some "5")] count_schema))))
      ++ "Library version: " ++ PACKAGE_VERSION linux_x86 ++ endl
      ++ "Application version: " ++ version ++ endl) /\
     (104%Z = 118%Z ->
      exit_code outcome = Some 1%Z /\
      cout (final outcome) =
      cout count_schema ++ "Library version: " ++ PACKAGE_VERSION linux_x86
      ++ endl ++ "Application version: " ++ version ++ endl)) /\
  parseArgs linux_x86 [(104%Z, None)] [] count_schema =
    Exited 1
      (print
         ("Usage: app [options] count" ++ endl ++ endl
          ++ "count          (integer) How many." ++ endl
          ++ "--debug, -g    (integer) The debug level at which messages need to be printed."
          ++ endl
          ++ "--help, -h     Display usage and version information, then exit."
          ++ endl
          ++ "--version, -v  Display library and application version, then exit."
          ++ endl
          ++ "Library version: 2.0" ++ endl
          ++ "Application version: 1.0" ++ endl)
         count_schema) /\
  parseArgs linux_x86 [(118%Z, None)] [] count_schema =
    Exited 1
      (print
         ("Library version: 2.0" ++ endl
          ++ "Application version: 1.0" ++ endl)
         count_schema).
Proof.
  apply (parseArgs_help_version_exit linux_x86 count_schema
           [(103%Z, Some "5")] [] 104 None ["42"]
           (vals (final (parseArgs_options linux_x86 [(103%Z, Some "5")]
                           count_schema)))).
  - reflexivity.
  - vm_compute. reflexivity.
  - reflexivity.
  - reflexivity.
Defined.

(** C5 as stated fails.  A configuration made by the default constructor
    [Config()] has no "cmd": when [getopt_long] reports an option it does
    not recognise, the help text stops right after "Usage: ", no version
    banner is printed, and the exit status is 37, not 1. *)
Lemma Config_default_help_exits_37 :
  parseArgs linux_x86 [(63%Z, None)] []
    (addOption "count" count_option (Config_default linux_x86 0)) =
  Exited 37
    (print
       ("Usage: " ++ "Fatal error: a non-existent option 'cmd' was accessed."
        ++ endl)
       (addOption "count" count_option (Config_default linux_x86 0))) /\
  exit_code
    (parseArgs linux_x86 [(63%Z, None)] []
       (addOption "count" count_option (Config_default linux_x86 0))) <>
  Some 1%Z.
Proof. split; vm_compute; [reflexivity | discriminate]. Qed.

Lemma parseArgs_false_iff_too_few_positionals_witness :
  (value_of (parseArgs linux_x86 [(103%Z, Some "5")] [] count_schema) =
     Some false
   <-> (Z.of_nat (List.length (@nil string)) <
        highest_needed (vals count_schema))%Z) /\
  (let schema :=
     addOption "count" count_option (Config linux_x86 "app" "1.0") in
   value_of (parseArgs linux_x86 [] ["42"] schema) = Some true /\
   value_of
     (getString linux_x86 "count"
        (final (parseArgs linux_x86 [] ["42"] schema))) = Some "42" /\
   value_of (parseArgs linux_x86 [] [] schema) = Some false).
Proof.
  apply (parseArgs_false_iff_too_few_positionals linux_x86 count_schema
           [(103%Z, Some "5")] [] "app" "1.0").
  - reflexivity.
  - vm_compute. discriminate.
  - reflexivity.
  - reflexivity.
Defined.

(** C6 as stated fails.  "count" can be given as [-c] and has the
    positional index 1.  With [-c 5] and no positional token, "count" has
    the value "5" after the options are stored and no entry still needs a
    value, so the highest index still needed is 0 and the number of tokens,
    0, is not smaller; [parseArgs] returns [false] all the same, because
    it took the index when it was called. *)
Lemma parseArgs_counts_before_flags :
  exists v1 : Value,
    store_options linux_x86 [(99%Z, Some "5")] (vals flagged_count_schema) =
      Some v1 /\
    member (member v1 "count") "value" = ARRAY [STRING "5"] /\
    highest_needed v1 = 0%Z /\
    value_of
      (parseArgs linux_x86 [(99%Z, Some "5")] [] flagged_count_schema) =
      Some false /\
    ~ (value_of
         (parseArgs linux_x86 [(99%Z, Some "5")] [] flagged_count_schema) =
         Some false <->
       (Z.of_nat (List.length (@nil string)) < highest_needed v1)%Z).
Proof.
  eexists. split; [vm_compute; reflexivity |].
  split; [vm_compute; reflexivity |].
  split; [vm_compute; reflexivity |].
  split; [vm_compute; reflexivity |].
  intros [H _].
  assert (Hlt : (Z.of_nat (List.length (@nil string)) < 0)%Z).
  { apply H. vm_compute. reflexivity. }
  cbn in Hlt. lia.
Qed.

Lemma help_lines_share_one_column_witness :
  exists usage : string,
    returned (printHelp linux_x86 count_schema) = true /\
    cout (final (printHelp linux_x86 count_schema)) =
      cout count_schema ++ usage
      ++ write_lines
           (help_lines linux_x86 (column linux_x86 (vals count_schema))
              (vals count_schema)) /\
    alignment linux_x86 (vals count_schema) =
      column linux_x86 (vals count_schema) /\
    Forall
      (fun line => strsize (fst line) = column linux_x86 (vals count_schema))
      (help_lines linux_x86 (column linux_x86 (vals count_schema))
         (vals count_schema)).
Proof.
  apply (help_lines_share_one_column linux_x86 count_schema).
  - reflexivity.
  - reflexivity.
Defined.

(** C7 as stated fails on the margin: it is 2 after a flag text and 3 after
    a positional name, so the column is not the longest text plus one fixed
    margin.  With the built-in options only the longest text is
    [--version, -v] (13) and the column is 15; with the positional
    argument "output_filename" (15) added the column is 18. *)
Lemma margin_is_not_fixed :
  alignment linux_x86 (vals (Config linux_x86 "app" "1.0")) = 15%Z /\
  longest_text linux_x86 (vals (Config linux_x86 "app" "1.0")) = 13%Z /\
  alignment linux_x86 (vals output_schema) = 18%Z /\
  longest_text linux_x86 (vals output_schema) = 15%Z /\
  ~ (exists margin : Z,
        alignment linux_x86 (vals (Config linux_x86 "app" "1.0")) =
          (longest_text linux_x86 (vals (Config linux_x86 "app" "1.0"))
           + margin)%Z /\
        alignment linux_x86 (vals output_schema) =
          (longest_text linux_x86 (vals output_schema) + margin)%Z).
Proof.
  assert (A : alignment linux_x86 (vals (Config linux_x86 "app" "1.0")) = 15%Z)
    by (vm_compute; reflexivity).
  assert (B : longest_text linux_x86 (vals (Config linux_x86 "app" "1.0"))
              = 13%Z) by (vm_compute; reflexivity).
  assert (C : alignment linux_x86 (vals output_schema) = 18%Z)
    by (vm_compute; reflexivity).
  assert (D : longest_text linux_x86 (vals output_schema) = 15%Z)
    by (vm_compute; reflexivity).
  repeat split; try assumption.
  rewrite A, B, C, D. intros [margin [H1 H2]]. lia.
Qed.

End ConfigProps.
(** ** lib/config.cpp: more about the registry, parsing and the life cycle *)
Module ConfigMore.
Import Cxx JSON Util ValueProps ConfigProps.
Local Open Scope string_scope.

(** *** The document type: two updates of one entry *)

Lemma update_member_twice (name : string) (f g : Value -> Value)
  (o : list (string * Value)) :
  update_member name g (update_member name f o) =
  update_member name (fun x => g (f x)) o.
Proof.
  induction o as [|[k y] r IH]; [reflexivity |].
  cbn [update_member]. destruct (String.eqb k name) eqn:E;
    cbn [update_member]; rewrite E; [reflexivity |].
  rewrite IH. reflexivity.
Qed.

Lemma update_member_insert (name : string) (g : Value -> Value) (x : Value)
  (o : list (string * Value)) :
  find_member name o = None ->
  update_member name g (insert_member name x o) = insert_member name (g x) o.
Proof.
  induction o as [|[k y] r IH]; intros H.
  - cbn. rewrite String.eqb_refl. reflexivity.
  - cbn [find_member] in H. destruct (String.eqb k name) eqn:E;
      [discriminate |].
    cbn [insert_member]. destruct (String.ltb name k); cbn [update_member].
    + rewrite String.eqb_refl. reflexivity.
    + rewrite E, IH by exact H. reflexivity.
Qed.

Lemma at_member_twice (name : string) (f g : Value -> Value) (v : Value) :
  at_member name g (at_member name f v) =
  at_member name (fun x => g (f x)) v.
Proof.
  unfold at_member at 1. rewrite find_member_at_member_same.
  unfold at_member. destruct (find_member name (members v)) eqn:E;
    cbn [members].
  - rewrite update_member_twice. reflexivity.
  - rewrite update_member_insert by exact E. reflexivity.
Qed.

Lemma nth_pred_last (a : list Value) (d : Value) :
  nth (Nat.pred (List.length a)) a d = last a d.
Proof.
  induction a as [|x [|y a] IH]; [reflexivity | reflexivity |].
  cbn [List.length Nat.pred nth] in IH |- *. rewrite IH. reflexivity.
Qed.

Lemma member_ARRAY_isMember (v : Value) (name : string) (a : list Value) :
  member v name = ARRAY a -> isMember v name = true.
Proof.
  unfold member, isMember. destruct (find_member name (members v));
    [reflexivity | discriminate].
Qed.

(** *** [getOption] on an option that has values *)

Lemma getOption_of_list (s : State) (optname : string) (a : list Value) :
  member (member (vals s) optname) "value" = ARRAY a ->
  a <> [] ->
  (Z.of_nat (List.length a) < 2147483648)%Z ->
  getOption optname false s = Returned (last a EMPTY) s /\
  getOption optname true s = Returned (ARRAY a) s.
Proof.
  intros H Hne Hlen.
  pose proof (member_ARRAY_isMember _ _ _ H) as Hv.
  assert (Hreg : isMember (vals s) optname = true).
  { destruct (isMember (vals s) optname) eqn:E; [reflexivity |].
    rewrite (isMember_member_EMPTY _ _ E) in H. discriminate H. }
  assert (Hpos : (1 <= Z.of_nat (List.length a))%Z)
    by (destruct a; [contradiction | cbn [List.length]; lia]).
  unfold getOption. rewrite Hreg, Hv, H. cbn [negb isArray orb]. rewrite !H.
  split; [| rewrite set_vals_same; reflexivity].
  cbn [size]. rewrite to_int_small by lia.
  rewrite CodecProps.to_uint_small by lia.
  unfold at_index. cbn [elements].
  replace (Z.to_nat (Z.of_nat (List.length a) - 1 + 1
                     - Z.of_nat (List.length a))) with 0%nat by lia.
  cbn [repeat]. rewrite app_nil_r.
  replace (Z.to_nat (Z.of_nat (List.length a) - 1))
    with (Nat.pred (List.length a)) by lia.
  rewrite nth_pred_last. f_equal.
  assert (He : set_member "value" (ARRAY a) (member (vals s) optname) =
               member (vals s) optname).
  { unfold set_member. rewrite at_member_id; [| exact Hv | exact (eq_sym H)].
    apply isMember_OBJECT_members with (name := "value"). exact Hv. }
  rewrite at_member_id; [| exact Hreg | exact He].
  rewrite (isMember_OBJECT_members _ _ Hreg). apply set_vals_same.
Qed.

(** X8.  On an option whose "value" is a non-empty list (of fewer than 2^31
    elements) a lookup is a pure read: [getOption(optname)] returns the
    last element of the list, [getOption(optname, true)] the whole list,
    and the configuration and the process are left exactly as they were. *)
Theorem getOption_reads_last (s : State) (optname : string)
  (a : list Value) :
  member (member (vals s) optname) "value" = ARRAY a ->
  a <> [] ->
  (Z.of_nat (List.length a) < 2147483648)%Z ->
  getOption optname false s = Returned (last a EMPTY) s /\
  getOption optname true s = Returned (ARRAY a) s.
Proof. apply getOption_of_list. Qed.

Lemma getOption_reads_last_witness :
  getOption "version" false (Config linux_x86 "app" "1.0") =
    Returned (last [STRING "2.0"; STRING "1.0"] EMPTY)
      (Config linux_x86 "app" "1.0") /\
  getOption "version" true (Config linux_x86 "app" "1.0") =
    Returned (ARRAY [STRING "2.0"; STRING "1.0"])
      (Config linux_x86 "app" "1.0").
Proof.
  apply (getOption_reads_last (Config linux_x86 "app" "1.0") "version"
           [STRING "2.0"; STRING "1.0"]).
  - reflexivity.
  - discriminate.
  - reflexivity.
Defined.

(** *** [addOption] *)

Lemma addOption_vals (optname : string) (option : Value) (s : State) :
  vals (addOption optname option s) =
  at_member optname (fun _ => registered_entry option) (vals s).
Proof.
  unfold addOption, registered_entry, set_member.
  cbn [vals set_long_count set_vals].
  rewrite !member_at_member_same.
  destruct (negb (isMember option "value") && isMember option "default");
    [| reflexivity].
  rewrite !at_member_twice. reflexivity.
Qed.

Lemma addOption_process (optname : string) (option : Value) (s : State) :
  is_active (addOption optname option s) = is_active s /\
  printDebugLevel (addOption optname option s) = printDebugLevel s /\
  cout (addOption optname option s) = cout s /\
  sigactions (addOption optname option s) = sigactions s /\
  syscalls (addOption optname option s) = syscalls s.
Proof. repeat split; reflexivity. Qed.

(** X9.  [addOption(optname, option)] leaves under [optname] the option it
    is given, with a "default" that has no "value" beside it moved into a
    one-element value list; every entry under another name is as it was,
    and nothing of the process other than [vals] and [long_count]
    changes. *)
Theorem addOption_registers (optname : string) (option : Value) (s : State) :
  isMember (vals (addOption optname option s)) optname = true /\
  member (vals (addOption optname option s)) optname =
    registered_entry option /\
  same_except [optname] (vals s) (vals (addOption optname option s)) /\
  is_active (addOption optname option s) = is_active s /\
  printDebugLevel (addOption optname option s) = printDebugLevel s /\
  cout (addOption optname option s) = cout s /\
  sigactions (addOption optname option s) = sigactions s /\
  syscalls (addOption optname option s) = syscalls s.
Proof.
  rewrite addOption_vals. split; [apply isMember_at_member_same |].
  split; [apply member_at_member_same |]. split.
  - intros name Hn. apply find_member_at_member_other.
    intros ->. apply Hn. left. reflexivity.
  - apply addOption_process.
Qed.

(** X10.  A default given to [addOption] is the option's current value
    afterwards: with a "default" and no "value", [getOption] returns the
    default, as an array the one-element list of it, and the entry has no
    "default" member any more. *)
Theorem addOption_default_is_current (optname : string) (option : Value)
  (s : State) :
  isMember option "value" = false ->
  isMember option "default" = true ->
  value_of (getOption optname false (addOption optname option s)) =
    Some (member option "default") /\
  value_of (getOption optname true (addOption optname option s)) =
    Some (ARRAY [member option "default"]) /\
  isMember (member (vals (addOption optname option s)) optname) "default" =
    false.
Proof.
  intros Hv Hd.
  assert (He : member (vals (addOption optname option s)) optname =
               removeMember "default"
                 (at_member "value" (append (member option "default"))
                    option)).
  { rewrite addOption_vals, member_at_member_same.
    unfold registered_entry. rewrite Hv, Hd. reflexivity. }
  assert (Ha : member (member (vals (addOption optname option s)) optname)
                 "value" = ARRAY [member option "default"]).
  { rewrite He, member_removeMember_other by discriminate.
    rewrite member_at_member_same.
    rewrite (isMember_member_EMPTY _ _ Hv). reflexivity. }
  destruct (getOption_of_list _ _ _ Ha ltac:(discriminate)
              ltac:(cbn; lia)) as [E1 E2].
  rewrite E1, E2, He. repeat split.
  apply isMember_removeMember_same.
Qed.

Lemma addOption_default_is_current_witness :
  value_of
    (getOption "mode" false
       (addOption "mode" (set_member "default" (STRING "fast") EMPTY)
          (Config linux_x86 "app" "1.0"))) =
    Some (member (set_member "default" (STRING "fast") EMPTY) "default") /\
  value_of
    (getOption "mode" true
       (addOption "mode" (set_member "default" (STRING "fast") EMPTY)
          (Config linux_x86 "app" "1.0"))) =
    Some (ARRAY [member (set_member "default" (STRING "fast") EMPTY)
                   "default"]) /\
  isMember
    (member
       (vals (addOption "mode" (set_member "default" (STRING "fast") EMPTY)
                (Config linux_x86 "app" "1.0"))) "mode") "default" = false.
Proof.
  apply (addOption_default_is_current "mode"
           (set_member "default" (STRING "fast") EMPTY)
           (Config linux_x86 "app" "1.0")); reflexivity.
Defined.

Lemma addOption_ext (optname : string) (option : Value) (s1 s2 : State) :
  set_member optname option (vals s1) = set_member optname option (vals s2) ->
  is_active s1 = is_active s2 ->
  printDebugLevel s1 = printDebugLevel s2 ->
  cout s1 = cout s2 ->
  sigactions s1 = sigactions s2 ->
  syscalls s1 = syscalls s2 ->
  addOption optname option s1 = addOption optname option s2.
Proof.
  intros Hv Ha Hp Hc Hs Hy. unfold addOption. rewrite Hv.
  unfold set_long_count, set_vals.
  cbn [vals long_count is_active printDebugLevel cout sigactions syscalls].
  rewrite Ha, Hp, Hc, Hs, Hy. reflexivity.
Qed.

(** X11.  Registering a name again replaces the earlier registration
    without a trace: the second [addOption] under a name gives the state
    that it alone would have given. *)
Theorem addOption_overwrites (optname : string) (option1 option2 : Value)
  (s : State) :
  addOption optname option2 (addOption optname option1 s) =
  addOption optname option2 s.
Proof.
  apply addOption_ext; try reflexivity.
  rewrite addOption_vals. unfold set_member. rewrite at_member_twice.
  reflexivity.
Qed.

(** *** The tables of [parseArgs] *)

Section Tables.
Variable P : Platform.

Lemma long_flags_list_cons (n : string) (e : Value)
  (r : list (string * Value)) :
  long_flags_list ((n, e) :: r) =
  ((if isMember e "long" then 1 else 0)
   + (if isMember e "long_off" then 1 else 0) + long_flags_list r)%Z.
Proof.
  unfold long_flags_list. cbn [filter snd].
  destruct (isMember e "long"), (isMember e "long_off");
    cbn [List.length]; lia.
Qed.

Lemma parseArgs_collect_longOpts (n : string) (e : Value)
  (t : parseArgs_tables) :
  Z.of_nat (List.length (longOpts (fst (parseArgs_collect P n e t)))) =
  (Z.of_nat (List.length (longOpts t))
   + (if isMember e "long" then 1 else 0)
   + (if isMember e "long_off" then 1 else 0))%Z /\
  snd (parseArgs_collect P n e t) = true.
Proof.
  split; [| reflexivity]. unfold parseArgs_collect. cbn [fst longOpts].
  destruct (isMember e "long"), (isMember e "long_off");
    rewrite ?length_app; cbn [List.length]; lia.
Qed.

Lemma longOpts_scan (o : list (string * Value)) :
  forall t : parseArgs_tables,
    Z.of_nat
      (List.length (longOpts (forEachMember_list (parseArgs_collect P) o t))) =
    (Z.of_nat (List.length (longOpts t)) + long_flags_list o)%Z.
Proof.
  induction o as [|[n e] r IH]; intros t.
  - cbn. lia.
  - cbn [forEachMember_list]. rewrite long_flags_list_cons.
    destruct (parseArgs_collect_longOpts n e t) as [Hl Hc].
    destruct (parseArgs_collect P n e t) as [t' c]. cbn [fst snd] in Hl, Hc.
    subst c. rewrite IH, Hl. lia.
Qed.

(** X12.  After at least one [addOption], [long_count] is the number of
    entries [parseArgs] writes into the table of long options (as long as
    the registry has fewer than 2^30 entries): the [long_count + 1] slots
    it allocates hold the table and its all-zero terminator. *)
Theorem long_options_table_fits (calls : list (string * Value)) (s : State) :
  calls <> [] ->
  (Z.of_nat (List.length (members (vals (addOptions calls s))))
   < 1073741824)%Z ->
  Z.of_nat
    (List.length
       (longOpts
          (forEachMember (parseArgs_collect P) (vals (addOptions calls s))
             {| shortopts := ""; longOpts := []; arg_count := 0 |}))) =
  long_count (addOptions calls s).
Proof.
  intros Hne Hsize. unfold forEachMember. rewrite longOpts_scan.
  cbn [longOpts List.length]. rewrite addOptions_long_count by exact Hne.
  fold (long_flags (vals (addOptions calls s))).
  pose proof (long_flags_bound (vals (addOptions calls s))) as Hb.
  rewrite to_int_small by lia. lia.
Qed.

End Tables.

Lemma long_options_table_fits_witness :
  Z.of_nat
    (List.length
       (longOpts
          (forEachMember (parseArgs_collect linux_x86)
             (vals (addOptions [("count", count_option)]
                      (Config linux_x86 "app" "1.0")))
             {| shortopts := ""; longOpts := []; arg_count := 0 |}))) =
  long_count
    (addOptions [("count", count_option)] (Config linux_x86 "app" "1.0")).
Proof.
  apply (long_options_table_fits linux_x86 [("count", count_option)]
           (Config linux_x86 "app" "1.0")).
  - discriminate.
  - reflexivity.
Defined.

(** *** The [default:] branch of [parseArgs] *)

Section Options.
Variable P : Platform.

Lemma parseArgs_store_takes (opt : Z) (optarg : option string)
  (name : string) (entry : Value) :
  parseArgs_store P opt optarg name entry =
  if takes_option P opt entry
  then option_map
         (fun x => (at_member "value" (append x) entry, false))
         (stored_value P opt optarg entry)
  else Some (entry, true).
Proof.
  unfold parseArgs_store, takes_option, stored_value, short_is.
  destruct (isMember entry "short"
            && (char_to_int (char_signed P)
                  (char_at0 (asString (toString P) (member entry "short")))
                =? opt)%Z); cbn [orb].
  - destruct (isMember entry "arg"); [destruct optarg |]; reflexivity.
  - destruct (isMember entry "short_off"
              && (char_to_int (char_signed P)
                    (char_at0
                       (asString (toString P) (member entry "short_off")))
                  =? opt)%Z); reflexivity.
Qed.

Lemma stored_value_none (opt : Z) (optarg : option string) (entry : Value) :
  stored_value P opt optarg entry = None <->
  optarg = None /\ short_is P "short" opt entry = true /\
  isMember entry "arg" = true.
Proof.
  unfold stored_value.
  destruct (short_is P "short" opt entry); [| split; [discriminate |]].
  - destruct (isMember entry "arg"); [| split; [discriminate |]].
    + destruct optarg; cbn [option_map]; split;
        try discriminate; try (intros _; repeat split; reflexivity).
      intros [H _]. discriminate.
    + intros (_ & _ & H). discriminate.
  - intros (_ & H & _). discriminate.
Qed.

Lemma short_is_appended (key : string) (opt : Z) (g : Value -> Value)
  (entry : Value) :
  key <> "value" ->
  short_is P key opt (at_member "value" g entry) = short_is P key opt entry.
Proof.
  intros Hk. unfold short_is.
  rewrite isMember_at_member_other, member_at_member_other by exact Hk.
  reflexivity.
Qed.

Lemma takes_option_appended (opt : Z) (g : Value -> Value) (entry : Value) :
  takes_option P opt (at_member "value" g entry) = takes_option P opt entry.
Proof.
  unfold takes_option. rewrite !short_is_appended by discriminate.
  reflexivity.
Qed.

Lemma stored_value_appended (opt : Z) (optarg : option string)
  (g : Value -> Value) (entry : Value) :
  stored_value P opt optarg (at_member "value" g entry) =
  stored_value P opt optarg entry.
Proof.
  unfold stored_value. rewrite short_is_appended by discriminate.
  rewrite isMember_at_member_other by discriminate. reflexivity.
Qed.

(** The walk of one option over the entries, when it does not throw. *)
Lemma store_step (opt : Z) (optarg : option string)
  (o : list (string * Value)) :
  forall o' : list (string * Value),
    forEachMember_try_list (parseArgs_store P opt optarg) o = Some o' ->
    forall (i : nat) (name : string) (entry : Value),
      nth_error o i = Some (name, entry) ->
      if first_takes P opt o i
      then exists x : Value,
          stored_value P opt optarg entry = Some x /\
          nth_error o' i = Some (name, at_member "value" (append x) entry)
      else nth_error o' i = Some (name, entry).
Proof.
  induction o as [|[n e] r IH]; intros o' Ho i name entry Hn.
  - destruct i; discriminate.
  - cbn [forEachMember_try_list] in Ho.
    rewrite parseArgs_store_takes in Ho.
    unfold first_takes. cbn [first_with_option].
    destruct (takes_option P opt e) eqn:T.
    + destruct (stored_value P opt optarg e) as [x|] eqn:Sx;
        cbn [option_map] in Ho; [| discriminate].
      injection Ho as <-.
      destruct i as [|i]; cbn [nth_error Nat.eqb] in Hn |- *.
      * injection Hn as <- <-. exists x. split; [exact Sx | reflexivity].
      * exact Hn.
    + destruct (forEachMember_try_list (parseArgs_store P opt optarg) r)
        as [r'|] eqn:Er; cbn [option_map] in Ho; [| discriminate].
      injection Ho as <-.
      destruct i as [|i]; cbn [nth_error] in Hn |- *.
      * destruct (first_with_option P opt r); cbn [option_map Nat.eqb];
          exact Hn.
      * specialize (IH r' eq_refl i name entry Hn). unfold first_takes in IH.
        destruct (first_with_option P opt r); cbn [option_map Nat.eqb];
          exact IH.
Qed.

(** The walk throws exactly when the first entry that takes the option has
    nothing to store. *)
Lemma store_throws (opt : Z) (optarg : option string)
  (o : list (string * Value)) :
  forEachMember_try_list (parseArgs_store P opt optarg) o = None <->
  exists (i : nat) (name : string) (entry : Value),
    nth_error o i = Some (name, entry) /\
    first_takes P opt o i = true /\
    stored_value P opt optarg entry = None.
Proof.
  split.
  - induction o as [|[n e] r IH]; [discriminate |].
    cbn [forEachMember_try_list]. rewrite parseArgs_store_takes.
    unfold first_takes. cbn [first_with_option].
    destruct (takes_option P opt e) eqn:T.
    + destruct (stored_value P opt optarg e) eqn:Sx; [discriminate |].
      intros _. exists O, n, e. repeat split. exact Sx.
    + destruct (forEachMember_try_list (parseArgs_store P opt optarg) r);
        [discriminate |].
      intros _. destruct (IH eq_refl) as (i & name & entry & Hn & Hf & Hs).
      exists (S i), name, entry. split; [exact Hn |]. split; [| exact Hs].
      unfold first_takes in Hf.
      destruct (first_with_option P opt r); cbn [option_map Nat.eqb];
        [exact Hf | discriminate].
  - intros (i & name & entry & Hn & Hf & Hs).
    destruct (forEachMember_try_list (parseArgs_store P opt optarg) o)
      as [o'|] eqn:Eo; [| reflexivity].
    pose proof (store_step opt optarg o o' Eo i name entry Hn) as Hstep.
    rewrite Hf in Hstep. destruct Hstep as (x & Hx & _). congruence.
Qed.

Lemma length_store (opt : Z) (optarg : option string)
  (o : list (string * Value)) :
  forall o' : list (string * Value),
    forEachMember_try_list (parseArgs_store P opt optarg) o = Some o' ->
    map fst o' = map fst o.
Proof.
  induction o as [|[n e] r IH]; intros o' Ho.
  - injection Ho as <-. reflexivity.
  - cbn [forEachMember_try_list] in Ho.
    destruct (parseArgs_store P opt optarg n e) as [[e' c]|];
      [| discriminate].
    destruct c.
    + destruct (forEachMember_try_list (parseArgs_store P opt optarg) r)
        as [r'|]; cbn [option_map] in Ho; [| discriminate].
      injection Ho as <-. cbn [map fst]. rewrite (IH r' eq_refl).
      reflexivity.
    + injection Ho as <-. reflexivity.
Qed.

Lemma first_with_option_step (opt opt' : Z) (optarg : option string)
  (o : list (string * Value)) :
  forall o' : list (string * Value),
    forEachMember_try_list (parseArgs_store P opt optarg) o = Some o' ->
    first_with_option P opt' o' = first_with_option P opt' o.
Proof.
  induction o as [|[n e] r IH]; intros o' Ho.
  - injection Ho as <-. reflexivity.
  - cbn [forEachMember_try_list] in Ho.
    rewrite parseArgs_store_takes in Ho.
    destruct (takes_option P opt e).
    + destruct (stored_value P opt optarg e); cbn [option_map] in Ho;
        [| discriminate].
      injection Ho as <-. cbn [first_with_option].
      rewrite takes_option_appended. reflexivity.
    + destruct (forEachMember_try_list (parseArgs_store P opt optarg) r)
        as [r'|]; cbn [option_map] in Ho; [| discriminate].
      injection Ho as <-. cbn [first_with_option].
      rewrite (IH r' eq_refl). reflexivity.
Qed.

Lemma members_try (func : string -> Value -> option (Value * bool))
  (v v' : Value) :
  forEachMember_try func v = Some v' ->
  forEachMember_try_list func (members v) = Some (members v').
Proof.
  destruct v as [| | | | |o];
    cbn [forEachMember_try members forEachMember_try_list];
    try (intros H; injection H as <-; reflexivity).
  destruct (forEachMember_try_list func o); cbn [option_map];
    [| discriminate].
  intros H. injection H as <-. reflexivity.
Qed.

Lemma try_throws (func : string -> Value -> option (Value * bool))
  (v : Value) :
  forEachMember_try func v = None <->
  forEachMember_try_list func (members v) = None.
Proof.
  destruct v as [| | | | |o];
    cbn [forEachMember_try members forEachMember_try_list];
    try (split; discriminate).
  destruct (forEachMember_try_list func o); cbn [option_map];
    split; try discriminate; reflexivity.
Qed.

Lemma member_appended (x : Value) (entry : Value) :
  member (at_member "value" (append x) entry) "value" =
  ARRAY (elements (member entry "value") ++ [x]).
Proof.
  rewrite member_at_member_same. destruct (member entry "value"); reflexivity.
Qed.

(** X13.  One option that is not 'h', '?' or 'v' goes to the first entry,
    in registry order, whose "short" flag or "short_off" flag starts with
    the option character.  If that entry is to store the argument (it
    matched by its "short" flag and has "arg") and [getopt_long] left no
    argument, the walk throws and nothing is stored; otherwise that entry
    gets one value appended to its value list (the argument if the entry
    has "arg", the integer 1 otherwise, for the "short" flag; the integer 0
    for the "short_off" flag), and every other entry is left as it is. *)
Theorem option_goes_to_first_match (vals : Value) (opt : Z)
  (optarg : option string) :
  (forEachMember_try (parseArgs_store P opt optarg) vals = None <->
   exists (i : nat) (name : string) (entry : Value),
     nth_error (members vals) i = Some (name, entry) /\
     first_takes P opt (members vals) i = true /\
     optarg = None /\ short_is P "short" opt entry = true /\
     isMember entry "arg" = true) /\
  (forall vals' : Value,
      forEachMember_try (parseArgs_store P opt optarg) vals = Some vals' ->
      List.length (members vals') = List.length (members vals) /\
      forall (i : nat) (name : string) (entry : Value),
        nth_error (members vals) i = Some (name, entry) ->
        if first_takes P opt (members vals) i
        then exists x : Value,
            stored_value P opt optarg entry = Some x /\
            nth_error (members vals') i =
              Some (name, at_member "value" (append x) entry)
        else nth_error (members vals') i = Some (name, entry)) /\
  (forall entry : Value,
      stored_value P opt optarg entry =
      if short_is P "short" opt entry
      then if isMember entry "arg" then option_map STRING optarg
           else Some (INTEGER 1)
      else Some (INTEGER 0)) /\
  (forall (x entry : Value),
      member (at_member "value" (append x) entry) "value" =
      ARRAY (elements (member entry "value") ++ [x])).
Proof.
  split; [| split; [| split]].
  - rewrite try_throws, store_throws.
    split; intros (i & name & entry & Hn & Hf & Hs);
      exists i, name, entry; (split; [exact Hn |]); (split; [exact Hf |]);
      apply stored_value_none; exact Hs.
  - intros vals' Hv. apply members_try in Hv. split.
    + rewrite <- (length_map fst (members vals')),
        <- (length_map fst (members vals)).
      rewrite (length_store _ _ _ _ Hv). reflexivity.
    + apply (store_step _ _ _ _ Hv).
  - reflexivity.
  - apply member_appended.
Qed.

Lemma distinct_find_member (o : list (string * Value)) :
  forall (i : nat) (name : string) (entry : Value),
    keys_distinct o = true ->
    nth_error o i = Some (name, entry) ->
    find_member name o = Some entry.
Proof.
  unfold keys_distinct.
  induction o as [|[k y] r IH]; intros i name entry Hd Hn.
  - destruct i; discriminate.
  - cbn [map fst distinct] in Hd. apply andb_prop in Hd as [Hk Hd].
    destruct i as [|i]; cbn [nth_error] in Hn.
    + injection Hn as -> ->. cbn [find_member]. rewrite String.eqb_refl.
      reflexivity.
    + cbn [find_member].
      destruct (String.eqb k name) eqn:E; [| eapply IH; eassumption].
      apply String.eqb_eq in E. subst k.
      apply negb_true_iff in Hk.
      assert (Hin : In name (map fst r)).
      { apply nth_error_In in Hn. apply (in_map fst) in Hn. exact Hn. }
      assert (Hex : existsb (String.eqb name) (map fst r) = true).
      { apply existsb_exists. exists name. split; [exact Hin |].
        apply String.eqb_refl. }
      congruence.
Qed.

Lemma store_options_app (pre post : list (Z * option string)) :
  forall vals : Value,
    store_options P (pre ++ post) vals =
    match store_options P pre vals with
    | Some v1 => store_options P post v1
    | None => None
    end.
Proof.
  induction pre as [|[o a] pre IH]; intros vals; [reflexivity |].
  cbn [app store_options].
  destruct (forEachMember_try (parseArgs_store P o a) vals);
    [apply IH | reflexivity].
Qed.

Lemma store_options_keeps (pre : list (Z * option string)) :
  forall vals v1 : Value,
    store_options P pre vals = Some v1 ->
    map fst (members v1) = map fst (members vals) /\
    (forall opt : Z,
        first_with_option P opt (members v1) =
        first_with_option P opt (members vals)) /\
    (forall (i : nat) (name : string) (entry : Value),
        nth_error (members vals) i = Some (name, entry) ->
        exists entry' : Value,
          nth_error (members v1) i = Some (name, entry') /\
          forall (opt : Z) (optarg : option string),
            stored_value P opt optarg entry' =
            stored_value P opt optarg entry).
Proof.
  induction pre as [|[o a] pre IH]; intros vals v1 Hst.
  - injection Hst as <-. repeat split; try reflexivity.
    intros i name entry Hn. exists entry. split; [exact Hn | reflexivity].
  - cbn [store_options] in Hst.
    destruct (forEachMember_try (parseArgs_store P o a) vals) as [v0|] eqn:E0;
      [| discriminate].
    apply members_try in E0.
    destruct (IH v0 v1 Hst) as (A & B & C).
    split; [| split].
    + rewrite A. apply (length_store _ _ _ _ E0).
    + intros opt. rewrite B. apply (first_with_option_step _ _ _ _ _ E0).
    + intros i name entry Hn.
      pose proof (store_step o a _ _ E0 i name entry Hn) as Hs.
      destruct (first_takes P o (members vals) i).
      * destruct Hs as (x & _ & Hs).
        destruct (C i name _ Hs) as (entry' & Hn' & Hv').
        exists entry'. split; [exact Hn' |].
        intros opt optarg. rewrite Hv'. apply stored_value_appended.
      * destruct (C i name _ Hs) as (entry' & Hn' & Hv').
        exists entry'. split; [exact Hn' | exact Hv'].
Qed.

(** X14.  The last occurrence of an option wins.  When the options that
    [getopt_long] reports are none of 'h', '?' and 'v' and are all stored
    (no entry was to store an argument that [getopt_long] did not leave),
    the registry has distinct keys, the entry at place [i] is the first to
    take the character of the last option, and the value list of that entry
    ends up with fewer than 2^31 values, then the option loop returns and a
    lookup of that entry afterwards returns what the last option stored,
    and is a pure read. *)
Theorem last_option_wins (s : State) (pre : list (Z * option string))
  (opt : Z) (optarg : option string) (i : nat) (name : string)
  (entry v' : Value) :
  forallb ordinary (map fst (pre ++ [(opt, optarg)])) = true ->
  store_options P (pre ++ [(opt, optarg)]) (vals s) = Some v' ->
  keys_distinct (members (vals s)) = true ->
  nth_error (members (vals s)) i = Some (name, entry) ->
  first_takes P opt (members (vals s)) i = true ->
  (size (member (member v' name) "value") < 2147483648)%Z ->
  parseArgs_options P (pre ++ [(opt, optarg)]) s =
    Returned tt (set_vals v' s) /\
  exists x : Value,
    stored_value P opt optarg entry = Some x /\
    getOption name false (set_vals v' s) = Returned x (set_vals v' s).
Proof.
  intros Hord Hst Hd Hn Hf Hsize.
  split; [apply (parseArgs_options_ordinary P _ _ _ Hord Hst) |].
  rewrite store_options_app in Hst.
  destruct (store_options P pre (vals s)) as [v1|] eqn:E1; [| discriminate].
  cbn [store_options] in Hst.
  destruct (forEachMember_try (parseArgs_store P opt optarg) v1)
    as [v2|] eqn:E2; [| discriminate].
  injection Hst as <-.
  apply members_try in E2.
  destruct (store_options_keeps pre (vals s) v1 E1) as (A & B & C).
  destruct (C i name entry Hn) as (entry' & Hn' & Hs').
  pose proof (store_step opt optarg _ _ E2 i name entry' Hn') as Hstep.
  unfold first_takes in Hstep, Hf. rewrite B, Hf in Hstep.
  destruct Hstep as (x & Hx & Hstep). rewrite Hs' in Hx.
  exists x. split; [exact Hx |].
  assert (Hkeys : keys_distinct (members v2) = true).
  { unfold keys_distinct in Hd |- *.
    rewrite (length_store _ _ _ _ E2), A. exact Hd. }
  pose proof (distinct_find_member _ _ _ _ Hkeys Hstep) as Hfind.
  assert (Hm : member (member v2 name) "value" =
               ARRAY (elements (member entry' "value") ++ [x])).
  { unfold member at 2. rewrite Hfind. apply member_appended. }
  rewrite Hm in Hsize. cbn [size] in Hsize.
  pose proof (getOption_of_list (set_vals v2 s) name _ Hm) as Hget.
  destruct Hget as [Hget _].
  - intros Hnil. apply app_eq_nil in Hnil as [_ Hnil]. discriminate.
  - exact Hsize.
  - rewrite last_last in Hget. exact Hget.
Qed.

(** *** What [parseArgs] does and does not touch *)

Lemma isMember_parseArgs_rest (rest : list string) :
  forall (k : Z) (v : Value) (name : string),
    isMember (fst (parseArgs_rest rest k v)) name = isMember v name.
Proof.
  induction rest as [|t rest IH]; intros k v name; [reflexivity |].
  cbn [parseArgs_rest]. rewrite IH. apply isMember_forEachMember_mut.
Qed.

(** X15.  With options that are none of 'h', '?' and 'v' and are all
    stored (no entry was to store an argument that [getopt_long] did not
    leave), and enough positional tokens, [parseArgs] ends in one of two
    ways: if "debug" is registered it returns [true] and [printDebugLevel]
    is the current value of "debug", after the options and tokens have been
    stored, read as a [long long] (a text through [atoll], which stays
    within [long long]) and converted to [unsigned int]; if "debug" is not
    registered the process exits with status 37 and [printDebugLevel] is
    unchanged. *)
Theorem parseArgs_sets_debug_level (s : State)
  (opts : list (Z * option string)) (rest : list string) (v : Value) :
  forallb ordinary (map fst opts) = true ->
  store_options P opts (vals s) = Some v ->
  positions_fit (vals s) = true ->
  (Z.of_nat (List.length rest) < 2147483647)%Z ->
  (highest_needed (vals s) <= Z.of_nat (List.length rest))%Z ->
  let s1 := set_vals (fst (parseArgs_rest rest 1 v)) s in
  if isMember (vals s) "debug" then
    exists debug : Z,
      value_of (getInteger "debug" s1) = Some debug /\
      value_of (parseArgs P opts rest s) = Some true /\
      printDebugLevel (final (parseArgs P opts rest s)) = to_uint debug
  else
    exit_code (parseArgs P opts rest s) = Some 37%Z /\
    printDebugLevel (final (parseArgs P opts rest s)) = printDebugLevel s.
Proof.
  intros Hord Hst Hfit Hlen Hhigh s1.
  assert (Hreg : isMember (vals s1) "debug" = isMember (vals s) "debug").
  { subst s1. cbn [vals set_vals].
    rewrite isMember_parseArgs_rest.
    apply (isMember_store_options P opts _ _ _ Hst). }
  assert (Hrun : parseArgs P opts rest s =
                 (debug <- getInteger "debug" ;;
                  modify (set_printDebugLevel (to_uint debug)) ;;;
                  ret true) s1).
  { unfold parseArgs. unfold bind at 1.
    rewrite (parseArgs_options_ordinary P opts s v Hord Hst).
    rewrite arg_count_highest_needed by exact Hfit.
    cbn [vals set_vals]. subst s1.
    pose proof (parseArgs_rest_counter rest 1 v ltac:(lia) ltac:(lia)) as Hc.
    destruct (parseArgs_rest rest 1 v) as [v2 long_i].
    cbn [fst snd] in Hc |- *. subst long_i.
    destruct (1 + Z.of_nat (List.length rest) <=? highest_needed (vals s))%Z
      eqn:L; [apply Z.leb_le in L; lia |].
    reflexivity. }
  rewrite Hrun. destruct (isMember (vals s) "debug") eqn:E.
  - destruct (getInteger_frame s1 "debug" Hreg) as (x & w & Eq & _).
    exists x. unfold bind, modify, ret. rewrite Eq. cbn. repeat split.
  - unfold getInteger, bind.
    rewrite getOption_unregistered by exact Hreg. cbn. split; reflexivity.
Qed.

End Options.

Section Footprint.
Variable P : Platform.
Context {B : Type} (q : State -> B).
Hypothesis q_vals :
  forall (v : Value) (s : State),
    (forall name : string, isMember v name = isMember (vals s) name) ->
    q (set_vals v s) = q s.
Hypothesis q_cout : forall (text : string) (s : State), q (print text s) = q s.
Hypothesis q_debug :
  forall (n : Z) (s : State), q (set_printDebugLevel n s) = q s.

Lemma preserves_bind {A C : Type} (c : Exec A) (k : A -> Exec C) :
  preserves q c -> (forall a : A, preserves q (k a)) ->
  preserves q (bind c k).
Proof.
  intros Hc Hk s. unfold bind. specialize (Hc s).
  destruct (c s) as [a s'|code s'|s'|s']; cbn [final] in Hc |- *;
    [rewrite Hk | | |]; exact Hc.
Qed.

Lemma preserves_ret {A : Type} (a : A) : preserves q (ret a).
Proof. intros s. reflexivity. Qed.

Lemma preserves_exit {A : Type} (code : Z) : preserves q (@exit A code).
Proof. intros s. reflexivity. Qed.

Lemma preserves_modify (f : State -> State) :
  (forall s : State, q (f s) = q s) -> preserves q (modify f).
Proof. intros H s. apply H. Qed.

Lemma getOption_preserves (optname : string) (asArray : bool) :
  preserves q (getOption optname asArray).
Proof.
  intros s. destruct (isMember (vals s) optname) eqn:E.
  - destruct (getOption_frame s optname asArray E) as (v & w & Eq & Hw & F).
    rewrite Eq. cbn [final]. apply q_vals. intros name.
    destruct (String.eqb_spec name optname) as [-> | Hne].
    + rewrite Hw, E. reflexivity.
    + apply (same_except_isMember [optname]); [exact F |].
      intros [Heq | []]. apply Hne. symmetry. exact Heq.
  - rewrite getOption_unregistered by exact E. cbn [final]. apply q_cout.
Qed.

Lemma getString_preserves (optname : string) :
  preserves q (getString P optname).
Proof.
  apply preserves_bind; [apply getOption_preserves |].
  intros v. apply preserves_ret.
Qed.

Lemma getInteger_preserves (optname : string) :
  preserves q (getInteger optname).
Proof.
  apply preserves_bind; [apply getOption_preserves |].
  intros v. apply preserves_ret.
Qed.

Lemma getBool_preserves (optname : string) : preserves q (getBool optname).
Proof.
  apply preserves_bind; [apply getOption_preserves |].
  intros v. apply preserves_ret.
Qed.

Ltac frame :=
  repeat first
    [ apply getString_preserves
    | apply getInteger_preserves
    | apply getOption_preserves
    | apply preserves_ret
    | apply preserves_exit
    | apply preserves_modify; intros ?; apply q_cout
    | apply preserves_bind; [| intros ?] ].

Lemma printHelp_preserves : preserves q (printHelp P).
Proof.
  intros s. unfold printHelp.
  destruct (forEachMember (printHelp_measure P) (vals s) (0%Z, []))
    as [longest args].
  revert s. change (preserves q
    (modify (print "Usage: ") ;;;
     cmd <- getString P "cmd" ;;
     modify (print (cmd ++ " [options]")) ;;;
     modify (fun s => print (printHelp_usage (vals s) args) s) ;;;
     modify (print (endl ++ endl)) ;;;
     modify (fun s => print (write_lines (help_lines P longest (vals s))) s))).
  frame.
Qed.

Lemma parseArgs_version_preserves (A : Type) :
  preserves q (@parseArgs_version P A).
Proof.
  unfold parseArgs_version.
  frame.
Qed.

Lemma parseArgs_default_preserves (opt : Z) (optarg : option string) :
  preserves q (parseArgs_default P opt optarg).
Proof.
  intros s. unfold parseArgs_default.
  destruct (forEachMember_try (parseArgs_store P opt optarg) (vals s))
    as [v|] eqn:E; cbn [final]; [| reflexivity].
  apply q_vals. intros name.
  apply (isMember_forEachMember_try _ _ _ _ E).
Qed.

Lemma parseArgs_options_preserves (opts : list (Z * option string)) :
  preserves q (parseArgs_options P opts).
Proof.
  induction opts as [|[opt optarg] opts IH]; [apply preserves_ret |].
  cbn [parseArgs_options].
  destruct ((opt =? 104) || (opt =? 63))%Z.
  - apply preserves_bind; [apply printHelp_preserves |].
    intros _. apply parseArgs_version_preserves.
  - destruct (opt =? 118)%Z; [apply parseArgs_version_preserves |].
    apply preserves_bind; [| intros _; exact IH].
    apply parseArgs_default_preserves.
Qed.

Lemma parseArgs_preserves (opts : list (Z * option string))
  (rest : list string) :
  preserves q (parseArgs P opts rest).
Proof.
  intros s. unfold parseArgs.
  set (arg_count :=
         arg_count
           (forEachMember (parseArgs_collect P) (vals s)
              {| shortopts := ""; longOpts := []; arg_count := 0 |})).
  clearbody arg_count. revert s.
  apply preserves_bind; [apply parseArgs_options_preserves |].
  intros _ s.
  pose proof (isMember_parseArgs_rest rest 1 (vals s)) as Hnames.
  destruct (parseArgs_rest rest 1 (vals s)) as [v long_i].
  cbn [fst] in Hnames.
  destruct (long_i <=? arg_count)%Z.
  - cbn [final]. apply q_vals. exact Hnames.
  - rewrite <- (q_vals v s Hnames). revert v Hnames. intros v _.
    generalize (set_vals v s). clear s.
    apply preserves_bind; [apply getInteger_preserves |].
    intros debug. apply preserves_bind; [| intros _; apply preserves_ret].
    apply preserves_modify. intros s. apply q_debug.
Qed.

End Footprint.

(** X16.  However [parseArgs] ends (it returns [true] or [false], or the
    process exits through help, version or a missing option, or is ended
    by the exception of an option without its argument), it has made
    none of the calls that [SysCall] lists (no change of user, no [daemon],
    no listener, thread or child), has left [is_active], [long_count] and
    the signal dispositions alone, and the registry holds the same names as
    before: parsing only changes option values, the debug level and the
    output. *)
Theorem parseArgs_footprint (P : Platform)
  (opts : list (Z * option string)) (rest : list string) (s : State) :
  syscalls (final (parseArgs P opts rest s)) = syscalls s /\
  is_active (final (parseArgs P opts rest s)) = is_active s /\
  long_count (final (parseArgs P opts rest s)) = long_count s /\
  sigactions (final (parseArgs P opts rest s)) = sigactions s /\
  forall name : string,
    isMember (vals (final (parseArgs P opts rest s))) name =
    isMember (vals s) name.
Proof.
  repeat split.
  - apply (parseArgs_preserves P syscalls); reflexivity.
  - apply (parseArgs_preserves P is_active); reflexivity.
  - apply (parseArgs_preserves P long_count); reflexivity.
  - apply (parseArgs_preserves P sigactions); reflexivity.
  - intros name.
    apply (parseArgs_preserves P (fun s => isMember (vals s) name));
      try reflexivity.
    intros v s0 H. apply H.
Qed.

Lemma last_option_wins_witness :
  parseArgs_options linux_x86 ([(103%Z, Some "5")] ++ [(103%Z, Some "7")])
    count_schema =
    Returned tt
      (set_vals
         (vals (final (parseArgs_options linux_x86
                         [(103%Z, Some "5"); (103%Z, Some "7")]
                         count_schema))) count_schema) /\
  exists x : Value,
    stored_value linux_x86 103 (Some "7") (member (vals count_schema) "debug")
      = Some x /\
    getOption "debug" false
      (set_vals
         (vals (final (parseArgs_options linux_x86
                         [(103%Z, Some "5"); (103%Z, Some "7")]
                         count_schema))) count_schema) =
    Returned x
      (set_vals
         (vals (final (parseArgs_options linux_x86
                         [(103%Z, Some "5"); (103%Z, Some "7")]
                         count_schema))) count_schema).
Proof.
  apply (last_option_wins linux_x86 count_schema [(103%Z, Some "5")] 103
           (Some "7") 2 "debug" (member (vals count_schema) "debug")
           (vals (final (parseArgs_options linux_x86
                           [(103%Z, Some "5"); (103%Z, Some "7")]
                           count_schema))));
    vm_compute; reflexivity.
Defined.

(** With [-g 5 -g 7], "debug" reads 7 afterwards; with [-g] reported
    without an argument the option loop is ended by the exception. *)
Lemma debug_option_given_twice :
  value_of
    (getOption "debug" false
       (final (parseArgs_options linux_x86
                 [(103%Z, Some "5"); (103%Z, Some "7")] count_schema))) =
    Some (STRING "7") /\
  parseArgs_options linux_x86 [(103%Z, Some "5"); (103%Z, None)]
    count_schema =
    Aborted
      (final (parseArgs_options linux_x86 [(103%Z, Some "5")] count_schema)).
Proof. split; vm_compute; reflexivity. Qed.

Lemma parseArgs_sets_debug_level_witness :
  exists debug : Z,
    value_of
      (getInteger "debug"
         (set_vals
            (fst (parseArgs_rest ["42"] 1
                    (vals (final (parseArgs_options linux_x86
                                    [(103%Z, Some "7")] count_schema)))))
            count_schema)) = Some debug /\
    value_of (parseArgs linux_x86 [(103%Z, Some "7")] ["42"] count_schema) =
      Some true /\
    printDebugLevel
      (final (parseArgs linux_x86 [(103%Z, Some "7")] ["42"] count_schema)) =
      to_uint debug.
Proof.
  apply (parseArgs_sets_debug_level linux_x86 count_schema
           [(103%Z, Some "7")] ["42"]
           (vals (final (parseArgs_options linux_x86 [(103%Z, Some "7")]
                           count_schema))));
    first [reflexivity | vm_compute; reflexivity | vm_compute; discriminate].
Defined.

(** [-g 7] sets the level 7; a number beyond [long long] is read by [atoll]
    as [LLONG_MAX], whose low 32 bits are all set. *)
Lemma parseArgs_debug_level_examples :
  printDebugLevel
    (final (parseArgs linux_x86 [(103%Z, Some "7")] ["42"] count_schema)) =
    7%Z /\
  printDebugLevel
    (final (parseArgs linux_x86 [(103%Z, Some "99999999999999999999")]
              ["42"] count_schema)) = 4294967295%Z /\
  printDebugLevel
    (final (parseArgs linux_x86 [(103%Z, Some "-1")] ["42"] count_schema)) =
    4294967295%Z.
Proof. repeat split; vm_compute; reflexivity. Qed.

(** *** Signals *)

Lemma signal_handler_sigactions (sig : Signal) (s : State) :
  sigactions (signal_handler sig s) = sigactions s.
Proof. destruct sig; reflexivity. Qed.

Lemma stops_ext (s1 s2 : State) (signals : list Signal) :
  sigactions s1 = sigactions s2 -> stops s1 signals = stops s2 signals.
Proof. intros H. unfold stops, handled. rewrite H. reflexivity. Qed.

Lemma deliver_effect (signals : list Signal) :
  forall s : State,
    is_active (deliver signals s) =
      (is_active s && negb (stops s signals)) /\
    sigactions (deliver signals s) = sigactions s /\
    vals (deliver signals s) = vals s /\
    long_count (deliver signals s) = long_count s /\
    printDebugLevel (deliver signals s) = printDebugLevel s /\
    cout (deliver signals s) = cout s.
Proof.
  induction signals as [|sig r IH]; intros s.
  - cbn. rewrite andb_true_r. repeat split.
  - cbn [deliver]. unfold stops. cbn [existsb]. fold (stops s r).
    unfold handled at 1.
    destruct (sigactions s sig) eqn:E;
      try (rewrite andb_false_r; cbn [orb]; apply IH).
    destruct (IH (signal_handler sig s)) as (A & S & V & L & D & C).
    rewrite A, S, V, L, D, C.
    rewrite (stops_ext (signal_handler sig s) s r
               (signal_handler_sigactions sig s)).
    rewrite signal_handler_sigactions.
    destruct sig; cbn [terminating andb orb negb signal_handler is_active
                       set_is_active call vals long_count printDebugLevel
                       cout];
      rewrite ?andb_false_r; repeat split.
Qed.

(** X17.  Signals that arrive can only stop the service, never start it:
    after their delivery [is_active] is true exactly when it was true
    before and none of them was SIGINT, SIGHUP or SIGTERM with
    [signal_handler] as its disposition.  The delivery changes neither the
    signal dispositions nor the configuration, the debug level or the
    output. *)
Theorem signals_only_stop (signals : list Signal) (s : State) :
  is_active (deliver signals s) = (is_active s && negb (stops s signals)) /\
  sigactions (deliver signals s) = sigactions s /\
  vals (deliver signals s) = vals s /\
  long_count (deliver signals s) = long_count s /\
  printDebugLevel (deliver signals s) = printDebugLevel s /\
  cout (deliver signals s) = cout s.
Proof. apply deliver_effect. Qed.

(** *** The accept loops *)

Lemma threadServer_inactive (script : list Round) (server_socket : Server)
  (s : State) :
  is_active s = false ->
  threadServer script server_socket s =
  Returned 0%Z (call sys_close_listener s).
Proof. intros H. destruct script; cbn [threadServer]; rewrite H; reflexivity. Qed.

Lemma forkServer_inactive (script : list Round) (server_socket : Server)
  (s : State) :
  is_active s = false ->
  forkServer script server_socket s =
  Returned 0%Z (call sys_close_listener s).
Proof. intros H. destruct script; cbn [forkServer]; rewrite H; reflexivity. Qed.

Lemma threadServer_cons (round : Round) (script : list Round)
  (server_socket : Server) (s : State) :
  threadServer (round :: script) server_socket s =
  if is_active s && connected server_socket then
    match accept round with
    | Accepted connection =>
        threadServer script server_socket
          (deliver (signals round)
             (call (sys_thread connection) (call sys_accept s)))
    | NothingPending =>
        threadServer script server_socket
          (deliver (signals round)
             (call (sys_sleep 10) (call sys_accept s)))
    | ListenerLost =>
        threadServer script (lost server_socket)
          (deliver (signals round)
             (call (sys_sleep 10) (call sys_accept s)))
    end
  else Returned 0%Z (call sys_close_listener s).
Proof. reflexivity. Qed.

Lemma forkServer_cons (round : Round) (script : list Round)
  (server_socket : Server) (s : State) :
  forkServer (round :: script) server_socket s =
  if is_active s && connected server_socket then
    match accept round with
    | Accepted connection =>
        if (fork round =? 0)%Z then
          Returned (callback round)
            (call (sys_callback connection)
               (call sys_drop_listener
                  (call (sys_fork (fork round)) (call sys_accept s))))
        else
          forkServer script server_socket
            (deliver (signals round)
               (call (sys_drop_connection connection)
                  (call (sys_fork (fork round)) (call sys_accept s))))
    | NothingPending =>
        forkServer script server_socket
          (deliver (signals round)
             (call (sys_sleep 10) (call sys_accept s)))
    | ListenerLost =>
        forkServer script (lost server_socket)
          (deliver (signals round)
             (call (sys_sleep 10) (call sys_accept s)))
    end
  else Returned 0%Z (call sys_close_listener s).
Proof. reflexivity. Qed.

Lemma deliver_stops (signals : list Signal) (s0 s : State) :
  sigactions s0 = sigactions s -> stops s signals = true ->
  is_active (deliver signals s0) = false.
Proof.
  intros Hs Hstop. destruct (deliver_effect signals s0) as (A & _).
  rewrite A, (stops_ext s0 s signals Hs), Hstop. apply andb_false_r.
Qed.

(** X18.  Signal-driven shutdown.  When a round of an accept loop sees
    SIGINT, SIGHUP or SIGTERM with [signal_handler] installed, the loop
    finishes that round and then returns 0 with [is_active] false: the
    rest of the script is never looked at, so nothing more is accepted.
    For [forkServer] this is the parent's side ([fork] did not return
    0). *)
Theorem servers_stop_on_signal (round : Round) (post : list Round)
  (server_socket : Server) (s : State) :
  is_active s = true ->
  connected server_socket = true ->
  stops s (signals round) = true ->
  (threadServer (round :: post) server_socket s =
     threadServer [round] server_socket s /\
   value_of (threadServer (round :: post) server_socket s) = Some 0%Z /\
   is_active (final (threadServer (round :: post) server_socket s)) = false)
  /\
  (fork round <> 0%Z ->
   forkServer (round :: post) server_socket s =
     forkServer [round] server_socket s /\
   value_of (forkServer (round :: post) server_socket s) = Some 0%Z /\
   is_active (final (forkServer (round :: post) server_socket s)) = false).
Proof.
  intros Hact Hconn Hstop. split.
  - rewrite !threadServer_cons, Hact, Hconn. cbn [andb].
    destruct (accept round) as [connection| |];
      rewrite !threadServer_inactive
        by (eapply deliver_stops; [| exact Hstop]; reflexivity);
      (split; [reflexivity |]); (split; [reflexivity |]);
      cbn [final is_active call];
      (eapply deliver_stops; [| exact Hstop]; reflexivity).
  - intros Hfork. apply Z.eqb_neq in Hfork.
    rewrite !forkServer_cons, Hact, Hconn. cbn [andb]. rewrite ?Hfork.
    destruct (accept round) as [connection| |];
      rewrite !forkServer_inactive
        by (eapply deliver_stops; [| exact Hstop]; reflexivity);
      (split; [reflexivity |]); (split; [reflexivity |]);
      cbn [final is_active call];
      (eapply deliver_stops; [| exact Hstop]; reflexivity).
Qed.

Lemma threadServer_outcome (script : list Round) :
  forall (server_socket : Server) (s : State),
    match threadServer script server_socket s with
    | Returned r s' =>
        r = 0%Z /\ vals s' = vals s /\
        exists s0 : State, s' = call sys_close_listener s0
    | Exited _ _ => False
    | Serving s' => is_active s' = true /\ vals s' = vals s
    | Aborted _ => False
    end.
Proof.
  induction script as [|round script IH]; intros server_socket s.
  - cbn [threadServer].
    destruct (is_active s && connected server_socket) eqn:E.
    + apply andb_prop in E as [E _]. split; [exact E | reflexivity].
    + split; [reflexivity |]. split; [reflexivity |]. eexists. reflexivity.
  - rewrite threadServer_cons.
    destruct (is_active s && connected server_socket) eqn:E.
    + assert (Hv : forall (srv : Server) (c : SysCall),
                 match
                   threadServer script srv
                     (deliver (signals round) (call c (call sys_accept s)))
                 with
                 | Returned r s' =>
                     r = 0%Z /\ vals s' = vals s /\
                     exists s0 : State, s' = call sys_close_listener s0
                 | Exited _ _ => False
                 | Serving s' => is_active s' = true /\ vals s' = vals s
                 | Aborted _ => False
                 end).
      { intros srv c.
        specialize (IH srv
                      (deliver (signals round) (call c (call sys_accept s)))).
        destruct (deliver_effect (signals round)
                    (call c (call sys_accept s))) as (_ & _ & V & _).
        cbn [vals call] in V. rewrite V in IH. exact IH. }
      destruct (accept round); apply Hv.
    + split; [reflexivity |]. split; [reflexivity |]. eexists. reflexivity.
Qed.

Lemma forkServer_outcome (script : list Round) :
  forall (server_socket : Server) (s : State),
    match forkServer script server_socket s with
    | Returned r s' =>
        vals s' = vals s /\
        ((r = 0%Z /\ exists s0 : State, s' = call sys_close_listener s0) \/
         (exists (round : Round) (connection : Z) (s0 : State),
             In round script /\
             accept round = Accepted connection /\
             fork round = 0%Z /\
             r = callback round /\
             s' = call (sys_callback connection)
                    (call sys_drop_listener
                       (call (sys_fork 0) (call sys_accept s0)))))
    | Exited _ _ => False
    | Serving s' => is_active s' = true /\ vals s' = vals s
    | Aborted _ => False
    end.
Proof.
  induction script as [|round script IH]; intros server_socket s.
  - cbn [forkServer].
    destruct (is_active s && connected server_socket) eqn:E.
    + apply andb_prop in E as [E _]. split; [exact E | reflexivity].
    + split; [reflexivity |]. left. split; [reflexivity |].
      eexists. reflexivity.
  - rewrite forkServer_cons.
    destruct (is_active s && connected server_socket) eqn:E.
    + assert (Hv : forall (srv : Server) (s1 : State),
                 vals s1 = vals s ->
                 match forkServer script srv (deliver (signals round) s1) with
                 | Returned r s' =>
                     vals s' = vals s /\
                     ((r = 0%Z /\
                       exists s0 : State, s' = call sys_close_listener s0) \/
                      (exists (round0 : Round) (connection : Z) (s0 : State),
                          In round0 (round :: script) /\
                          accept round0 = Accepted connection /\
                          fork round0 = 0%Z /\
                          r = callback round0 /\
                          s' = call (sys_callback connection)
                                 (call sys_drop_listener
                                    (call (sys_fork 0)
                                       (call sys_accept s0)))))
                 | Exited _ _ => False
                 | Serving s' => is_active s' = true /\ vals s' = vals s
                 | Aborted _ => False
                 end).
      { intros srv s1 Hs1.
        specialize (IH srv (deliver (signals round) s1)).
        destruct (deliver_effect (signals round) s1) as (_ & _ & V & _).
        rewrite V, Hs1 in IH.
        destruct (forkServer script srv (deliver (signals round) s1))
          as [r s'|code s'|s'|s']; [| exact IH | exact IH | exact IH].
        destruct IH as [Hvals [Hparent | Hchild]].
        - split; [exact Hvals |]. left. exact Hparent.
        - split; [exact Hvals |]. right.
          destruct Hchild as (round0 & c & s0 & Hin & Hrest).
          exists round0, c, s0. split; [right; exact Hin | exact Hrest]. }
      destruct (accept round) as [connection| |] eqn:A;
        [| apply Hv; reflexivity | apply Hv; reflexivity].
      destruct (fork round =? 0)%Z eqn:F; [| apply Hv; reflexivity].
      apply Z.eqb_eq in F. split; [reflexivity |]. right.
      exists round, connection, s.
      split; [left; reflexivity |]. split; [exact A |].
      split; [exact F |]. split; [reflexivity |]. rewrite F. reflexivity.
    + split; [reflexivity |]. left. split; [reflexivity |].
      eexists. reflexivity.
Qed.

(** X19.  How the accept loops end.  Neither loop ever exits the process or
    touches the configuration.  [threadServer] returns only 0, and only
    right after closing the listener.  [forkServer] returns either 0 right
    after closing the listener (the parent), or, in a child, what the
    callback returned for the connection just accepted, right after
    dropping the listener without closing it.  A loop that is still
    serving when the script of events runs out has [is_active] true. *)
Theorem accept_loops_end (script : list Round) (server_socket : Server)
  (s : State) :
  match threadServer script server_socket s with
  | Returned r s' =>
      r = 0%Z /\ vals s' = vals s /\
      exists s0 : State, s' = call sys_close_listener s0
  | Exited _ _ => False
  | Serving s' => is_active s' = true /\ vals s' = vals s
  | Aborted _ => False
  end /\
  match forkServer script server_socket s with
  | Returned r s' =>
      vals s' = vals s /\
      ((r = 0%Z /\ exists s0 : State, s' = call sys_close_listener s0) \/
       (exists (round : Round) (connection : Z) (s0 : State),
           In round script /\
           accept round = Accepted connection /\
           fork round = 0%Z /\
           r = callback round /\
           s' = call (sys_callback connection)
                  (call sys_drop_listener
                     (call (sys_fork 0) (call sys_accept s0)))))
  | Exited _ _ => False
  | Serving s' => is_active s' = true /\ vals s' = vals s
  | Aborted _ => False
  end.
Proof.
  split; [apply threadServer_outcome | apply forkServer_outcome].
Qed.

Lemma servers_stop_on_signal_witness :
  let round :=
    {| accept := Accepted 7; fork := 1234; callback := 0;
       signals := [SIGPIPE; SIGTERM] |} in
  let post :=
    [{| accept := Accepted 8; fork := 1235; callback := 0; signals := [] |}] in
  let server_socket :=
    {| endpoint := TcpSocket 8080 "0.0.0.0"; connected := true |} in
  let s := final (activate linux_x86 (Config linux_x86 "app" "1.0")) in
  (threadServer (round :: post) server_socket s =
     threadServer [round] server_socket s /\
   value_of (threadServer (round :: post) server_socket s) = Some 0%Z /\
   is_active (final (threadServer (round :: post) server_socket s)) = false)
  /\
  (fork round <> 0%Z ->
   forkServer (round :: post) server_socket s =
     forkServer [round] server_socket s /\
   value_of (forkServer (round :: post) server_socket s) = Some 0%Z /\
   is_active (final (forkServer (round :: post) server_socket s)) = false).
Proof.
  cbv zeta.
  apply (servers_stop_on_signal
           {| accept := Accepted 7; fork := 1234; callback := 0;
              signals := [SIGPIPE; SIGTERM] |}
           [{| accept := Accepted 8; fork := 1235; callback := 0;
               signals := [] |}]
           {| endpoint := TcpSocket 8080 "0.0.0.0"; connected := true |}
           (final (activate linux_x86 (Config linux_x86 "app" "1.0"))));
    reflexivity.
Defined.

(** *** [activate] *)

Section Activate.
Variable P : Platform.

Lemma activate_username_calls (s : State) :
  exists s1 : State,
    activate_username P s = Returned tt s1 /\
    same_except ["username"] (vals s) (vals s1) /\
    sigactions s1 = sigactions s /\
    syscalls s1 =
      (syscalls s ++
       match drops_to P s with
       | Some username => [sys_setUser username]
       | None => []
       end)%list.
Proof.
  unfold activate_username, drops_to.
  destruct (isMember (vals s) "username") eqn:H.
  - destruct (getString_frame P s "username" H) as (x & w & E & _ & F).
    unfold bind at 1. rewrite E. cbn [value_of].
    unfold setUser.
    destruct (String.eqb x "root"); cbn [negb]; unfold bind, modify, ret;
      eexists; (split; [reflexivity |]);
      cbn [vals set_vals call sigactions syscalls]; rewrite ?app_nil_r;
      (split; [| split; reflexivity]);
      (eapply same_except_trans; [exact F | apply same_except_removeMember]).
  - eexists. split; [reflexivity |]. rewrite app_nil_r.
    split; [apply same_except_refl | split; reflexivity].
Qed.

Lemma activate_daemonize_calls (s : State) :
  exists s2 : State,
    activate_daemonize P s = Returned tt s2 /\
    sigactions s2 = sigactions s /\
    syscalls s2 =
      (syscalls s ++
       if daemonize_requested s then [sys_daemon (logfile_set P s)]
       else [])%list.
Proof.
  unfold activate_daemonize, daemonize_requested.
  destruct (isMember (vals s) "daemonize") eqn:H.
  - destruct (getBool_frame s "daemonize" H) as (d & w & E & Hw & F).
    unfold bind at 1. rewrite E. cbn [value_of].
    destruct d.
    + assert (Hreg : isMember w "logfile" = isMember (vals s) "logfile").
      { apply (same_except_isMember ["daemonize"]); [exact F |].
        cbn. intros [Heq | []]. discriminate. }
      assert (Hval : value_of (getString P "logfile" (set_vals w s)) =
                     value_of (getString P "logfile" s)).
      { apply getString_value_local. cbn [vals set_vals]. apply F.
        cbn. intros [Heq | []]. discriminate. }
      unfold logfile_set. rewrite <- Hreg, <- Hval.
      unfold bind at 1. unfold activate_background. cbn [vals set_vals].
      destruct (isMember w "logfile") eqn:HL; cbn [andb].
      * destruct (getString_frame P (set_vals w s) "logfile" HL)
          as (x & w' & E' & _ & _).
        unfold bind at 1. rewrite E'. cbn [value_of].
        unfold Daemonize, modify.
        destruct (String.eqb x ""); cbn [negb];
          eexists; (split; [reflexivity |]); split; reflexivity.
      * unfold Daemonize, modify.
        eexists. split; [reflexivity |]. split; reflexivity.
    + unfold ret. eexists. split; [reflexivity |].
      rewrite app_nil_r. split; reflexivity.
  - unfold getBool, bind. rewrite getOption_unregistered by exact H.
    cbn [value_of]. eexists. split; [reflexivity |].
    rewrite app_nil_r. split; reflexivity.
Qed.

Lemma activate_run (s : State) :
  exists s2 : State,
    activate P s =
      Returned tt
        (set_is_active true
           (final (activate_signals s2))) /\
    sigactions s2 = sigactions s /\
    syscalls s2 =
      (syscalls s ++
       match drops_to P s with
       | Some username => [sys_setUser username]
       | None => []
       end ++
       if daemonize_requested s then [sys_daemon (logfile_set P s)]
       else [])%list.
Proof.
  destruct (activate_username_calls s) as (s1 & E1 & F1 & S1 & C1).
  destruct (activate_daemonize_calls s1) as (s2 & E2 & S2 & C2).
  assert (Hd : find_member "daemonize" (members (vals s1)) =
               find_member "daemonize" (members (vals s))).
  { apply F1. cbn. intros [Heq | []]. discriminate. }
  assert (Hl : find_member "logfile" (members (vals s1)) =
               find_member "logfile" (members (vals s))).
  { apply F1. cbn. intros [Heq | []]. discriminate. }
  assert (Hreq : daemonize_requested s1 = daemonize_requested s).
  { unfold daemonize_requested.
    rewrite (getBool_value_local s1 s "daemonize" Hd). reflexivity. }
  assert (Hlog : logfile_set P s1 = logfile_set P s).
  { unfold logfile_set, isMember.
    rewrite (getString_value_local P s1 s "logfile" Hl), Hl. reflexivity. }
  exists s2. split; [| split].
  - unfold activate. unfold bind at 1. rewrite E1.
    unfold bind at 1. rewrite E2.
    unfold bind, modify, activate_signals. cbn.
    destruct (sigactions s2 SIGCHLD); reflexivity.
  - rewrite S2. exact S1.
  - rewrite C2, C1, Hreq, Hlog, <- app_assoc. reflexivity.
Qed.

(** X20.  The signal dispositions [activate] leaves: [signal_handler] for
    SIGINT, SIGHUP, SIGTERM and SIGPIPE whatever they were; for SIGCHLD
    [signal_handler] if its disposition was the default or "ignore", and
    the handler that was there otherwise; every other signal as before. *)
Theorem activate_signal_dispositions (s : State) :
  let s' := final (activate P s) in
  sigactions s' SIGINT = signal_handler_installed /\
  sigactions s' SIGHUP = signal_handler_installed /\
  sigactions s' SIGTERM = signal_handler_installed /\
  sigactions s' SIGPIPE = signal_handler_installed /\
  sigactions s' SIGCHLD =
    match sigactions s SIGCHLD with
    | SIG_DFL | SIG_IGN => signal_handler_installed
    | handler => handler
    end /\
  forall signum : Z, sigactions s' (SIGOTHER signum) =
                     sigactions s (SIGOTHER signum).
Proof.
  destruct (activate_run s) as (s2 & E & S & _).
  cbv zeta. rewrite E, <- S. cbn [final].
  unfold activate_signals, bind, modify. cbn.
  destruct (sigactions s2 SIGCHLD) eqn:C; cbn; rewrite ?C; repeat split.
Qed.

(** X21.  Of the calls that [SysCall] lists, [activate] makes, in order:
    first the change of user, if "username" is registered and its current
    value is not "root"; then [daemon], if "daemonize" is registered with a
    true current value, keeping the standard streams open exactly when
    "logfile" is registered with a non-empty current value; and no
    other. *)
Theorem activate_system_calls (s : State) :
  syscalls (final (activate P s)) =
  (syscalls s ++
   match drops_to P s with
   | Some username => [sys_setUser username]
   | None => []
   end ++
   if daemonize_requested s then [sys_daemon (logfile_set P s)] else [])%list.
Proof.
  destruct (activate_run s) as (s2 & E & _ & C).
  rewrite E, <- C. cbn [final].
  unfold activate_signals, bind, modify. cbn.
  destruct (sigactions s2 SIGCHLD); reflexivity.
Qed.

End Activate.

(** *** The connector options *)

Section Connector.
Variable P : Platform.

Lemma member_addOption_same (optname : string) (option : Value) (s : State) :
  member (vals (addOption optname option s)) optname =
  registered_entry option.
Proof. rewrite addOption_vals. apply member_at_member_same. Qed.

Lemma member_addOption_other (optname other : string) (option : Value)
  (s : State) :
  other <> optname ->
  member (vals (addOption optname option s)) other = member (vals s) other.
Proof. intros H. rewrite addOption_vals. apply member_at_member_other, H. Qed.

Lemma isMember_addOption_other (optname other : string) (option : Value)
  (s : State) :
  other <> optname ->
  isMember (vals (addOption optname option s)) other =
  isMember (vals s) other.
Proof.
  intros H. rewrite addOption_vals. apply isMember_at_member_other, H.
Qed.

Lemma getInteger_of_list (s : State) (optname : string) (x : Value) :
  member (member (vals s) optname) "value" = ARRAY [x] ->
  getInteger optname s = Returned (asInt x) s.
Proof.
  intros H.
  destruct (getOption_of_list s optname [x] H ltac:(discriminate)
              ltac:(cbn; lia)) as [E _].
  unfold getInteger, bind, ret. rewrite E. reflexivity.
Qed.

Lemma getString_of_list (s : State) (optname : string) (x : Value) :
  member (member (vals s) optname) "value" = ARRAY [x] ->
  getString P optname s = Returned (asString (toString P) x) s.
Proof.
  intros H.
  destruct (getOption_of_list s optname [x] H ltac:(discriminate)
              ltac:(cbn; lia)) as [E _].
  unfold getString, bind, ret. rewrite E. reflexivity.
Qed.

Lemma getBool_of_list (s : State) (optname : string) (x : Value) :
  member (member (vals s) optname) "value" = ARRAY [x] ->
  getBool optname s = Returned (asBool x) s.
Proof.
  intros H.
  destruct (getOption_of_list s optname [x] H ltac:(discriminate)
              ltac:(cbn; lia)) as [E _].
  unfold getBool, bind, ret. rewrite E. reflexivity.
Qed.

Ltac connector_state :=
  unfold addConnectorOptions, addBasicConnectorOptions; cbv zeta; cbn [snd];
  rewrite ?isMember_at_member_other, ?member_at_member_other
    by discriminate.

Ltac entry_step :=
  lazymatch goal with
  | |- context [member (vals (addOption ?n ?o ?s)) ?m] =>
      first
        [ constr_eq n m; rewrite (member_addOption_same n o s)
        | rewrite (member_addOption_other n m o s) by discriminate ]
  end.

Ltac entry_of := repeat entry_step; reflexivity.

Lemma connector_entries (port : Z) (capabilities : Value) (s s' : State) :
  s' = snd (addConnectorOptions P port capabilities s) ->
  member (member (vals s') "listen_port") "value" = ARRAY [INTEGER port] /\
  member (member (vals s') "listen_interface") "value" =
    ARRAY [STRING "0.0.0.0"] /\
  member (member (vals s') "username") "value" = ARRAY [STRING "root"] /\
  member (member (vals s') "daemonize") "value" = ARRAY [INTEGER 0] /\
  member (member (vals s') "json") "value" = ARRAY [INTEGER 0] /\
  (if isMember capabilities "socket"
   then member (member (vals s') "socket") "value" =
        ARRAY [member capabilities "socket"]
   else isMember (vals s') "socket" = isMember (vals s) "socket") /\
  is_active s' = is_active s /\
  printDebugLevel s' = printDebugLevel s /\
  cout s' = cout s /\
  sigactions s' = sigactions s /\
  syscalls s' = syscalls s.
Proof.
  intros ->. connector_state.
  destruct (isMember capabilities "socket").
  - split; [entry_of |].
    split; [entry_of |].
    split; [entry_of |].
    split; [entry_of |].
    split; [entry_of |].
    split; [entry_of |].
    repeat split.
  - split; [entry_of |].
    split; [entry_of |].
    split; [entry_of |].
    split; [entry_of |].
    split; [entry_of |].
    split; [rewrite !isMember_addOption_other by discriminate; reflexivity |].
    repeat split.
Qed.

(** X22.  Right after [addConnectorOptions(port, capabilities)], whatever
    was registered before: "listen_port" reads as [port],
    "listen_interface" as "0.0.0.0", "username" as "root", "daemonize" and
    "json" as false; "socket" reads as the socket the capabilities
    advertise, and is registered by this call only if they advertise one.
    Each of these lookups is a pure read, and the call itself touches
    nothing of the process but the configuration. *)
Theorem connector_defaults (port : Z) (capabilities : Value) (s : State) :
  let s' := snd (addConnectorOptions P port capabilities s) in
  getInteger "listen_port" s' = Returned port s' /\
  getString P "listen_interface" s' = Returned "0.0.0.0" s' /\
  getString P "username" s' = Returned "root" s' /\
  getBool "daemonize" s' = Returned false s' /\
  getBool "json" s' = Returned false s' /\
  (if isMember capabilities "socket"
   then getOption "socket" false s' =
        Returned (member capabilities "socket") s'
   else isMember (vals s') "socket" = isMember (vals s) "socket") /\
  is_active s' = is_active s /\
  printDebugLevel s' = printDebugLevel s /\
  cout s' = cout s /\
  sigactions s' = sigactions s /\
  syscalls s' = syscalls s.
Proof.
  intros s'.
  destruct (connector_entries port capabilities s s' eq_refl)
    as (Hp & Hi & Hu & Hd & Hj & Hs & Hrest).
  clearbody s'.
  split; [exact (getInteger_of_list s' _ _ Hp) |].
  split; [exact (getString_of_list s' _ _ Hi) |].
  split; [exact (getString_of_list s' _ _ Hu) |].
  split; [exact (getBool_of_list s' _ _ Hd) |].
  split; [exact (getBool_of_list s' _ _ Hj) |].
  split; [| exact Hrest].
  destruct (isMember capabilities "socket"); [| exact Hs].
  destruct (getOption_of_list s' "socket" _ Hs ltac:(discriminate)
              ltac:(cbn; lia)) as [E _].
  exact E.
Qed.

Lemma activate_calls (s : State) :
  syscalls (final (activate P s)) =
  (syscalls s ++
   match drops_to P s with
   | Some username => [sys_setUser username]
   | None => []
   end ++
   if daemonize_requested s then [sys_daemon (logfile_set P s)] else [])%list.
Proof.
  destruct (activate_run P s) as (s2 & E & _ & C).
  rewrite E, <- C. cbn [final].
  unfold activate_signals, bind, modify. cbn.
  destruct (sigactions s2 SIGCHLD); reflexivity.
Qed.

Lemma resolve_listener_tcp (s : State) (port : Z) (iface : string) :
  isMember (vals s) "listen_port" = true ->
  isMember (vals s) "listen_interface" = true ->
  value_of (getInteger "listen_port" s) = Some port ->
  value_of (getString P "listen_interface" s) = Some iface ->
  value_of (resolve_listener P s) =
    Some {| endpoint := TcpSocket (to_int port) iface;
            connected := tcp_listens P (to_int port) iface |}.
Proof.
  intros Rp Ri Gp Gi.
  destruct (resolve_local_effect P {| endpoint := NoEndpoint;
                                      connected := false |} s)
    as (srv & s1 & E1 & F1 & _).
  destruct (resolve_tcp_effect P srv s1) as (srv2 & s2 & E2 & H2).
  assert (Fp : find_member "listen_port" (members (vals s1)) =
               find_member "listen_port" (members (vals s))).
  { apply F1. cbn. intros [Heq | []]. discriminate. }
  assert (Fi : find_member "listen_interface" (members (vals s1)) =
               find_member "listen_interface" (members (vals s))).
  { apply F1. cbn. intros [Heq | []]. discriminate. }
  assert (Rp1 : isMember (vals s1) "listen_port" = true)
    by (unfold isMember in Rp |- *; rewrite Fp; exact Rp).
  assert (Ri1 : isMember (vals s1) "listen_interface" = true)
    by (unfold isMember in Ri |- *; rewrite Fi; exact Ri).
  rewrite Rp1, Ri1 in H2. cbn [andb] in H2.
  destruct H2 as (port' & iface' & Vp & Vi & Hsrv).
  rewrite (getInteger_value_local s1 s "listen_port" Fp), Gp in Vp.
  rewrite (getString_value_local P s1 s "listen_interface" Fi), Gi in Vi.
  injection Vp as <-. injection Vi as <-.
  assert (Hrun : resolve_listener P s = Returned srv2 s2).
  { unfold resolve_listener, bind. rewrite E1. exact E2. }
  rewrite Hrun, Hsrv. reflexivity.
Qed.

Lemma registered_of_value (s : State) (optname : string) (a : list Value) :
  member (member (vals s) optname) "value" = ARRAY a ->
  isMember (vals s) optname = true.
Proof.
  intros H. destruct (isMember (vals s) optname) eqn:E; [reflexivity |].
  rewrite (isMember_member_EMPTY _ _ E) in H. discriminate H.
Qed.

Lemma connector_activate (s : State) :
  member (member (vals s) "username") "value" = ARRAY [STRING "root"] ->
  member (member (vals s) "daemonize") "value" = ARRAY [INTEGER 0] ->
  syscalls (final (activate P s)) = syscalls s.
Proof.
  intros Hu Hd.
  pose proof (getString_of_list s _ _ Hu) as Gu.
  pose proof (getBool_of_list s _ _ Hd) as Gd.
  cbn [asString asBool Z.eqb negb] in Gu, Gd.
  rewrite activate_calls. unfold drops_to, daemonize_requested.
  rewrite (registered_of_value _ _ _ Hu), Gu, Gd.
  cbn [value_of]. change (String.eqb "root" "root") with true.
  cbv iota. cbn [List.app]. apply app_nil_r.
Qed.

(** X23.  A connector started on its defaults: right after
    [addConnectorOptions(port, capabilities)], [activate] neither changes
    the user nor calls [daemon], and the listener that
    [serveThreadedSocket] and [serveForkedSocket] resolve is the TCP socket
    on [port] (as an [int]) and "0.0.0.0", also when the capabilities
    advertise a local socket. *)
Theorem connector_start (port : Z) (capabilities : Value) (s : State) :
  let s' := snd (addConnectorOptions P port capabilities s) in
  syscalls (final (activate P s')) = syscalls s /\
  value_of (resolve_listener P s') =
    Some {| endpoint := TcpSocket (to_int port) "0.0.0.0";
            connected := tcp_listens P (to_int port) "0.0.0.0" |}.
Proof.
  intros s'.
  destruct (connector_entries port capabilities s s' eq_refl)
    as (Hp & Hi & Hu & Hd & _ & _ & _ & _ & _ & _ & Hcalls).
  clearbody s'. split.
  - rewrite (connector_activate s' Hu Hd). exact Hcalls.
  - apply resolve_listener_tcp.
    + exact (registered_of_value _ _ _ Hp).
    + exact (registered_of_value _ _ _ Hi).
    + rewrite (getInteger_of_list s' _ _ Hp). reflexivity.
    + rewrite (getString_of_list s' _ _ Hi). reflexivity.
Qed.

(** *** The constructor *)

(** X24.  A configuration fresh from [Config(cmd, version)] reads "cmd" as
    [cmd], "version" as the application version [version] (the library
    version stays first in the list), and "debug" as the build's [DEBUG];
    each of these lookups is a pure read, and [parseArgs] on a command line
    without options and tokens returns [true] and changes nothing. *)
Theorem Config_initial_values (cmd version : string) :
  let s := Config P cmd version in
  getString P "cmd" s = Returned cmd s /\
  getString P "version" s = Returned version s /\
  getOption "version" true s =
    Returned (ARRAY [STRING (PACKAGE_VERSION P); STRING version]) s /\
  getInteger "debug" s = Returned (DEBUG P) s /\
  parseArgs P [] [] s = Returned true s.
Proof. cbv zeta. repeat split; reflexivity. Qed.

End Connector.

(** *** Lookups settle *)

Lemma set_value_same (v : Value) (optname : string) (a : list Value) :
  member (member v optname) "value" = ARRAY a ->
  at_member optname (set_member "value" (ARRAY a)) v = v.
Proof.
  intros H.
  pose proof (member_ARRAY_isMember _ _ _ H) as Hv.
  assert (Hreg : isMember v optname = true).
  { destruct (isMember v optname) eqn:E; [reflexivity |].
    rewrite (isMember_member_EMPTY _ _ E) in H. discriminate H. }
  assert (He : set_member "value" (ARRAY a) (member v optname) =
               member v optname).
  { unfold set_member. rewrite at_member_id; [| exact Hv | exact (eq_sym H)].
    apply isMember_OBJECT_members with (name := "value"). exact Hv. }
  rewrite at_member_id; [| exact Hreg | exact He].
  apply (isMember_OBJECT_members _ _ Hreg).
Qed.

(** X25.  A lookup changes the configuration at most once.  For a
    registered option whose "value" is missing or is not a list, the first
    [getOption] makes it the one-element list of the empty value and
    returns that empty value (as an array, the list); any lookup after it
    returns the same and is a pure read. *)
Theorem getOption_settles (s : State) (optname : string) (asArray : bool) :
  isMember (vals s) optname = true ->
  isArray (member (member (vals s) optname) "value") = false ->
  let s1 := final (getOption optname asArray s) in
  getOption optname asArray s =
    Returned (if asArray then ARRAY [EMPTY] else EMPTY) s1 /\
  member (member (vals s1) optname) "value" = ARRAY [EMPTY] /\
  same_except [optname] (vals s) (vals s1) /\
  getOption optname false s1 = Returned EMPTY s1 /\
  getOption optname true s1 = Returned (ARRAY [EMPTY]) s1.
Proof.
  intros Hreg Harr.
  set (vals1 := at_member optname (at_member "value" (append EMPTY)) (vals s)).
  assert (Hm : member (member vals1 optname) "value" = ARRAY [EMPTY]).
  { subst vals1. rewrite !member_at_member_same.
    destruct (member (member (vals s) optname) "value");
      try reflexivity; discriminate Harr. }
  destruct (getOption_of_list (set_vals vals1 s) optname [EMPTY] Hm
              ltac:(discriminate) ltac:(cbn; lia)) as [E1 E2].
  cbn [last] in E1.
  assert (Hrun : getOption optname asArray s =
                 Returned (if asArray then ARRAY [EMPTY] else EMPTY)
                   (set_vals vals1 s)).
  { unfold getOption. rewrite Hreg, Harr, orb_true_r.
    cbn [negb]. fold vals1. rewrite !Hm.
    destruct asArray; [reflexivity |].
    change (at_index (to_uint (to_int (size (ARRAY [EMPTY])) - 1))
              (ARRAY [EMPTY])) with (EMPTY, ARRAY [EMPTY]).
    cbv iota. rewrite (set_value_same vals1 optname [EMPTY] Hm).
    reflexivity. }
  cbv zeta. rewrite Hrun. cbn [final vals set_vals].
  split; [reflexivity |]. split; [exact Hm |]. split; [| split; assumption].
  intros name Hn. subst vals1. apply find_member_at_member_other.
  intros ->. apply Hn. left. reflexivity.
Qed.

Lemma getOption_settles_witness :
  let s := Config linux_x86 "app" "1.0" in
  let s1 := final (getOption "help" false s) in
  getOption "help" false s = Returned EMPTY s1 /\
  member (member (vals s1) "help") "value" = ARRAY [EMPTY] /\
  same_except ["help"] (vals s) (vals s1) /\
  getOption "help" false s1 = Returned EMPTY s1 /\
  getOption "help" true s1 = Returned (ARRAY [EMPTY]) s1.
Proof.
  apply (getOption_settles (Config linux_x86 "app" "1.0") "help" false);
    reflexivity.
Defined.

(** *** [getMyPath] *)

Lemma rfind_None_append (c : ascii) (a b : string) :
  rfind c (a ++ b) = None -> rfind c a = None /\ rfind c b = None.
Proof.
  induction a as [|x a IH]; cbn [String.append rfind]; intros H.
  - split; [reflexivity | exact H].
  - destruct (rfind c (a ++ b)); [discriminate |].
    destruct (IH eq_refl) as [Ha Hb]. rewrite Ha. split; [| exact Hb].
    destruct (Ascii.eqb x c); [discriminate | reflexivity].
Qed.

Lemma rfind_split (c : ascii) (s : string) :
  forall i : nat,
    rfind c s = Some i ->
    exists file : string,
      s = substring 0 (i + 1) s ++ file /\
      rfind c file = None /\
      exists d : string, substring 0 (i + 1) s = d ++ String c "".
Proof.
  induction s as [|x r IH]; intros i H; [discriminate |].
  cbn [rfind] in H. destruct (rfind c r) as [j|] eqn:R.
  - injection H as <-. destruct (IH j eq_refl) as (file & Hs & Hf & d & Hd).
    exists file. cbn [Nat.add substring String.append].
    split; [f_equal; exact Hs |]. split; [exact Hf |].
    exists (String x d). cbn [String.append]. f_equal. exact Hd.
  - destruct (Ascii.eqb x c) eqn:E; [| discriminate].
    injection H as <-. apply Ascii.eqb_eq in E. subst x.
    exists r. cbn [Nat.add substring String.append].
    assert (H0 : substring 0 0 r = "") by (destruct r; reflexivity).
    rewrite H0. split; [reflexivity |]. split; [exact R |].
    exists "". reflexivity.
Qed.

(** X26.  [getMyPath] on Linux.  When [readlink] fails the result is empty.
    When it stores fewer than 500 bytes, the result is a prefix of the
    path that was read (up to its first NUL, if any): the part up to and
    including the last '/', or, if the path has no '/', up to and including
    the last backslash, or nothing if it has neither; what is cut off
    holds no '/' (and no backslash either in the second case). *)
Theorem getMyPath_is_directory (target : string) :
  (String.length target < 500)%nat ->
  getMyPath None = Some "" /\
  exists dir file : string,
    getMyPath (Some target) = Some dir /\
    c_str target = dir ++ file /\
    rfind slash file = None /\
    ((exists d : string, dir = d ++ String slash "") \/
     (rfind slash (c_str target) = None /\ rfind backslash file = None /\
      ((exists d : string, dir = d ++ String backslash "") \/
       (dir = "" /\ file = c_str target)))).
Proof.
  intros Hlen. split; [reflexivity |].
  unfold getMyPath. apply Nat.ltb_lt in Hlen. rewrite Hlen.
  destruct (rfind slash (c_str target)) as [i|] eqn:S.
  - destruct (rfind_split _ _ _ S) as (file & Hs & Hf & Hd).
    exists (substring 0 (i + 1) (c_str target)), file.
    split; [reflexivity |]. split; [exact Hs |]. split; [exact Hf |].
    left. exact Hd.
  - destruct (rfind backslash (c_str target)) as [i|] eqn:B.
    + destruct (rfind_split _ _ _ B) as (file & Hs & Hf & Hd).
      exists (substring 0 (i + 1) (c_str target)), file.
      split; [reflexivity |]. split; [exact Hs |].
      assert (Hfile : rfind slash file = None).
      { rewrite Hs in S. apply rfind_None_append in S. apply S. }
      split; [exact Hfile |]. right. split; [reflexivity |].
      split; [exact Hf |]. left. exact Hd.
    + exists "", (c_str target).
      split; [reflexivity |]. split; [reflexivity |]. split; [exact S |].
      right. split; [reflexivity |]. split; [exact B |]. right.
      split; reflexivity.
Qed.

Lemma getMyPath_is_directory_witness :
  getMyPath None = Some "" /\
  exists dir file : string,
    getMyPath (Some "/usr/bin/MistController") = Some dir /\
    c_str "/usr/bin/MistController" = dir ++ file /\
    rfind slash file = None /\
    ((exists d : string, dir = d ++ String slash "") \/
     (rfind slash (c_str "/usr/bin/MistController") = None /\
      rfind backslash file = None /\
      ((exists d : string, dir = d ++ String backslash "") \/
       (dir = "" /\ file = c_str "/usr/bin/MistController")))).
Proof.
  apply (getMyPath_is_directory "/usr/bin/MistController").
  cbn. lia.
Defined.

(** *** The usage line of [printHelp] *)

Section Usage.
Variable P : Platform.

Lemma args_find_set (key key' : Z) (name : string)
  (args : list (Z * string)) :
  args_find key' (args_set key name args) =
  if (key =? key')%Z then Some name else args_find key' args.
Proof.
  induction args as [|[k n] r IH].
  - reflexivity.
  - cbn [args_set]. destruct (key =? k)%Z eqn:E.
    + apply Z.eqb_eq in E. subst k. cbn [args_find].
      destruct (key =? key')%Z; reflexivity.
    + destruct (key <? k)%Z; cbn [args_find]; [reflexivity |].
      rewrite IH. destruct (k =? key')%Z eqn:K; [| reflexivity].
      apply Z.eqb_eq in K. subst key'. rewrite E. reflexivity.
Qed.

Lemma increasing_cons (a : Z) (l : list Z) :
  increasing (a :: l) =
  match l with
  | b :: _ => (a <? b)%Z && increasing l
  | [] => true
  end.
Proof. reflexivity. Qed.

Lemma args_set_increasing (key : Z) (name : string)
  (args : list (Z * string)) :
  increasing (map fst args) = true ->
  increasing (map fst (args_set key name args)) = true /\
  match args with
  | [] => True
  | (k, _) :: _ =>
      match args_set key name args with
      | [] => False
      | (k', _) :: _ => k' = Z.min key k
      end
  end.
Proof.
  induction args as [|[k n] r IH]; intros H.
  - split; [reflexivity | exact I].
  - cbn [args_set]. destruct (key =? k)%Z eqn:E.
    + apply Z.eqb_eq in E. subst k. split; [exact H | lia].
    + apply Z.eqb_neq in E. destruct (key <? k)%Z eqn:L.
      * apply Z.ltb_lt in L. split; [| lia].
        cbn [map fst]. rewrite increasing_cons.
        cbn [map fst] in H. apply andb_true_intro.
        split; [apply Z.ltb_lt; exact L | exact H].
      * apply Z.ltb_ge in L. split; [| lia].
        cbn [map fst] in H |- *. rewrite increasing_cons in H.
        destruct r as [|[k' n'] r'].
        -- cbn. rewrite andb_true_r. apply Z.ltb_lt. lia.
        -- cbn [map fst] in H. apply andb_prop in H as [Hk Hr].
           apply Z.ltb_lt in Hk.
           destruct (IH Hr) as [Hinc Hhead].
           rewrite increasing_cons.
           destruct (args_set key name ((k', n') :: r')) as [|[k'' n''] r'']
             eqn:A; [contradiction |].
           cbn [map fst] in Hinc |- *. subst k''.
           apply andb_true_intro. split; [apply Z.ltb_lt; lia | exact Hinc].
Qed.

Lemma printHelp_measure_args (name : string) (val : Value) (longest : Z)
  (args : list (Z * string)) :
  snd (fst (printHelp_measure P name val (longest, args))) =
    (if isMember val "arg_num"
     then args_set (asInt (member val "arg_num")) name args
     else args) /\
  snd (printHelp_measure P name val (longest, args)) = true.
Proof.
  unfold printHelp_measure. destruct (isMember val "arg_num");
    split; reflexivity.
Qed.

Lemma usage_scan (k : Z) (o : list (string * Value)) :
  forall (longest : Z) (args : list (Z * string)),
    increasing (map fst args) = true ->
    increasing
      (map fst
         (snd (forEachMember_list (printHelp_measure P) o (longest, args))))
      = true /\
    args_find k
      (snd (forEachMember_list (printHelp_measure P) o (longest, args))) =
    fold_left
      (fun found e =>
         if takes_position k (snd e) then Some (fst e) else found)
      o (args_find k args).
Proof.
  induction o as [|[n e] r IH]; intros longest args Hinc.
  - split; [exact Hinc | reflexivity].
  - cbn [forEachMember_list fold_left fst snd].
    destruct (printHelp_measure_args n e longest args) as [Ha Hc].
    destruct (printHelp_measure P n e (longest, args)) as [[l' args'] c].
    cbn [fst snd] in Ha, Hc. subst c.
    assert (Hinc' : increasing (map fst args') = true).
    { rewrite Ha. destruct (isMember e "arg_num"); [| exact Hinc].
      apply args_set_increasing. exact Hinc. }
    destruct (IH l' args' Hinc') as [H1 H2].
    split; [exact H1 |]. rewrite H2. f_equal.
    rewrite Ha. unfold takes_position.
    destruct (isMember e "arg_num"); cbn [andb]; [| reflexivity].
    apply args_find_set.
Qed.

(** X27.  The positional names of the usage line.  The table [args] that
    [printHelp] walks for the usage line has strictly increasing keys, so
    every declared positional index shows once, in index order; and under
    an index it holds the name of the last entry, in registry order, that
    declares the index (whereas [parseArgs] hands the token to the first
    such entry). *)
Theorem usage_lists_positions (vals : Value) (k : Z) :
  let args := snd (forEachMember (printHelp_measure P) vals (0%Z, [])) in
  increasing (map fst args) = true /\
  args_find k args = last_with_position k (members vals).
Proof.
  cbv zeta. unfold forEachMember, last_with_position.
  apply (usage_scan k (members vals) 0%Z []). reflexivity.
Qed.

End Usage.

(** *** What the accept loops do with the connections *)







(** When [fork] fails, the connection is dropped like in the parent and
    the loop goes on; no child serves it. *)
Lemma forkServer_failed_fork :
  let server_socket :=
    {| endpoint := TcpSocket 8080 "0.0.0.0"; connected := true |} in
  let s := final (activate linux_x86 (Config linux_x86 "app" "1.0")) in
  let round :=
    {| accept := Accepted 7; fork := -1; callback := 0;
       signals := [SIGTERM] |} in
  forkServer [round] server_socket s =
    Returned 0%Z
      (call sys_close_listener
         (deliver [SIGTERM]
            (call (sys_drop_connection 7)
               (call (sys_fork (-1)) (call sys_accept s))))) /\
  connections_dropped (syscalls (final (forkServer [round] server_socket s)))
    = [7%Z].
Proof. split; vm_compute; reflexivity. Qed.

(** *** A start that fails *)

Section FailedStart.
Variable P : Platform.

Lemma only_listens_refl (s : State) : only_listens s s.
Proof.
  repeat split. exists []. split; [symmetry; apply app_nil_r | constructor].
Qed.

Lemma only_listens_trans (s1 s2 s3 : State) :
  only_listens s1 s2 -> only_listens s2 s3 -> only_listens s1 s3.
Proof.
  intros (N1 & L1 & A1 & D1 & C1 & S1 & l1 & Y1 & F1)
         (N2 & L2 & A2 & D2 & C2 & S2 & l2 & Y2 & F2).
  split; [intros name; rewrite N2; apply N1 |].
  split; [congruence |]. split; [congruence |]. split; [congruence |].
  split; [congruence |]. split; [congruence |].
  exists (l1 ++ l2)%list. split.
  - rewrite Y2, Y1, app_assoc. reflexivity.
  - apply Forall_app. split; assumption.
Qed.

Lemma only_listens_lookup (s : State) (optname : string) (w : Value) :
  isMember (vals s) optname = true ->
  isMember w optname = true ->
  same_except [optname] (vals s) w ->
  only_listens s (set_vals w s).
Proof.
  intros Hreg Hw F. split.
  - intros name. cbn [vals set_vals].
    destruct (String.eqb_spec name optname) as [-> | Hne].
    + rewrite Hw, Hreg. reflexivity.
    + apply (same_except_isMember [optname]); [exact F |].
      intros [Heq | []]. apply Hne. symmetry. exact Heq.
  - repeat split. exists [].
    split; [symmetry; apply app_nil_r | constructor].
Qed.

Lemma only_listens_call (s : State) (e : Endpoint) :
  only_listens s (call (sys_listen e) s).
Proof.
  repeat split. exists [sys_listen e]. split; [reflexivity |].
  constructor; [| constructor]. exists e. reflexivity.
Qed.

Lemma resolve_local_only (server_socket : Server) (s : State) :
  exists (srv : Server) (s1 : State),
    resolve_local P server_socket s = Returned srv s1 /\ only_listens s s1.
Proof.
  unfold resolve_local. destruct (isMember (vals s) "socket") eqn:H.
  - destruct (getString_frame P s "socket" H) as (x & w & E & Hw & F).
    unfold bind at 1. rewrite E. unfold bind, modify, ret.
    eexists. eexists. split; [reflexivity |].
    eapply only_listens_trans;
      [apply (only_listens_lookup s "socket" w H Hw F) |
       apply only_listens_call].
  - eexists. eexists. split; [reflexivity | apply only_listens_refl].
Qed.

Lemma resolve_tcp_only (server_socket : Server) (s : State) :
  exists (srv : Server) (s1 : State),
    resolve_tcp P server_socket s = Returned srv s1 /\ only_listens s s1.
Proof.
  unfold resolve_tcp.
  destruct (isMember (vals s) "listen_port") eqn:Hp; cbn [andb];
    [| eexists; eexists; split; [reflexivity | apply only_listens_refl]].
  destruct (isMember (vals s) "listen_interface") eqn:Hi;
    [| eexists; eexists; split; [reflexivity | apply only_listens_refl]].
  destruct (getInteger_frame s "listen_port" Hp) as (x & w & E & Hw & F).
  unfold bind at 1. rewrite E.
  assert (Hi' : isMember (vals (set_vals w s)) "listen_interface" = true).
  { cbn [vals set_vals].
    rewrite (same_except_isMember ["listen_port"] (vals s) w
               "listen_interface" F); [exact Hi |].
    cbn. intros [Heq | []]. discriminate. }
  destruct (getString_frame P (set_vals w s) "listen_interface" Hi')
    as (y & w' & E' & Hw' & F').
  unfold bind at 1. rewrite E'. unfold bind, modify, ret.
  eexists. eexists. split; [reflexivity |].
  eapply only_listens_trans;
    [apply (only_listens_lookup s "listen_port" w Hp Hw F) |].
  eapply only_listens_trans;
    [apply (only_listens_lookup (set_vals w s) "listen_interface" w' Hi' Hw'
              F') |].
  apply only_listens_call.
Qed.

Lemma resolve_listener_only (s : State) :
  exists (srv : Server) (s1 : State),
    resolve_listener P s = Returned srv s1 /\ only_listens s s1.
Proof.
  unfold resolve_listener.
  destruct (resolve_local_only {| endpoint := NoEndpoint;
                                  connected := false |} s)
    as (srv1 & s1 & E1 & O1).
  destruct (resolve_tcp_only srv1 s1) as (srv2 & s2 & E2 & O2).
  exists srv2, s2. split.
  - unfold bind. rewrite E1. exact E2.
  - eapply only_listens_trans; eassumption.
Qed.

(** X29.  A start that fails leaves the process as it was.  When the
    listener that is resolved is not connected, [serveThreadedSocket] and
    [serveForkedSocket] both return 1 without activating anything: the same
    options are registered afterwards ("username" and "daemonize"
    included), [is_active], [long_count], the debug level, the output and
    the signal dispositions are unchanged, and of the calls that [SysCall]
    lists only attempts to listen are made. *)
Theorem failed_start_changes_nothing (script : list Round) (s : State)
  (server_socket : Server) :
  value_of (resolve_listener P s) = Some server_socket ->
  connected server_socket = false ->
  serveThreadedSocket P script s = serveForkedSocket P script s /\
  value_of (serveThreadedSocket P script s) = Some 1%Z /\
  (forall name : string,
      isMember (vals (final (serveThreadedSocket P script s))) name =
      isMember (vals s) name) /\
  long_count (final (serveThreadedSocket P script s)) = long_count s /\
  is_active (final (serveThreadedSocket P script s)) = is_active s /\
  printDebugLevel (final (serveThreadedSocket P script s)) =
    printDebugLevel s /\
  cout (final (serveThreadedSocket P script s)) = cout s /\
  sigactions (final (serveThreadedSocket P script s)) = sigactions s /\
  exists listens : list SysCall,
    syscalls (final (serveThreadedSocket P script s)) =
      (syscalls s ++ listens)%list /\
    Forall (fun c => exists e : Endpoint, c = sys_listen e) listens.
Proof.
  intros Hsrv Hconn.
  destruct (resolve_listener_only s) as (srv & s1 & E & O).
  rewrite E in Hsrv. cbn [value_of] in Hsrv. injection Hsrv as ->.
  assert (Ht : serveThreadedSocket P script s = Returned 1%Z s1).
  { unfold serveThreadedSocket. unfold bind at 1. rewrite E, Hconn.
    reflexivity. }
  assert (Hf : serveForkedSocket P script s = Returned 1%Z s1).
  { unfold serveForkedSocket. unfold bind at 1. rewrite E, Hconn.
    reflexivity. }
  rewrite Ht, Hf. cbn [final value_of].
  split; [reflexivity |]. split; [reflexivity |]. exact O.
Qed.

End FailedStart.

Lemma failed_start_changes_nothing_witness :
  let s := connector_port_taken in
  let script :=
    [{| accept := Accepted 7; fork := 0; callback := 0; signals := [] |}] in
  serveThreadedSocket linux_x86_port_taken script s =
    serveForkedSocket linux_x86_port_taken script s /\
  value_of (serveThreadedSocket linux_x86_port_taken script s) = Some 1%Z /\
  (forall name : string,
      isMember
        (vals (final (serveThreadedSocket linux_x86_port_taken script s)))
        name = isMember (vals s) name) /\
  long_count (final (serveThreadedSocket linux_x86_port_taken script s)) =
    long_count s /\
  is_active (final (serveThreadedSocket linux_x86_port_taken script s)) =
    is_active s /\
  printDebugLevel
    (final (serveThreadedSocket linux_x86_port_taken script s)) =
    printDebugLevel s /\
  cout (final (serveThreadedSocket linux_x86_port_taken script s)) =
    cout s /\
  sigactions (final (serveThreadedSocket linux_x86_port_taken script s)) =
    sigactions s /\
  exists listens : list SysCall,
    syscalls (final (serveThreadedSocket linux_x86_port_taken script s)) =
      (syscalls s ++ listens)%list /\
    Forall (fun c => exists e : Endpoint, c = sys_listen e) listens.
Proof.
  apply (failed_start_changes_nothing linux_x86_port_taken
           [{| accept := Accepted 7; fork := 0; callback := 0;
               signals := [] |}]
           connector_port_taken
           {| endpoint := TcpSocket 8080 "0.0.0.0"; connected := false |});
    vm_compute; reflexivity.
Defined.

(** On that host the connector tries to listen on port 8080 of every
    interface, once, and returns 1; "listen_port", "listen_interface",
    "username" and "daemonize" are registered before and after. *)
Lemma failed_start_example :
  let s := connector_port_taken in
  let script :=
    [{| accept := Accepted 7; fork := 0; callback := 0; signals := [] |}] in
  value_of (resolve_listener linux_x86_port_taken s) =
    Some {| endpoint := TcpSocket 8080 "0.0.0.0"; connected := false |} /\
  value_of (serveForkedSocket linux_x86_port_taken script s) = Some 1%Z /\
  syscalls (final (serveForkedSocket linux_x86_port_taken script s)) =
    [sys_listen (TcpSocket 8080 "0.0.0.0")] /\
  syscalls s = [] /\
  forallb
    (isMember
       (vals (final (serveForkedSocket linux_x86_port_taken script s))))
    ["listen_port"; "listen_interface"; "username"; "daemonize"] = true /\
  forallb (isMember (vals s))
    ["listen_port"; "listen_interface"; "username"; "daemonize"] = true.
Proof. repeat split; vm_compute; reflexivity. Qed.

End ConfigMore.
